(** * Invitation ledger and linking engine of the quiz platform

    A shallow embedding of the invitation-and-linking subsystem:
    [routers/invite.py], [routers/recruiter_code.py],
    [services/user_service.py], [routers/user_assessment.py],
    [create_student_assessment.py] and the merge performed by
    [frontend/student_dashboard.py]; and, around it, of the sending of
    invitations with [utils/email.py], the recruiter codes, the submission
    of an assessment and the figures a recruiter is shown.

    The relational store is a record of tables, every table a list of rows in
    insertion order.  A SQLAlchemy session is a small state-and-exception
    monad over the durable store, the open transaction's view of it, and the
    unit of work that has not been flushed yet; the persistence layer may
    fail at any statement.

    The file has three parts: the embedding of the code, module by source
    file; the vocabulary of the properties and the population of the
    examples; the lemmas and theorems. *)

From Stdlib Require Import ZArith QArith String Ascii List Bool Lia
  DecimalString.
From stdpp Require Import base decidable option list strings gmap.

Open Scope Z_scope.
Open Scope string_scope.
Open Scope list_scope.

(** ** Rows *)

Module Model.

(** Modelled from the spec: [models/user.py] is not among the sources.  An
    identity as the auth provider supplies it and the handlers read it:
    id, role and e-mail, the display name, and the recruiter code, a
    nullable unique column of the identity table. *)
Record User := mkUser {
  u_id : Z;
  u_name : string;
  u_role : string;
  u_email : string;
  u_recruiter_code : option string
}.

(** Modelled from the spec: [models/assessment.py] is not among the
    sources.  The columns the handlers read; the owner is
    [created_by_user_id]. *)
Record Assessment := mkAssessment {
  a_id : Z;
  a_name : string;
  a_description : string;
  a_duration : Z;
  a_created_by_user_id : option Z
}.

(** Modelled from the spec: [models/question.py] is not among the sources;
    a question carries its text and its marks. *)
Record Question := mkQuestion {
  q_id : Z;
  q_question_text : string;
  q_marks : Z
}.

(** Modelled from the spec: the association rows behind
    [assessment.assessment_questions], which bind questions to an
    assessment. *)
Record AssessmentQuestion := mkAQ {
  aq_assessment_id : Z;
  aq_question_id : Z
}.

(** [models/invite_token.py].  Timestamps are points on the integer line;
    only their order is ever looked at. *)
Record InviteToken := mkInvite {
  it_id : Z;
  it_token : string;
  it_assessment_id : Z;
  it_student_email : string;
  it_used : bool;
  it_expires_at : Z;
  it_created_at : Z
}.

(** Modelled from the spec: [models/user_assessment.py] is not among the
    sources.  The status enumeration of the Linkage. *)
Inductive AssessmentStatus := INVITED | PENDING | STARTED | COMPLETED.

(** Modelled from the spec: the Linkage (UserAssessment) row, with the
    columns the handlers set and filter on.  [ua_id] is [None] on an object
    that has been constructed but not inserted yet, as in the ORM;
    [recruiter_id], [score] and the two times are nullable. *)
Record UserAssessment := mkUA {
  ua_id : option Z;
  ua_user_id : Z;
  ua_recruiter_id : option Z;
  ua_assessment_id : Z;
  ua_student_email : option string;
  ua_status : AssessmentStatus;
  ua_score : option Z;
  ua_start_time : option Z;
  ua_end_time : option Z
}.

#[global] Instance AssessmentStatus_eq_dec : EqDecision AssessmentStatus.
Proof. solve_decision. Defined.

#[global] Instance User_eq_dec : EqDecision User.
Proof. solve_decision. Defined.

#[global] Instance Assessment_eq_dec : EqDecision Assessment.
Proof. solve_decision. Defined.

#[global] Instance InviteToken_eq_dec : EqDecision InviteToken.
Proof. solve_decision. Defined.

#[global] Instance UserAssessment_eq_dec : EqDecision UserAssessment.
Proof. solve_decision. Defined.

(** ** The store *)

Record Store := mkStore {
  users : list User;
  assessments : list Assessment;
  assessment_questions : list AssessmentQuestion;
  questions : list Question;
  invite_tokens : list InviteToken;
  user_assessments : list UserAssessment
}.

Definition with_user_assessments (s : Store) (l : list UserAssessment) : Store :=
  {| users := users s; assessments := assessments s;
     assessment_questions := assessment_questions s; questions := questions s;
     invite_tokens := invite_tokens s; user_assessments := l |}.

Definition with_invite_tokens (s : Store) (l : list InviteToken) : Store :=
  {| users := users s; assessments := assessments s;
     assessment_questions := assessment_questions s; questions := questions s;
     invite_tokens := l; user_assessments := user_assessments s |}.

(** Autoincrement primary key of the linkage table. *)
Definition next_ua_id (l : list UserAssessment) : Z :=
  1 + foldr (fun ua m => Z.max (default 0 (ua_id ua)) m) 0 l.

Definition set_ua_id (i : Z) (ua : UserAssessment) : UserAssessment :=
  {| ua_id := Some i; ua_user_id := ua_user_id ua;
     ua_recruiter_id := ua_recruiter_id ua;
     ua_assessment_id := ua_assessment_id ua;
     ua_student_email := ua_student_email ua; ua_status := ua_status ua;
     ua_score := ua_score ua; ua_start_time := ua_start_time ua;
     ua_end_time := ua_end_time ua |}.

(** INSERT INTO user_assessments *)
Definition insert_row (l : list UserAssessment) (ua : UserAssessment)
  : list UserAssessment :=
  l ++ [set_ua_id (next_ua_id l) ua].

Definition insert_ua (ua : UserAssessment) (s : Store) : Store :=
  with_user_assessments s (insert_row (user_assessments s) ua).

Definition set_used (t : InviteToken) : InviteToken :=
  {| it_id := it_id t; it_token := it_token t;
     it_assessment_id := it_assessment_id t;
     it_student_email := it_student_email t; it_used := true;
     it_expires_at := it_expires_at t; it_created_at := it_created_at t |}.

(** UPDATE invite_tokens SET used = true WHERE id = :id *)
Definition mark_used (id : Z) (s : Store) : Store :=
  with_invite_tokens s
    (map (fun t => if bool_decide (it_id t = id) then set_used t else t)
         (invite_tokens s)).

(** ** Sessions *)

Inductive Exn :=
| HTTPException (status_code : Z) (detail : string)
| SQLAlchemyError
| AttributeError.

Inductive Outcome (A : Type) :=
| Return (a : A)
| Raise (e : Exn).
Arguments Return {A} a.
Arguments Raise {A} e.

(** What the unit of work holds between [db.add] / an attribute assignment
    and the next flush. *)
Inductive PendingOp :=
| Insert (ua : UserAssessment)
| MarkUsed (invite_id : Z).

(** [budget] is the fault model of the persistence layer: [None] is a store
    that never fails, [Some k] one whose statement number [k+1] (an INSERT,
    an UPDATE or the COMMIT itself) fails. *)
Record Session := mkSession {
  autoflush : bool;
  durable : Store;
  txn : Store;
  pending : list PendingOp;
  budget : option nat
}.

Definition M (A : Type) : Type := Session -> Outcome A * Session.

Definition ret {A} (a : A) : M A := fun σ => (Return a, σ).

Definition bind {A B} (m : M A) (k : A -> M B) : M B :=
  fun σ => match m σ with
           | (Return a, σ') => k a σ'
           | (Raise e, σ') => (Raise e, σ')
           end.

Definition raise {A} (e : Exn) : M A := fun σ => (Raise e, σ).

(** [try: m except Exception as e: h e] *)
Definition try_except {A} (m : M A) (h : Exn -> M A) : M A :=
  fun σ => match m σ with
           | (Return a, σ') => (Return a, σ')
           | (Raise e, σ') => h e σ'
           end.

Declare Scope session_scope.
Delimit Scope session_scope with session.
Notation "x <- m ;; k" := (bind m (fun x => k))
  (at level 100, m at next level, right associativity) : session_scope.
Notation "m ;;; k" := (bind m (fun _ => k))
  (at level 100, right associativity) : session_scope.
Open Scope session_scope.

Definition apply_op (op : PendingOp) (s : Store) : Store :=
  match op with
  | Insert ua => insert_ua ua s
  | MarkUsed id => mark_used id s
  end.

(** One statement sent to the store. *)
Definition execute : M unit :=
  fun σ => match budget σ with
           | None => (Return tt, σ)
           | Some O => (Raise SQLAlchemyError, σ)
           | Some (S k) =>
               (Return tt,
                {| autoflush := autoflush σ; durable := durable σ;
                   txn := txn σ; pending := pending σ; budget := Some k |})
           end.

Definition flushed (op : PendingOp) (rest : list PendingOp) : M unit :=
  fun σ => (Return tt,
            {| autoflush := autoflush σ; durable := durable σ;
               txn := apply_op op (txn σ); pending := rest;
               budget := budget σ |}).

Fixpoint flush_ops (ops : list PendingOp) : M unit :=
  match ops with
  | [] => ret tt
  | op :: rest => execute ;;; flushed op rest ;;; flush_ops rest
  end.

Definition flush : M unit := fun σ => flush_ops (pending σ) σ.

Definition make_durable : M unit :=
  fun σ => (Return tt,
            {| autoflush := autoflush σ; durable := txn σ; txn := txn σ;
               pending := pending σ; budget := budget σ |}).

(** [db.commit()] *)
Definition commit : M unit := flush ;;; execute ;;; make_durable.

(** [db.rollback()] *)
Definition rollback : M unit :=
  fun σ => (Return tt,
            {| autoflush := autoflush σ; durable := durable σ;
               txn := durable σ; pending := []; budget := budget σ |}).

(** [db.add(ua)] *)
Definition db_add (ua : UserAssessment) : M unit :=
  fun σ => (Return tt,
            {| autoflush := autoflush σ; durable := durable σ; txn := txn σ;
               pending := pending σ ++ [Insert ua]; budget := budget σ |}).

(** [invite.used = True] on a persistent object. *)
Definition assign_used (invite : InviteToken) : M unit :=
  fun σ => (Return tt,
            {| autoflush := autoflush σ; durable := durable σ; txn := txn σ;
               pending := pending σ ++ [MarkUsed (it_id invite)];
               budget := budget σ |}).

(** [db.query(...)...]: flushes first when the session autoflushes, then
    reads the transaction's view. *)
Definition query {A} (q : Store -> A) : M A :=
  fun σ => ((if autoflush σ then flush else ret tt) ;;;
            (fun σ' => (Return (q (txn σ')), σ'))) σ.

(** A request: [get_db] opens a session on the store, the handler runs, the
    session is closed; what was not committed is gone. *)
Definition open_session (af : bool) (b : option nat) (s : Store) : Session :=
  {| autoflush := af; durable := s; txn := s; pending := []; budget := b |}.

Definition request {A} (af : bool) (b : option nat) (s : Store) (m : M A)
  : Outcome A * Store :=
  let '(r, σ) := m (open_session af b s) in (r, durable σ).

(** ** Queries shared by the handlers *)

Definition invite_by_token (token : string) (s : Store) : option InviteToken :=
  find (fun i => bool_decide (it_token i = token)) (invite_tokens s).

Definition assessment_by_id (id : Z) (s : Store) : option Assessment :=
  find (fun a => bool_decide (a_id a = id)) (assessments s).

Definition user_by_id (id : Z) (s : Store) : option User :=
  find (fun u => bool_decide (u_id u = id)) (users s).

Definition question_by_id (id : Z) (s : Store) : option Question :=
  find (fun q => bool_decide (q_id q = id)) (questions s).

(** [filter_by(user_id=.., recruiter_id=.., assessment_id=..)] *)
Definition same_link (uid : Z) (rid : option Z) (aid : Z) (ua : UserAssessment)
  : bool :=
  bool_decide (ua_user_id ua = uid) && bool_decide (ua_recruiter_id ua = rid)
  && bool_decide (ua_assessment_id ua = aid).

Definition linkage (uid : Z) (rid : option Z) (aid : Z) (s : Store)
  : option UserAssessment :=
  find (same_link uid rid aid) (user_assessments s).

(** [assessment.assessment_questions] *)
Definition questions_of (aid : Z) (s : Store) : list AssessmentQuestion :=
  List.filter (fun aq => bool_decide (aq_assessment_id aq = aid))
              (assessment_questions s).

End Model.

Import Model.

(** ** [routers/invite.py] *)

Module Invite.

Definition invalid_token : Exn :=
  HTTPException 400 "Invalid invitation token. Please check the link and try again.".
Definition already_used : Exn :=
  HTTPException 400 "This invitation has already been used.".
Definition expired : Exn :=
  HTTPException 400 "This invitation has expired. Please request a new one.".
Definition assessment_missing : Exn :=
  HTTPException 404 "Assessment not found for this invitation.".
(** The detail of the 500 answer embeds [str(e)], which is left out. *)
Definition accept_failed : Exn :=
  HTTPException 500 "Failed to accept invitation: ".

Record InviteTokenResponse := mkPreview {
  title : string;
  preview_questions : list (Z * string);
  duration : Z;
  assessment_id : Z
}.

(** The loop over [assessment.assessment_questions]; [aq.question] of a
    dangling association row is [None] and [q.id] raises. *)
Fixpoint collect_questions (aqs : list AssessmentQuestion) (s : Store)
  : option (list (Z * string)) :=
  match aqs with
  | [] => Some []
  | aq :: rest =>
      match question_by_id (aq_question_id aq) s with
      | None => None
      | Some q =>
          match collect_questions rest s with
          | None => None
          | Some l => Some ((q_id q, q_question_text q) :: l)
          end
      end
  end.

(** [validate_invite_token], [now] being [datetime.utcnow()]. *)
Definition validate_invite_token (token : string) (now : Z)
  : M InviteTokenResponse :=
  invite <- query (invite_by_token token) ;;
  match invite with
  | None => raise invalid_token
  | Some invite =>
      if it_used invite then raise already_used
      else if bool_decide (it_expires_at invite < now) then raise expired
      else
        assessment <- query (assessment_by_id (it_assessment_id invite)) ;;
        match assessment with
        | None => raise assessment_missing
        | Some assessment =>
            qs <- query (fun s => collect_questions
                                       (questions_of (a_id assessment) s) s) ;;
            match qs with
            | None => raise AttributeError
            | Some qs =>
                ret {| title := a_name assessment; preview_questions := qs;
                       duration := a_duration assessment;
                       assessment_id := a_id assessment |}
            end
        end
  end.

Inductive AcceptResponse :=
| AlreadyLinked   (* "You are already linked to this assessment." *)
| Accepted (assessment_name : string) (recruiter_id : option Z).
    (* "Invitation accepted successfully! Assessment assigned." *)

Definition accept_message (r : AcceptResponse) : string :=
  match r with
  | AlreadyLinked => "You are already linked to this assessment."
  | Accepted _ _ => "Invitation accepted successfully! Assessment assigned."
  end.

Definition invited_ua (current_user : User) (recruiter_id : option Z)
    (assessment_id : Z) : UserAssessment :=
  {| ua_id := None; ua_user_id := u_id current_user;
     ua_recruiter_id := recruiter_id; ua_assessment_id := assessment_id;
     ua_student_email := Some (u_email current_user); ua_status := INVITED;
     ua_score := None; ua_start_time := None; ua_end_time := None |}.

(** [accept_invite_token]; [current_user] is whatever identity the auth
    dependency supplied. *)
Definition accept_invite_token (token : string) (now : Z) (current_user : User)
  : M AcceptResponse :=
  invite <- query (invite_by_token token) ;;
  match invite with
  | None => raise invalid_token
  | Some invite =>
      if it_used invite then raise already_used
      else if bool_decide (it_expires_at invite < now) then raise expired
      else
        assessment <- query (assessment_by_id (it_assessment_id invite)) ;;
        match assessment with
        | None => raise assessment_missing
        | Some assessment =>
            let recruiter_id := a_created_by_user_id assessment in
            existing_ua <- query (linkage (u_id current_user) recruiter_id
                                          (it_assessment_id invite)) ;;
            match existing_ua with
            | Some _ =>
                assign_used invite ;;;
                commit ;;;
                ret AlreadyLinked
            | None =>
                try_except
                  (db_add (invited_ua current_user recruiter_id
                                      (it_assessment_id invite)) ;;;
                   assign_used invite ;;;
                   commit ;;;
                   ret (Accepted (a_name assessment) recruiter_id))
                  (fun _ => rollback ;;; raise accept_failed)
            end
        end
  end.

Record StatusResponse := mkStatus {
  valid : bool;
  message : string;
  status : string;
  status_assessment_name : option string;
  status_student_email : option string;
  status_expires_at : option Z
}.

Definition not_valid (msg st : string) : StatusResponse :=
  {| valid := false; message := msg; status := st;
     status_assessment_name := None; status_student_email := None;
     status_expires_at := None |}.

(** [get_invite_status] *)
Definition get_invite_status (token : string) (now : Z) : M StatusResponse :=
  invite <- query (invite_by_token token) ;;
  match invite with
  | None => ret (not_valid "Invalid invitation token" "invalid")
  | Some invite =>
      if it_used invite then
        ret (not_valid "This invitation has already been used" "used")
      else if bool_decide (it_expires_at invite < now) then
        ret (not_valid "This invitation has expired" "expired")
      else
        assessment <- query (assessment_by_id (it_assessment_id invite)) ;;
        match assessment with
        | None =>
            ret (not_valid "Assessment not found for this invitation"
                           "assessment_not_found")
        | Some assessment =>
            ret {| valid := true; message := "Invitation is valid";
                   status := "valid";
                   status_assessment_name := Some (a_name assessment);
                   status_student_email := Some (it_student_email invite);
                   status_expires_at := Some (it_expires_at invite) |}
        end
  end.

End Invite.

(** ** [str.lower] on the ASCII range *)

Definition lower_ascii (c : ascii) : ascii :=
  let n := nat_of_ascii c in
  if ((65 <=? n)%nat && (n <=? 90)%nat)%bool then ascii_of_nat (n + 32) else c.

Fixpoint lower (s : string) : string :=
  match s with
  | EmptyString => EmptyString
  | String c r => String (lower_ascii c) (lower r)
  end.

Definition string_in (s : string) (l : list string) : bool :=
  bool_decide (s ∈ l).

(** ** [services/user_service.py] *)

Module UserService.

(** [validate_recruiter_code] *)
Definition validate_recruiter_code (recruiter_code : string) : M (option User) :=
  if bool_decide (recruiter_code = "") then ret None
  else
    query (fun s =>
      find (fun u => bool_decide (u_recruiter_code u = Some recruiter_code)
                     && string_in (u_role u) ["Admin"; "Recruiter"])
           (users s)).

Definition recruiter_assessments (recruiter_id : Z) (s : Store)
  : list Assessment :=
  List.filter (fun a => bool_decide (a_created_by_user_id a = Some recruiter_id))
              (assessments s).

Definition linked_ua (student : User) (student_id recruiter_id : Z)
    (assessment : Assessment) : UserAssessment :=
  {| ua_id := None; ua_user_id := student_id;
     ua_recruiter_id := Some recruiter_id;
     ua_assessment_id := a_id assessment;
     ua_student_email := Some (u_email student); ua_status := INVITED;
     ua_score := None; ua_start_time := None; ua_end_time := None |}.

(** The [for assessment in recruiter_assessments] loop. *)
Fixpoint link_loop (student : User) (student_id recruiter_id : Z)
    (l : list Assessment) : M unit :=
  match l with
  | [] => ret tt
  | assessment :: rest =>
      existing_ua <- query (linkage student_id (Some recruiter_id)
                                    (a_id assessment)) ;;
      (match existing_ua with
       | None => db_add (linked_ua student student_id recruiter_id assessment)
       | Some _ => ret tt
       end) ;;;
      link_loop student student_id recruiter_id rest
  end.

(** [link_student_to_recruiter] *)
Definition link_student_to_recruiter (student_id recruiter_id : Z) : M bool :=
  try_except
    (recruiter <- query (user_by_id recruiter_id) ;;
     match recruiter with
     | None => ret false
     | Some recruiter =>
         if negb (string_in (lower (u_role recruiter)) ["admin"; "recruiter"])
         then ret false
         else
           assessments <- query (recruiter_assessments recruiter_id) ;;
           student <- query (user_by_id student_id) ;;
           match student with
           | None => ret false
           | Some student =>
               link_loop student student_id recruiter_id assessments ;;;
               commit ;;;
               ret true
           end
     end)
    (fun _ => rollback ;;; ret false).

Record RecruiterAssessment := mkRA {
  ra_id : Z;
  ra_name : string;
  ra_description : string;
  ra_duration : Z;
  ra_status : AssessmentStatus;
  ra_score : option Z;
  ra_start_time : option Z;
  ra_end_time : option Z
}.

(** The projection loop; [ua.assessment] of a dangling linkage is [None]
    and [assessment.id] raises. *)
Fixpoint project (uas : list UserAssessment) (s : Store)
  : option (list RecruiterAssessment) :=
  match uas with
  | [] => Some []
  | ua :: rest =>
      match assessment_by_id (ua_assessment_id ua) s with
      | None => None
      | Some a =>
          match project rest s with
          | None => None
          | Some l =>
              Some ({| ra_id := a_id a; ra_name := a_name a;
                       ra_description := a_description a;
                       ra_duration := a_duration a; ra_status := ua_status ua;
                       ra_score := ua_score ua;
                       ra_start_time := ua_start_time ua;
                       ra_end_time := ua_end_time ua |} :: l)
          end
      end
  end.

Definition links_of (student_id recruiter_id : Z) (s : Store)
  : list UserAssessment :=
  List.filter (fun ua => bool_decide (ua_user_id ua = student_id)
                         && bool_decide (ua_recruiter_id ua = Some recruiter_id))
              (user_assessments s).

(** [get_recruiter_assessments_for_student] *)
Definition get_recruiter_assessments_for_student (student_id recruiter_id : Z)
  : M (list RecruiterAssessment) :=
  try_except
    (uas <- query (links_of student_id recruiter_id) ;;
     r <- query (project uas) ;;
     match r with
     | None => raise AttributeError
     | Some l => ret l
     end)
    (fun _ => ret []).

End UserService.

(** ** [routers/recruiter_code.py] *)

Module RecruiterCode.

Definition only_students : Exn :=
  HTTPException 403 "Only students can link to recruiters.".
Definition invalid_code : Exn :=
  HTTPException 400 "Invalid recruiter code. Please check and try again.".
Definition already_linked : Exn :=
  HTTPException 400 "You are already linked to this recruiter.".
Definition link_failed : Exn :=
  HTTPException 500 "Failed to link to recruiter. Please try again.".
Definition students_only_endpoint : Exn :=
  HTTPException 403 "Only students can access this endpoint.".

Record RecruiterCodeResponse := mkLinked {
  recruiter_name : string;
  recruiter_id : Z;
  linked_assessments : list UserService.RecruiterAssessment
}.

Definition is_student (u : User) : bool :=
  string_in (lower (u_role u)) ["student"].

Definition existing_link (uid rid : Z) (s : Store) : option UserAssessment :=
  find (fun ua => bool_decide (ua_user_id ua = uid)
                  && bool_decide (ua_recruiter_id ua = Some rid))
       (user_assessments s).

(** [link_student_to_recruiter] of the router *)
Definition link_student_to_recruiter (recruiter_code : string)
    (current_user : User) : M RecruiterCodeResponse :=
  if negb (is_student current_user) then raise only_students
  else
    recruiter <- UserService.validate_recruiter_code recruiter_code ;;
    match recruiter with
    | None => raise invalid_code
    | Some recruiter =>
        link <- query (existing_link (u_id current_user) (u_id recruiter)) ;;
        match link with
        | Some _ => raise already_linked
        | None =>
            success <- UserService.link_student_to_recruiter
                         (u_id current_user) (u_id recruiter) ;;
            if negb success then raise link_failed
            else
              linked <- UserService.get_recruiter_assessments_for_student
                          (u_id current_user) (u_id recruiter) ;;
              ret {| recruiter_name := u_name recruiter;
                     recruiter_id := u_id recruiter;
                     linked_assessments := linked |}
        end
    end.

Definition first_recruiter_link (uid : Z) (s : Store) : option UserAssessment :=
  find (fun ua => bool_decide (ua_user_id ua = uid)
                  && bool_decide (ua_recruiter_id ua ≠ None))
       (user_assessments s).

(** [get_recruiter_assessments_for_student] of the router *)
Definition get_recruiter_assessments_for_student (current_user : User)
  : M (list UserService.RecruiterAssessment) :=
  if negb (is_student current_user) then raise students_only_endpoint
  else
    ua <- query (first_recruiter_link (u_id current_user)) ;;
    match ua with
    | None => ret []
    | Some ua =>
        (* the filter above makes [ua.recruiter_id] non-null *)
        match ua_recruiter_id ua with
        | None => ret []
        | Some rid =>
            UserService.get_recruiter_assessments_for_student
              (u_id current_user) rid
        end
    end.

End RecruiterCode.

(** ** [routers/user_assessment.py] *)

Module UserAssessmentRouter.

Section Endpoints.

(** [auth.jwt.require_student] is not among the sources: the identities it
    lets through are a parameter, and so is the failure it raises. *)
Variable require_student : User -> bool.
Variable not_a_student : Exn.

Definition assessment_not_found : Exn :=
  HTTPException 404 "Assessment not found".
Definition already_active : Exn :=
  HTTPException 400 "You already have an active assessment for this test".

Definition active_assessment (uid aid : Z) (s : Store) : option UserAssessment :=
  find (fun ua => bool_decide (ua_user_id ua = uid)
                  && bool_decide (ua_assessment_id ua = aid)
                  && bool_decide (ua_status ua = STARTED))
       (user_assessments s).

Definition started_ua (current_user : User) (assessment_id now : Z)
  : UserAssessment :=
  {| ua_id := None; ua_user_id := u_id current_user; ua_recruiter_id := None;
     ua_assessment_id := assessment_id; ua_student_email := None;
     ua_status := STARTED; ua_score := None; ua_start_time := Some now;
     ua_end_time := None |}.

(** [start_assessment]; the answer is the refreshed row, the last one of
    the table. *)
Definition start_assessment (assessment_id : Z) (now : Z) (current_user : User)
  : M (option UserAssessment) :=
  if negb (require_student current_user) then raise not_a_student
  else
    assessment <- query (assessment_by_id assessment_id) ;;
    match assessment with
    | None => raise assessment_not_found
    | Some _ =>
        active <- query (active_assessment (u_id current_user) assessment_id) ;;
        match active with
        | Some _ => raise already_active
        | None =>
            db_add (started_ua current_user assessment_id now) ;;;
            commit ;;;
            query (fun s => last (user_assessments s))
        end
    end.

Record MyAssessment := mkMine {
  assessment_id : Z;
  assessment_name : string;
  status : AssessmentStatus;
  score : option Q
}.

(** [func.sum(Question.marks)] over the questions whose id is in [qids],
    [or 0]. *)
Definition sum_marks (qids : list Z) (s : Store) : Z :=
  foldr Z.add 0
    (map q_marks
         (List.filter (fun q => bool_decide (q_id q ∈ qids)) (questions s))).

Definition total_marks_of (ua : UserAssessment) (s : Store) : Z :=
  match assessment_by_id (ua_assessment_id ua) s with
  | None => 0
  | Some a =>
      let qids := map aq_question_id (questions_of (a_id a) s) in
      match qids with
      | [] => 0
      | _ => sum_marks qids s
      end
  end.

(** [(ua.score / total_marks) * 100.0], kept as an exact rational. *)
Definition percentage (score total_marks : Z) : Q :=
  (inject_Z score / inject_Z total_marks * inject_Z 100)%Q.

Definition my_entry (s : Store) (ua : UserAssessment) : MyAssessment :=
  let total_marks := total_marks_of ua s in
  {| assessment_id := ua_assessment_id ua;
     assessment_name :=
       match assessment_by_id (ua_assessment_id ua) s with
       | Some a => a_name a
       | None => "Assessment"
       end;
     status := ua_status ua;
     score :=
       match ua_score ua with
       | Some sc =>
           if bool_decide (total_marks = 0) then None
           else Some (percentage sc total_marks)
       | None => None
       end |}.

Definition records_of (uid : Z) (s : Store) : list UserAssessment :=
  List.filter (fun ua => bool_decide (ua_user_id ua = uid)) (user_assessments s).

(** [get_my_assessments] *)
Definition get_my_assessments (current_user : User) : M (list MyAssessment) :=
  if negb (require_student current_user) then raise not_a_student
  else
    query (fun s => map (my_entry s) (records_of (u_id current_user) s)).

End Endpoints.

End UserAssessmentRouter.

(** ** [create_student_assessment.py] *)

Module AssignScript.

Inductive Printed :=
| NoUser | NoAssessment | AlreadyAssigned | Assigned.

Definition pending_ua (uid aid : Z) : UserAssessment :=
  {| ua_id := None; ua_user_id := uid; ua_recruiter_id := None;
     ua_assessment_id := aid; ua_student_email := None; ua_status := PENDING;
     ua_score := None; ua_start_time := None; ua_end_time := None |}.

(** [assign_assessment_to_student] *)
Definition assign_assessment_to_student (student_email : string)
    (assessment_id : Z) : M Printed :=
  user <- query (fun s => find (fun u => bool_decide (u_email u = student_email))
                               (users s)) ;;
  match user with
  | None => ret NoUser
  | Some user =>
      assessment <- query (assessment_by_id assessment_id) ;;
      match assessment with
      | None => ret NoAssessment
      | Some assessment =>
          existing <- query (fun s =>
            find (fun ua => bool_decide (ua_user_id ua = u_id user)
                            && bool_decide (ua_assessment_id ua = a_id assessment))
                 (user_assessments s)) ;;
          match existing with
          | Some _ => ret AlreadyAssigned
          | None =>
              db_add (pending_ua (u_id user) (a_id assessment)) ;;;
              commit ;;;
              ret Assigned
          end
      end
  end.

End AssignScript.

(** ** [frontend/student_dashboard.py] *)

Module Dashboard.

(** A merged row: the dictionaries of the first list carry four keys, the
    converted ones six; a key that is not there is [None]. *)
Record Entry := mkEntry {
  assessment_id : Z;
  assessment_name : string;
  status : AssessmentStatus;
  score : option Q;
  start_time : option (option Z);
  end_time : option (option Z)
}.

Definition of_student (sa : UserAssessmentRouter.MyAssessment) : Entry :=
  {| assessment_id := UserAssessmentRouter.assessment_id sa;
     assessment_name := UserAssessmentRouter.assessment_name sa;
     status := UserAssessmentRouter.status sa;
     score := UserAssessmentRouter.score sa;
     start_time := None; end_time := None |}.

Definition converted_assessment (ra : UserService.RecruiterAssessment) : Entry :=
  {| assessment_id := UserService.ra_id ra;
     assessment_name := UserService.ra_name ra;
     status := UserService.ra_status ra;
     score := inject_Z <$> UserService.ra_score ra;
     start_time := Some (UserService.ra_start_time ra);
     end_time := Some (UserService.ra_end_time ra) |}.

(** One pass of the de-duplicating loops: [acc] is [all_assessments],
    [seen] is [seen_assessment_ids]. *)
Fixpoint add_unseen (l : list Entry) (acc : list Entry) (seen : gset Z)
  : list Entry * gset Z :=
  match l with
  | [] => (acc, seen)
  | e :: rest =>
      if bool_decide (assessment_id e ∈ seen) then add_unseen rest acc seen
      else add_unseen rest (acc ++ [e]) ({[assessment_id e]} ∪ seen)
  end.

(** [all_assessments] as [display_student_assessments_view] builds it. *)
Definition all_assessments
    (student_assessments : list UserAssessmentRouter.MyAssessment)
    (recruiter_assessments : list UserService.RecruiterAssessment)
  : list Entry :=
  let '(acc, seen) := add_unseen (map of_student student_assessments) [] ∅ in
  fst (add_unseen (map converted_assessment recruiter_assessments) acc seen).

(** The API helpers answer [[]] unless the status code is 200. *)
Definition api {A} (r : Outcome (list A) * Store) : list A :=
  match fst r with
  | Return l => l
  | Raise _ => []
  end.

Definition student_view (require_student : User -> bool) (not_a_student : Exn)
    (af : bool) (b : option nat) (s : Store) (current_user : User)
  : list Entry :=
  all_assessments
    (api (request af b s
            (UserAssessmentRouter.get_my_assessments
               require_student not_a_student current_user)))
    (api (request af b s
            (RecruiterCode.get_recruiter_assessments_for_student current_user))).

End Dashboard.

(** * Vocabulary of the properties *)

Module Spec.
Import Invite UserService RecruiterCode.

(** ** Sessions *)

(** The store as it is once a list of pending operations is flushed. *)
Definition flush_all (ops : list PendingOp) (t : Store) : Store :=
  foldl (fun t op => apply_op op t) t ops.

(** The fault model lets [n] more statements through. *)
Definition survives (b : option nat) (n : nat) : Prop :=
  match b with
  | None => True
  | Some k => (n <= k)%nat
  end.

Definition spend (n : nat) (b : option nat) : option nat :=
  match b with
  | None => None
  | Some k => Some (k - n)%nat
  end.

#[global] Instance survives_dec b n : Decision (survives b n).
Proof. destruct b; simpl; apply _. Defined.

(** A computation that never commits leaves the durable store alone. *)
Definition read_only {A} (m : M A) : Prop :=
  forall σ, durable (snd (m σ)) = durable σ /\
            autoflush (snd (m σ)) = autoflush σ.

(** A computation that answers [true], or else has left the durable store
    alone. *)
Definition all_or_nothing (m : M bool) : Prop :=
  forall σ, match m σ with
            | (Return true, _) => True
            | (Return false, σ') | (Raise _, σ') => durable σ' = durable σ
            end.

(** A computation that leaves the durable store alone whenever it raises. *)
Definition raises_clean {A} (m : M A) : Prop :=
  forall σ, match m σ with
            | (Return _, _) => True
            | (Raise _, σ') => durable σ' = durable σ
            end.

(** ** The invitation ledger *)

(** What a redemption request amounts to, as a function of the store it
    finds and of how many statements the store lets through. *)
Definition accept_outcome (b : option nat) (s : Store) (token : string)
    (now : Z) (u : User) : Outcome AcceptResponse * Store :=
  match invite_by_token token s with
  | None => (Raise invalid_token, s)
  | Some invite =>
      if it_used invite then (Raise already_used, s)
      else if bool_decide (it_expires_at invite < now) then (Raise expired, s)
      else
        match assessment_by_id (it_assessment_id invite) s with
        | None => (Raise assessment_missing, s)
        | Some a =>
            let rid := a_created_by_user_id a in
            match linkage (u_id u) rid (it_assessment_id invite) s with
            | Some _ =>
                if decide (survives b 2)
                then (Return AlreadyLinked, mark_used (it_id invite) s)
                else (Raise SQLAlchemyError, s)
            | None =>
                if decide (survives b 3)
                then (Return (Accepted (a_name a) rid),
                      mark_used (it_id invite)
                        (insert_ua (invited_ua u rid (it_assessment_id invite)) s))
                else (Raise accept_failed, s)
            end
        end
  end.

(** The token has been consumed. *)
Definition redeemed (token : string) (s : Store) : Prop :=
  exists invite, invite_by_token token s = Some invite /\ it_used invite = true.

(** The linkage the token stands for -- redeemer, assessment of the token,
    owner of that assessment -- is in the store. *)
Definition linked_by (token : string) (u : User) (s : Store) : Prop :=
  exists invite a,
    invite_by_token token s = Some invite /\
    assessment_by_id (it_assessment_id invite) s = Some a /\
    is_Some (linkage (u_id u) (a_created_by_user_id a)
                     (it_assessment_id invite) s).

(** The classification of a token, as the status endpoint computes it. *)
Definition status_of (s : Store) (token : string) (now : Z) : string :=
  match invite_by_token token s with
  | None => "invalid"
  | Some invite =>
      if it_used invite then "used"
      else if bool_decide (it_expires_at invite < now) then "expired"
      else match assessment_by_id (it_assessment_id invite) s with
           | None => "assessment_not_found"
           | Some _ => "valid"
           end
  end.

(** ** The linking engine *)

(** Several INSERTs in a row. *)
Definition insert_all (news : list UserAssessment) (s : Store) : Store :=
  foldl (fun t ua => insert_ua ua t) s news.

(** The rows as the table numbers them. *)
Fixpoint numbered (l : list UserAssessment) (news : list UserAssessment)
  : list UserAssessment :=
  match news with
  | [] => []
  | ua :: rest =>
      let row := set_ua_id (next_ua_id l) ua in
      row :: numbered (l ++ [row]) rest
  end.

(** The pure reading of [validate_recruiter_code]. *)
Definition find_recruiter (code : string) (s : Store) : option User :=
  if bool_decide (code = "") then None
  else find (fun u => bool_decide (u_recruiter_code u = Some code)
                      && string_in (u_role u) ["Admin"; "Recruiter"])
            (users s).

(** The assessment has no linkage of this student with this recruiter. *)
Definition fresh_for (s : Store) (sid rid : Z) (a : Assessment) : bool :=
  bool_decide (linkage sid (Some rid) (a_id a) s = None).

Definition new_links (student : User) (sid rid : Z) (s : Store)
    (l : list Assessment) : list UserAssessment :=
  map (linked_ua student sid rid) (List.filter (fresh_for s sid rid) l).

(** Between two statements of a handler that has only added linkages
    [news]: some of them are flushed, the others are still pending, none is
    durable. *)
Definition mid (s : Store) (news : list UserAssessment) (σ : Session)
  : Prop :=
  durable σ = s /\
  exists k, (k <= length news)%nat /\
            txn σ = insert_all (take k news) s /\
            pending σ = map Insert (drop k news).

(** *** The uniqueness invariant *)

Definition link_key (ua : UserAssessment) : Z * Z * option Z :=
  (ua_user_id ua, ua_assessment_id ua, ua_recruiter_id ua).

(** At most one linkage per (user, assessment, recruiter). *)
Definition unique_links (s : Store) : Prop :=
  NoDup (map link_key (user_assessments s)).

#[global] Instance unique_links_dec s : Decision (unique_links s).
Proof. unfold unique_links. apply _. Defined.

(** The stores that redemption and linking by code can produce, starting
    from a linkage table that is empty. *)
Inductive reachable : Store -> Prop :=
| reach_empty s :
    user_assessments s = [] -> NoDup (map a_id (assessments s)) ->
    reachable s
| reach_accept af b s token now u :
    reachable s ->
    reachable (snd (request af b s (Invite.accept_invite_token token now u)))
| reach_link af b s code u :
    reachable s ->
    reachable
      (snd (request af b s (RecruiterCode.link_student_to_recruiter code u))).

(** ** The assignment resolver *)

Definition has_id (i : Z) (e : Dashboard.Entry) : bool :=
  bool_decide (Dashboard.assessment_id e = i).

Definition ids (l : list Dashboard.Entry) : list Z :=
  map Dashboard.assessment_id l.

End Spec.

Import Spec.

(** ** A small population used by the examples *)

Module Fixture.

Definition alice : User :=
  {| u_id := 1; u_name := "Alice"; u_role := "Student";
     u_email := "alice@x.com"; u_recruiter_code := None |}.
Definition rachel : User :=
  {| u_id := 2; u_name := "Rachel"; u_role := "Recruiter";
     u_email := "rachel@corp.com"; u_recruiter_code := Some "ABC12345" |}.
Definition bob : User :=
  {| u_id := 3; u_name := "Bob"; u_role := "Student";
     u_email := "bob@y.org"; u_recruiter_code := None |}.
Definition carol : User :=
  {| u_id := 4; u_name := "Carol"; u_role := "Recruiter";
     u_email := "carol@corp.com"; u_recruiter_code := Some "ZZZ99999" |}.

Definition quiz7 : Assessment :=
  {| a_id := 7; a_name := "Algorithms"; a_description := "Sorting and graphs";
     a_duration := 30; a_created_by_user_id := Some 2 |}.
Definition quiz8 : Assessment :=
  {| a_id := 8; a_name := "Databases"; a_description := "Transactions";
     a_duration := 45; a_created_by_user_id := Some 2 |}.

Definition invite_alice : InviteToken :=
  {| it_id := 1; it_token := "tok-alice"; it_assessment_id := 7;
     it_student_email := "alice@x.com"; it_used := false;
     it_expires_at := 1000; it_created_at := 0 |}.

Definition store0 : Store :=
  {| users := [alice; rachel; bob; carol];
     assessments := [quiz7; quiz8];
     assessment_questions := [mkAQ 7 1; mkAQ 7 2];
     questions := [mkQuestion 1 "What is a heap?" 5;
                   mkQuestion 2 "What is a DAG?" 10];
     invite_tokens := [invite_alice];
     user_assessments := [] |}.

End Fixture.

(** ** Scenarios *)

Module Scenarios.
Import Fixture Invite.

Definition forbidden : Exn := HTTPException 403 "Not enough permissions".

(** Alice has redeemed her invitation. *)
Definition after_redeem : Store :=
  snd (request true None store0 (accept_invite_token "tok-alice" 500 alice)).

(** Alice has linked to Rachel by code instead; her token is still unused. *)
Definition after_link : Store :=
  snd (request true None store0
         (RecruiterCode.link_student_to_recruiter "ABC12345" alice)).

(** Assessment 7 was assigned to Alice directly by the script. *)
Definition after_assign : Store :=
  snd (request true None store0
         (AssignScript.assign_assessment_to_student "alice@x.com" 7)).

(** ... and then she linked to Rachel by code. *)
Definition two_ways : Store :=
  snd (request true None after_assign
         (RecruiterCode.link_student_to_recruiter "ABC12345" alice)).

(** Alice's token, used, looked at after its expiry. *)
Definition spent : Store :=
  with_invite_tokens store0 [set_used invite_alice].

(** The assessment of Alice's token is gone. *)
Definition orphaned : Store :=
  {| users := users store0; assessments := [quiz8];
     assessment_questions := []; questions := questions store0;
     invite_tokens := invite_tokens store0; user_assessments := [] |}.

End Scenarios.

(** * More of the code *)

(** ** Writes the unit of work of [Model] has no name for *)

Module Writes.

Definition set_txn (t : Store) : M unit :=
  fun σ => (Return tt,
            {| autoflush := autoflush σ; durable := durable σ; txn := t;
               pending := pending σ; budget := budget σ |}).

(** One INSERT or UPDATE sent to the store; [f] is its effect on the
    transaction's view, [None] a constraint it violates (IntegrityError, a
    SQLAlchemyError). *)
Definition statement (f : Store -> option Store) : M unit :=
  execute ;;;
  (fun σ => match f (txn σ) with
            | Some t => set_txn t σ
            | None => (Raise SQLAlchemyError, σ)
            end).

Fixpoint statements (ws : list (Store -> option Store)) : M unit :=
  match ws with
  | [] => ret tt
  | w :: rest => statement w ;;; statements rest
  end.

(** [db.commit()] of a unit of work that, besides what is pending, holds
    the writes [ws], in the order the handler made them: the flush sends
    them one by one, then the COMMIT. *)
Definition commit_writes (ws : list (Store -> option Store)) : M unit :=
  flush ;;; statements ws ;;; execute ;;; make_durable.

End Writes.

(** ** [routers/invite.py]: sending invitations *)

Module InviteSend.
Import Writes.

Definition FRONTEND_URL : string := "http://localhost:8501".

Definition no_recruiter_code : Exn :=
  HTTPException 400 "Recruiter code not found. Please contact support.".
Definition no_such_assessment : Exn :=
  HTTPException 404
    "Assessment not found or you don't have permission to invite students to it.".

(** Modelled from the spec: [schemas/invite.py] is not among the sources;
    the payload carries the recipients and the assessment. *)
Record InviteCreate := mkInviteCreate {
  emails : list string;
  assessment_id : Z
}.

(** A call handed to [background_tasks.add_task(send_invite_email, ...)]. *)
Record Task := mkTask {
  recipient_email : string;
  recruiter : User;
  invitation_link : string
}.

Record SendResult := mkSendResult {
  message : string;
  successful_count : nat;
  failed_count : nat;
  failed_invites : list (string * Exn);
  warning : option string
}.

(** [timedelta(days=7)], timestamps counting microseconds. *)
Definition seven_days : Z := 7 * 86400 * 1000000.

Definition next_invite_id (l : list InviteToken) : Z :=
  1 + foldr (fun t m => Z.max (it_id t) m) 0 l.

Definition set_invite_id (i : Z) (t : InviteToken) : InviteToken :=
  {| it_id := i; it_token := it_token t;
     it_assessment_id := it_assessment_id t;
     it_student_email := it_student_email t; it_used := it_used t;
     it_expires_at := it_expires_at t; it_created_at := it_created_at t |}.

(** INSERT INTO invite_tokens; [token] is declared unique. *)
Definition insert_invite (t : InviteToken) (s : Store) : option Store :=
  if bool_decide (it_token t ∈ map it_token (invite_tokens s)) then None
  else Some (with_invite_tokens s
               (invite_tokens s
                  ++ [set_invite_id (next_invite_id (invite_tokens s)) t])).

Definition owned_assessment (aid uid : Z) (s : Store) : option Assessment :=
  find (fun a => bool_decide (a_id a = aid)
                 && bool_decide (a_created_by_user_id a = Some uid))
       (assessments s).

(** The local variables of the loop. *)
Record Progress := mkProgress {
  successful_invites : nat;
  failed : list (string * Exn);
  tasks : list Task
}.

Definition str (n : nat) : string := NilZero.string_of_uint (Nat.to_uint n).

Section Send.

(** [secrets.token_urlsafe(32)] and the clock are read once per recipient:
    the values of the [i]-th iteration.  [created] is the column default of
    [created_at]. *)
Variable token_urlsafe : nat -> string.
Variable utcnow : nat -> Z.
Variable created : nat -> Z.

Definition link_for (token code : string) : string :=
  FRONTEND_URL ++ "/?invite=" ++ token ++ "&recruiter_code=" ++ code.

Definition fresh_invite (aid : Z) (student_email : string) (i : nat)
  : InviteToken :=
  {| it_id := 0; it_token := token_urlsafe i; it_assessment_id := aid;
     it_student_email := student_email; it_used := false;
     it_expires_at := utcnow i + seven_days; it_created_at := created i |}.

(** The [for student_email in payload.emails] loop, [i] counting the
    iterations. *)
Fixpoint send_loop (aid : Z) (current_recruiter : User) (code : string)
    (l : list string) (i : nat) (p : Progress) : M Progress :=
  match l with
  | [] => ret p
  | student_email :: rest =>
      p' <- try_except
              (commit_writes [insert_invite (fresh_invite aid student_email i)] ;;;
               ret {| successful_invites := S (successful_invites p);
                      failed := failed p;
                      tasks := tasks p ++
                        [{| recipient_email := student_email;
                            recruiter := current_recruiter;
                            invitation_link :=
                              link_for (token_urlsafe i) code |}] |})
              (fun e =>
                 rollback ;;;
                 ret {| successful_invites := successful_invites p;
                        failed := failed p ++ [(student_email, e)];
                        tasks := tasks p |}) ;;
      send_loop aid current_recruiter code rest (S i) p'
  end.

Definition result_of (p : Progress) : SendResult :=
  {| message := "Invitations processed: " ++ str (successful_invites p)
                ++ " successful, " ++ str (length (failed p)) ++ " failed";
     successful_count := successful_invites p;
     failed_count := length (failed p);
     failed_invites := failed p;
     warning :=
       match failed p with
       | [] => None
       | _ => Some "Some invitations failed to send. Check the failed_invites list for details."
       end |}.

(** [send_quiz_invite]; the answer comes with the background tasks it
    scheduled. *)
Definition send_quiz_invite (payload : InviteCreate) (current_recruiter : User)
  : M (SendResult * list Task) :=
  match u_recruiter_code current_recruiter with
  | None => raise no_recruiter_code
  | Some code =>
      if bool_decide (code = "") then raise no_recruiter_code
      else
        assessment <- query (owned_assessment (assessment_id payload)
                                              (u_id current_recruiter)) ;;
        match assessment with
        | None => raise no_such_assessment
        | Some _ =>
            p <- send_loop (assessment_id payload) current_recruiter code
                           (emails payload) 0
                           {| successful_invites := 0; failed := [];
                              tasks := [] |} ;;
            ret (result_of p, tasks p)
        end
  end.

End Send.

End InviteSend.

(** ** [utils/email.py] *)

Module Email.

(** Of the connection configuration the function reads [MAIL_FROM] only;
    [conf] is [None] when the environment lacks a setting. *)
Record ConnectionConfig := mkConf {
  MAIL_FROM : string
}.

Record MessageSchema := mkMessage {
  subject : string;
  recipients : list string;
  body : string;
  subtype : string;
  headers : list (string * string);
  sender : string * string
}.

(** The lines the function can print: the skipped send, the success, and
    the two lines of a failed delivery, the second with [str(e)]. *)
Inductive Printed :=
| Skipping
| SuccessfullySent (recipient : string)
| FailedToSend (recipient : string)
| ErrorLine (e : string).

(** What leaves the function: the AttributeError of an attribute read on
    [None], or an exception of the mail library, known by its message. *)
Inductive Raised :=
| NoneTypeHasNo (attribute : string)
| Library (e : string).

(** [conf.MAIL_FROM] *)
Definition get_MAIL_FROM (conf : option ConnectionConfig) : Raised + string :=
  match conf with
  | None => inl (NoneTypeHasNo "MAIL_FROM")
  | Some c => inr (MAIL_FROM c)
  end.

(** ["?" in invitation_link] *)
Definition has_question_mark (s : string) : bool :=
  existsb (fun c => bool_decide (c = "?"%char)) (list_ascii_of_string s).

Definition recruiter_code_param (recruiter : User) (invitation_link : string)
  : string :=
  match u_recruiter_code recruiter with
  | None => ""
  | Some code =>
      if bool_decide (code = "") then ""
      else
        let separator := if has_question_mark invitation_link then "&" else "?" in
        separator ++ "recruiter_code=" ++ code
  end.

Definition full_invitation_link (recruiter : User) (invitation_link : string)
  : string :=
  invitation_link ++ recruiter_code_param recruiter invitation_link.

Definition nl : string := String (ascii_of_nat 10) "".

Definition html_content (recruiter : User) (link : string) : string :=
  nl ++ "    <html>" ++ nl ++
  "        <body>" ++ nl ++
  "            <h3>Hi there,</h3>" ++ nl ++
  "            <p>" ++ nl ++
  "                " ++ u_name recruiter ++
  " has invited you to take a quiz on our platform." ++ nl ++
  "            </p>" ++ nl ++
  "            <p>" ++ nl ++
  "                Please click the link below to begin:" ++ nl ++
  "                <br>" ++ nl ++
  "                <a href=" ++ String (ascii_of_nat 34) "" ++ link ++
  String (ascii_of_nat 34) "" ++ ">" ++ link ++ "</a>" ++ nl ++
  "            </p>" ++ nl ++
  "            <p>" ++ nl ++
  "                <strong>Note:</strong> This link will automatically link you to "
  ++ u_name recruiter ++ "'s recruiter account " ++ nl ++
  "                and make all their assessments available to you." ++ nl ++
  "            </p>" ++ nl ++
  "            <p>Good luck!</p>" ++ nl ++
  "        </body>" ++ nl ++
  "    </html>" ++ nl ++ "    ".

Section Send.

(** The mail library is outside the sources: [schema_raises] is the
    exception the [MessageSchema] constructor raises on a message, if any;
    [FastMail] makes the mailer of a configuration, and [send_message] is
    the exception [fm.send_message] raises, if any. *)
Variable Mailer : Type.
Variable schema_raises : MessageSchema -> option string.
Variable FastMail : ConnectionConfig -> Mailer.
Variable send_message : Mailer -> MessageSchema -> option string.

(** [send_invite_email]: what it prints, or the exception it raises.  The
    statements in the order of the source: the arguments of the
    [MessageSchema] constructor are evaluated, [conf.MAIL_FROM] last of
    them, the constructor runs, and only then [conf] is tested. *)
Definition send_invite_email (conf : option ConnectionConfig)
    (recipient_email : string) (recruiter : User) (invitation_link : string)
  : Raised + list Printed :=
  let link := full_invitation_link recruiter invitation_link in
  let html := html_content recruiter link in
  match get_MAIL_FROM conf with
  | inl e => inl e
  | inr mail_from =>
      let message :=
        {| subject := "Quiz Invitation from " ++ u_name recruiter;
           recipients := [recipient_email];
           body := html;
           subtype := "html";
           headers := [("Reply-To", u_email recruiter)];
           sender := ((u_name recruiter ++ " (via QuizApp)")%string,
                      mail_from) |}
      in
      match schema_raises message with
      | Some e => inl (Library e)
      | None =>
          match conf with
          | None => inr [Skipping]
          | Some c =>
              let fm := FastMail c in
              match send_message fm message with
              | None => inr [SuccessfullySent recipient_email]
              | Some e => inr [FailedToSend recipient_email; ErrorLine e]
              end
          end
      end
  end.

End Send.

End Email.

(** ** [services/user_service.py]: the code generator and the deletion *)

Module CodeGenerator.

(** [string.ascii_uppercase + string.digits] *)
Definition alphabet : list ascii :=
  list_ascii_of_string "ABCDEFGHIJKLMNOPQRSTUVWXYZ0123456789".

Definition code_taken (code : string) (s : Store) : option User :=
  find (fun u => bool_decide (u_recruiter_code u = Some code)) (users s).

Section Generate.

(** The random source: [randbelow i] is what the [i]-th call of
    [secrets.choice] draws, an index into the alphabet. *)
Variable randbelow : nat -> nat.

Definition choice (i : nat) : ascii :=
  nth (randbelow i mod 36) alphabet "A"%char.

(** The code of the [k]-th turn of the loop: eight draws. *)
Definition candidate (k : nat) : string :=
  string_of_list_ascii (map (fun j => choice (8 * k + j)%nat) (seq 0 8)).

(** [while True]: [fuel] bounds the turns, [None] is a loop still running
    when the fuel is spent. *)
Fixpoint generate_from (k fuel : nat) : M (option string) :=
  match fuel with
  | O => ret None
  | S fuel' =>
      let code := candidate k in
      existing_user <- query (code_taken code) ;;
      match existing_user with
      | None => ret (Some code)
      | Some _ => generate_from (S k) fuel'
      end
  end.

(** [generate_recruiter_code] *)
Definition generate_recruiter_code (fuel : nat) : M (option string) :=
  generate_from 0 fuel.

End Generate.

End CodeGenerator.

(** Python exceptions [Exn] has no name for; a handler that ends in one
    answers it on the left. *)
Module Python.

Inductive Uncaught := TypeError | KeyError.

End Python.

Module UserAdmin.
Import Python Writes.

(** [get_user_by_id] *)
Definition get_user_by_id (user_id : Z) : M (option User) :=
  query (user_by_id user_id).

(** A call [obj.method(args)] of a method that takes one argument besides
    [self]: with any other number of arguments the call raises a TypeError
    and the body does not run. *)
Definition call_method {A B} (method : A -> M B) (args : list A)
  : M (Uncaught + B) :=
  match args with
  | [a] => b <- method a ;; ret (inr b)
  | _ => ret (inl TypeError)
  end.

(** DELETE FROM users WHERE id = :id *)
Definition delete_row (instance : User) (s : Store) : option Store :=
  Some {| users := List.filter
                     (fun u => negb (bool_decide (u_id u = u_id instance)))
                     (users s);
          assessments := assessments s;
          assessment_questions := assessment_questions s;
          questions := questions s; invite_tokens := invite_tokens s;
          user_assessments := user_assessments s |}.

(** [Session.delete(instance)] marks the instance; the DELETE is sent by
    the next flush.  The mark is the write it stands for. *)
Definition db_delete (instance : User) : M (Store -> option Store) :=
  ret (delete_row instance).

(** [delete_user]: the source calls [db.delete()], with no argument. *)
Definition delete_user (user_id : Z) : M (Uncaught + bool) :=
  db_user <- get_user_by_id user_id ;;
  match db_user with
  | None => ret (inr false)
  | Some _ =>
      marked <- call_method db_delete [] ;;
      match marked with
      | inl e => ret (inl e)
      | inr w => commit_writes [w] ;;; ret (inr true)
      end
  end.

End UserAdmin.

(** ** [routers/recruiter_code.py]: validation and the linked recruiter *)

Module RecruiterInfo.
Import RecruiterCode.

Record RecruiterCodeValidation := mkValidation {
  is_valid : bool;
  validated_name : option string;
  validated_id : option Z;
  validation_message : string
}.

(** [validate_recruiter_code] of the router *)
Definition validate_recruiter_code (recruiter_code : string)
  : M RecruiterCodeValidation :=
  recruiter <- UserService.validate_recruiter_code recruiter_code ;;
  match recruiter with
  | None =>
      ret {| is_valid := false; validated_name := None; validated_id := None;
             validation_message :=
               "Invalid recruiter code. Please check and try again." |}
  | Some recruiter =>
      ret {| is_valid := true; validated_name := Some (u_name recruiter);
             validated_id := Some (u_id recruiter);
             validation_message := "Valid recruiter code." |}
  end.

Inductive RecruiterAnswer :=
| NoRecruiterLinked
| RecruiterFound (id : Z) (name email : string).

(** [get_student_recruiter_info]; [recruiter.id] raises when the user the
    linkage points at is gone. *)
Definition get_student_recruiter_info (current_user : User)
  : M RecruiterAnswer :=
  if negb (is_student current_user) then raise students_only_endpoint
  else
    ua <- query (first_recruiter_link (u_id current_user)) ;;
    match ua with
    | None => ret NoRecruiterLinked
    | Some ua =>
        recruiter <- query (fun s =>
                              match ua_recruiter_id ua with
                              | Some rid => user_by_id rid s
                              | None => None
                              end) ;;
        match recruiter with
        | None => raise AttributeError
        | Some recruiter =>
            ret (RecruiterFound (u_id recruiter) (u_name recruiter)
                                (u_email recruiter))
        end
    end.

End RecruiterInfo.

(** ** [routers/user_assessment.py]: the recruiter's figures *)

Module RecruiterStats.
Import UserAssessmentRouter.

Record Summary := mkSummary {
  total_assigned : Z;
  attempted : Z;
  not_attempted : Z;
  completed : Z;
  passed : Z;
  failed : Z
}.

(** [filter(UserAssessment.recruiter_id == current_user.id)] *)
Definition assigned_by (rid : Z) (s : Store) : list UserAssessment :=
  List.filter (fun ua => bool_decide (ua_recruiter_id ua = Some rid))
              (user_assessments s).

Definition is_attempted (ua : UserAssessment) : bool :=
  bool_decide (ua_status ua ∈ [STARTED; COMPLETED]).

Definition is_completed (ua : UserAssessment) : bool :=
  bool_decide (ua_status ua = COMPLETED).

(** [sum(1 for ua in l if p ua)] *)
Definition count_if {A} (p : A -> bool) (l : list A) : Z :=
  foldr (fun x n => if p x then 1 + n else n) 0 l.

Inductive Verdict := Passed | Failed | Skipped.

(** One turn of the pass/fail loop; [Skipped] is [continue].  The
    percentage is the exact rational. *)
Definition verdict (s : Store) (ua : UserAssessment) : Verdict :=
  if negb (is_completed ua) then Skipped
  else
    match ua_score ua with
    | None => Skipped
    | Some score =>
        match assessment_by_id (ua_assessment_id ua) s with
        | None => Skipped
        | Some a =>
            let question_ids := map aq_question_id (questions_of (a_id a) s) in
            match question_ids with
            | [] => Skipped
            | _ =>
                let total_marks := sum_marks question_ids s in
                if bool_decide (total_marks = 0) then Skipped
                else if Qle_bool (inject_Z 50) (percentage score total_marks)
                     then Passed
                     else Failed
            end
        end
    end.

(** The loop, [(passed, failed)] being its two counters. *)
Definition tally (s : Store) (l : list UserAssessment) : Z * Z :=
  foldl (fun '(p, f) ua =>
           match verdict s ua with
           | Passed => (p + 1, f)
           | Failed => (p, f + 1)
           | Skipped => (p, f)
           end) (0, 0) l.

Definition summary_of (rid : Z) (s : Store) : Summary :=
  let user_assessments := assigned_by rid s in
  let total := Z.of_nat (length user_assessments) in
  let att := count_if is_attempted user_assessments in
  let '(p, f) := tally s user_assessments in
  {| total_assigned := total; attempted := att; not_attempted := total - att;
     completed := count_if is_completed user_assessments;
     passed := p; failed := f |}.

Section Endpoints.

(** [auth.jwt.require_recruiter] is not among the sources: the identities
    it lets through are a parameter, and so is the failure it raises. *)
Variable require_recruiter : User -> bool.
Variable not_a_recruiter : Exn.

(** [get_recruiter_summary] *)
Definition get_recruiter_summary (current_user : User) : M Summary :=
  if negb (require_recruiter current_user) then raise not_a_recruiter
  else query (summary_of (u_id current_user)).

(** *** The students of a recruiter *)

Record AssessmentLine := mkLine {
  line_assessment_id : Z;
  line_assessment_name : string;
  line_status : AssessmentStatus;
  line_score : option Z
}.

Record StudentStats := mkStudentStats {
  student_id : Z;
  student_name : string;
  student_email : string;
  assessments_of : list AssessmentLine;
  total_completed : Z;
  total_assigned_to : Z;
  average_score : Q
}.

(** [ua.status == "Completed"]: what the comparison of the enumeration
    member with the string gives depends on the declaration of the
    enumeration, which is not among the sources. *)
Variable equals_Completed : AssessmentStatus -> bool.

(** [student_stats], a dictionary in insertion order. *)
Fixpoint lookup_student (sid : Z) (d : list (Z * StudentStats))
  : option StudentStats :=
  match d with
  | [] => None
  | (k, v) :: rest => if bool_decide (k = sid) then Some v
                      else lookup_student sid rest
  end.

Fixpoint update_student (sid : Z) (f : StudentStats -> StudentStats)
    (d : list (Z * StudentStats)) : list (Z * StudentStats) :=
  match d with
  | [] => []
  | (k, v) :: rest => if bool_decide (k = sid) then (k, f v) :: rest
                      else (k, v) :: update_student sid f rest
  end.

Definition line_of (s : Store) (ua : UserAssessment) : AssessmentLine :=
  {| line_assessment_id := ua_assessment_id ua;
     line_assessment_name :=
       match assessment_by_id (ua_assessment_id ua) s with
       | Some a => a_name a
       | None => "N/A"
       end;
     line_status := ua_status ua;
     line_score := ua_score ua |}.

Definition record_line (s : Store) (ua : UserAssessment) (st : StudentStats)
  : StudentStats :=
  {| student_id := student_id st; student_name := student_name st;
     student_email := student_email st;
     assessments_of := assessments_of st ++ [line_of s ua];
     total_completed :=
       if equals_Completed (ua_status ua) && bool_decide (ua_score ua <> None)
       then total_completed st + 1 else total_completed st;
     total_assigned_to := total_assigned_to st + 1;
     average_score := average_score st |}.

(** One turn of the first loop. *)
Definition visit (s : Store) (d : list (Z * StudentStats)) (ua : UserAssessment)
  : list (Z * StudentStats) :=
  match user_by_id (ua_user_id ua) s with
  | None => d
  | Some user =>
      let sid := u_id user in
      let d' :=
        match lookup_student sid d with
        | Some _ => d
        | None =>
            d ++ [(sid, {| student_id := sid; student_name := u_name user;
                           student_email := u_email user;
                           assessments_of := []; total_completed := 0;
                           total_assigned_to := 0; average_score := 0%Q |})]
        end in
      update_student sid (record_line s ua) d'
  end.

(** [sum(scores) / len(scores) if scores else 0.0], as an exact rational. *)
Definition average (lines : list AssessmentLine) : Q :=
  let scores : list Z := omap line_score lines in
  match scores with
  | [] => 0%Q
  | _ => (inject_Z (foldr Z.add 0%Z scores)
          / inject_Z (Z.of_nat (length scores)))%Q
  end.

Definition with_average (st : StudentStats) : StudentStats :=
  {| student_id := student_id st; student_name := student_name st;
     student_email := student_email st; assessments_of := assessments_of st;
     total_completed := total_completed st;
     total_assigned_to := total_assigned_to st;
     average_score := average (assessments_of st) |}.

Definition students_of (rid : Z) (s : Store) : list StudentStats :=
  map (fun '(_, st) => with_average st)
      (foldl (visit s) [] (assigned_by rid s)).

(** [get_students_for_recruiter] *)
Definition get_students_for_recruiter (current_user : User)
  : M (list StudentStats) :=
  if negb (require_recruiter current_user) then raise not_a_recruiter
  else query (students_of (u_id current_user)).

End Endpoints.

End RecruiterStats.

(** ** [routers/user_assessment.py]: submitting an assessment *)

Module Submission.
Import Python Writes UserAssessmentRouter.

(** Modelled from the spec: [models/choice.py] is not among the sources; a
    choice belongs to a question and may be the correct one. *)
Record Choice := mkChoice {
  c_id : Z;
  c_question_id : Z;
  c_iss_correct : bool
}.

(** Modelled from the spec: [schemas/user_assessment.py] is not among the
    sources; an element of [submission.answers] carries the two fields the
    handler reads. *)
Record Answer := mkAnswer {
  question_id : Z;
  selected_choice_id : option Z
}.

(** Modelled from the spec: [models/user_answer.py] is not among the
    sources; a row of the answers table carries the four columns the
    handler sets.  The table is not part of [Store]: the handler only
    inserts into it. *)
Record UserAnswer := mkUserAnswer {
  ans_user_assessment_id : Z;
  ans_question_id : Z;
  ans_selected_choice_id : option Z;
  ans_is_correct : bool
}.

(** Modelled from the spec: the [AssessmentResult] schema is not among the
    sources; its six fields are those the handler fills in. *)
Record AssessmentResult := mkResult {
  result_user_assessment_id : Z;
  score : Z;
  total_questions : Z;
  total_marks : Z;
  result_percentage : Q;
  completed_at : Z
}.

Definition not_found : Exn := HTTPException 404 "User assessment not found".
Definition already_completed : Exn :=
  HTTPException 400 "Assessment already completed".
Definition time_expired : Exn :=
  HTTPException 400 "Assessment time has expired".

Definition own_assessment (id uid : Z) (s : Store) : option UserAssessment :=
  find (fun ua => bool_decide (ua_id ua = Some id)
                  && bool_decide (ua_user_id ua = uid))
       (user_assessments s).

(** [{q.id: q for q in ...}] over the questions whose id is in
    [question_ids]; a later row replaces an earlier one. *)
Definition questions_map (question_ids : list Z) (s : Store)
  : gmap Z Question :=
  foldl (fun m q => <[q_id q := q]> m) ∅
        (List.filter (fun q => bool_decide (q_id q ∈ question_ids))
                     (questions s)).

(** [{c.question_id: c.id for c in ...}] over the correct choices of these
    questions. *)
Definition correct_choices_map (question_ids : list Z) (choices : list Choice)
  : gmap Z Z :=
  foldl (fun m c => <[c_question_id c := c_id c]> m) ∅
        (List.filter (fun c => bool_decide (c_question_id c ∈ question_ids)
                               && c_iss_correct c)
                     choices).

(** [sum(q.marks for q in questions_map.values())] *)
Definition marks_total (qm : gmap Z Question) : Z :=
  foldr Z.add 0 (map (fun kv => q_marks (snd kv)) (map_to_list qm)).

(** The loop over [submission.answers]: the running score and
    [answers_to_add]; [None] is the KeyError of [questions_map[question_id]]. *)
Fixpoint grade (qm : gmap Z Question) (cm : gmap Z Z) (uaid : Z)
    (answers : list Answer) (total_score : Z) (answers_to_add : list UserAnswer)
  : option (Z * list UserAnswer) :=
  match answers with
  | [] => Some (total_score, answers_to_add)
  | answer_data :: rest =>
      let correct_choice_id := cm !! question_id answer_data in
      let is_correct :=
        match selected_choice_id answer_data with
        | None => false
        | Some c => bool_decide (Some c = correct_choice_id)
        end in
      let row :=
        {| ans_user_assessment_id := uaid;
           ans_question_id := question_id answer_data;
           ans_selected_choice_id := selected_choice_id answer_data;
           ans_is_correct := is_correct |} in
      if is_correct then
        match qm !! question_id answer_data with
        | None => None
        | Some q =>
            grade qm cm uaid rest (total_score + q_marks q)
                  (answers_to_add ++ [row])
        end
      else grade qm cm uaid rest total_score (answers_to_add ++ [row])
  end.

Definition completed_ua (total_score end_time : Z) (ua : UserAssessment)
  : UserAssessment :=
  {| ua_id := ua_id ua; ua_user_id := ua_user_id ua;
     ua_recruiter_id := ua_recruiter_id ua;
     ua_assessment_id := ua_assessment_id ua;
     ua_student_email := ua_student_email ua; ua_status := COMPLETED;
     ua_score := Some total_score; ua_start_time := ua_start_time ua;
     ua_end_time := Some end_time |}.

(** UPDATE user_assessments SET score, end_time, status WHERE id = :id *)
Definition complete (id total_score end_time : Z) (s : Store) : option Store :=
  Some (with_user_assessments s
          (map (fun ua => if bool_decide (ua_id ua = Some id)
                          then completed_ua total_score end_time ua else ua)
               (user_assessments s))).

Section Endpoint.

Variable require_student : User -> bool.
Variable not_a_student : Exn.

(** The choices table, which the handler only reads. *)
Variable choices : list Choice.

(** The answers table and its constraints are not among the sources:
    [violates rows] tells whether the INSERTs of [rows] break one. *)
Variable violates : list UserAnswer -> bool.

(** INSERT INTO the answers table, of which [Store] keeps nothing. *)
Definition insert_answer (rows : list UserAnswer) (a : UserAnswer) (s : Store)
  : option Store :=
  if violates rows then None else Some s.

(** [submit_assessment].  [now] is the clock at the time check, [end_time]
    the clock when the row is completed; timestamps count microseconds, so
    [total_seconds() > duration * 60] compares with [duration] minutes in
    microseconds.  The answer comes with the rows handed to [db.add_all]. *)
Definition submit_assessment (user_assessment_id : Z) (answers : list Answer)
    (now end_time : Z) (current_user : User)
  : M (Uncaught + AssessmentResult * list UserAnswer) :=
  if negb (require_student current_user) then raise not_a_student
  else
    user_assessment <- query (own_assessment user_assessment_id
                                             (u_id current_user)) ;;
    match user_assessment with
    | None => raise not_found
    | Some user_assessment =>
        if bool_decide (ua_status user_assessment = COMPLETED)
        then raise already_completed
        else
          match ua_start_time user_assessment with
          | None => ret (inl TypeError)
          | Some start_time =>
              let time_elapsed := now - start_time in
              assessment <- query (assessment_by_id
                                     (ua_assessment_id user_assessment)) ;;
              match assessment with
              | None => raise AttributeError
              | Some assessment =>
                  if bool_decide (time_elapsed
                                  > a_duration assessment * 60 * 1000000)
                  then raise time_expired
                  else
                    question_ids <- query (fun s =>
                      map aq_question_id (questions_of (a_id assessment) s)) ;;
                    qm <- query (questions_map question_ids) ;;
                    let cm := correct_choices_map question_ids choices in
                    let total := marks_total qm in
                    match grade qm cm user_assessment_id answers 0 [] with
                    | None => ret (inl KeyError)
                    | Some (total_score, answers_to_add) =>
                        commit_writes
                          (map (insert_answer answers_to_add) answers_to_add
                           ++ [complete user_assessment_id total_score
                                        end_time]) ;;;
                        ret (inr
                          ({| result_user_assessment_id := user_assessment_id;
                              score := total_score;
                              total_questions :=
                                Z.of_nat (length question_ids);
                              total_marks := total;
                              result_percentage :=
                                if bool_decide (total > 0)
                                then (inject_Z total_score / inject_Z total
                                      * inject_Z 100)%Q
                                else 0%Q;
                              completed_at := end_time |},
                           answers_to_add))
                    end
              end
          end
    end.

End Endpoint.

End Submission.

(** * Vocabulary of the further properties *)

Module Terms.
Import Writes InviteSend.

(** A session between two units of work: nothing pending, nothing flushed
    that is not durable. *)
Definition clean (σ : Session) : Prop :=
  txn σ = durable σ /\ pending σ = [].

(** The writes of a unit of work, one after the other. *)
Fixpoint apply_writes (ws : list (Store -> option Store)) (t : Store)
  : option Store :=
  match ws with
  | [] => Some t
  | w :: rest =>
      match w t with
      | Some t' => apply_writes rest t'
      | None => None
      end
  end.

(** [current_recruiter.recruiter_code] is truthy. *)
Definition has_code (u : User) : bool :=
  match u_recruiter_code u with
  | Some c => negb (bool_decide (c = ""))
  | None => false
  end.

(** What the loop sets on a row it stores for the assessment [aid]: the row
    is unused and expires seven days after some turn of the loop drew its
    token. *)
Definition issued (token_urlsafe : nat -> string) (utcnow : nat -> Z)
    (aid : Z) (n : nat) (row : InviteToken) : Prop :=
  it_used row = false /\ it_assessment_id row = aid /\
  exists j, (j < n)%nat /\ it_token row = token_urlsafe j /\
            it_expires_at row = utcnow j + seven_days.

Section Sent.

Variable token_urlsafe : nat -> string.
Variable utcnow : nat -> Z.
Variable created : nat -> Z.
Variable aid : Z.
Variable sender : User.
Variable code : string.

Definition task_for (e : string) (i : nat) : Task :=
  {| recipient_email := e; recruiter := sender;
     invitation_link := link_for (token_urlsafe i) code |}.

Definition row_for (tbl : list InviteToken) (e : string) (i : nat)
  : InviteToken :=
  set_invite_id (next_invite_id tbl)
                (fresh_invite token_urlsafe utcnow created aid e i).

(** A run of the loop over the recipients [l], [i] being the number of the
    first turn: the ledger goes from [tbl] to [tbl'], the tasks [ts] are
    scheduled and the failures [fs] recorded.  A recipient is served only
    with a token the ledger does not hold yet; on a store that never fails
    ([healthy]), a recipient fails only on a token the ledger holds. *)
Inductive Sent (healthy : Prop)
  : list InviteToken -> nat -> list string -> list InviteToken ->
    list Task -> list (string * Exn) -> Prop :=
| Sent_nil tbl i : Sent healthy tbl i [] tbl [] []
| Sent_ok tbl i e l tbl' ts fs :
    token_urlsafe i ∉ map it_token tbl ->
    Sent healthy (tbl ++ [row_for tbl e i]) (S i) l tbl' ts fs ->
    Sent healthy tbl i (e :: l) tbl' (task_for e i :: ts) fs
| Sent_fail tbl i e l tbl' ts fs x :
    (healthy -> token_urlsafe i ∈ map it_token tbl) ->
    Sent healthy tbl (S i) l tbl' ts fs ->
    Sent healthy tbl i (e :: l) tbl' ts ((e, x) :: fs).

End Sent.

(** ** Submissions *)

Section Submit.
Import Python Submission.

Variable require_student : User -> bool.
Variable not_a_student : Exn.
Variable choices : list Choice.
Variable violates : list UserAnswer -> bool.

(** The store once the row [id] is completed. *)
Definition completed_store (id total_score end_time : Z) (s : Store) : Store :=
  with_user_assessments s
    (map (fun ua => if bool_decide (ua_id ua = Some id)
                    then completed_ua total_score end_time ua else ua)
         (user_assessments s)).

(** What a submission amounts to, as a function of the store it finds and
    of how many statements the store lets through. *)
Definition submit_outcome (b : option nat) (s : Store) (id : Z)
    (answers : list Answer) (now end_time : Z) (u : User)
  : Outcome (Uncaught + AssessmentResult * list UserAnswer) * Store :=
  if negb (require_student u) then (Raise not_a_student, s)
  else
    match own_assessment id (u_id u) s with
    | None => (Raise not_found, s)
    | Some ua =>
        if bool_decide (ua_status ua = COMPLETED)
        then (Raise already_completed, s)
        else
          match ua_start_time ua with
          | None => (Return (inl TypeError), s)
          | Some start_time =>
              match assessment_by_id (ua_assessment_id ua) s with
              | None => (Raise AttributeError, s)
              | Some a =>
                  if bool_decide (now - start_time
                                  > a_duration a * 60 * 1000000)
                  then (Raise time_expired, s)
                  else
                    let question_ids :=
                      map aq_question_id (questions_of (a_id a) s) in
                    let qm := questions_map question_ids s in
                    let cm := correct_choices_map question_ids choices in
                    let total := marks_total qm in
                    match grade qm cm id answers 0 [] with
                    | None => (Return (inl KeyError), s)
                    | Some (total_score, rows) =>
                        if match rows with [] => false | _ => violates rows end
                           || negb (bool_decide
                                      (survives b (S (S (length rows)))))
                        then (Raise SQLAlchemyError, s)
                        else
                          (Return (inr
                             ({| result_user_assessment_id := id;
                                 score := total_score;
                                 total_questions :=
                                   Z.of_nat (length question_ids);
                                 total_marks := total;
                                 result_percentage :=
                                   if bool_decide (total > 0)
                                   then (inject_Z total_score / inject_Z total
                                         * inject_Z 100)%Q
                                   else 0%Q;
                                 completed_at := end_time |}, rows)),
                           completed_store id total_score end_time s)
                    end
              end
          end
    end.

(** The marks the answers can earn at most: those of the questions they
    name. *)
Definition gain (qm : gmap Z Question) (answers : list Answer) : Z :=
  foldr Z.add 0
        (map (fun a => default 0 (q_marks <$> qm !! question_id a)) answers).

(** Every association row points at a question of the table. *)
Definition questions_exist (s : Store) : Prop :=
  Forall (fun aq => is_Some (question_by_id (aq_question_id aq) s))
         (assessment_questions s).

End Submit.

(** ** The life of a linkage *)

(** A linkage that carries a recruiter is as redemption and linking by code
    make it: invited, never started, without a score. *)
Definition untouched (ua : UserAssessment) : Prop :=
  ua_recruiter_id ua <> None ->
  ua_status ua = INVITED /\ ua_start_time ua = None /\ ua_score ua = None.

(** Assessments and linkages have keys of their own, and the linkages of
    recruiters are untouched. *)
Definition orderly (s : Store) : Prop :=
  NoDup (map a_id (assessments s)) /\
  NoDup (map ua_id (user_assessments s)) /\
  Forall untouched (user_assessments s).

(** The attempts in progress, by student and assessment. *)
Definition active_attempts (s : Store) : list (Z * Z) :=
  map (fun ua => (ua_user_id ua, ua_assessment_id ua))
      (List.filter (fun ua => bool_decide (ua_status ua = STARTED))
                   (user_assessments s)).

Section Served.

Variable require_student : User -> bool.
Variable not_a_student : Exn.

(** The stores the handlers can produce, one request after the other,
    starting from a linkage table that is empty: invitations are sent and
    redeemed, students link by code, are assigned assessments by the
    script, start assessments and submit them. *)
Inductive served : Store -> Prop :=
| served_fresh s :
    user_assessments s = [] -> NoDup (map a_id (assessments s)) -> served s
| served_send token_urlsafe utcnow created af b s payload r :
    served s ->
    served (snd (request af b s
                   (InviteSend.send_quiz_invite token_urlsafe utcnow created
                                                payload r)))
| served_accept af b s token now u :
    served s ->
    served (snd (request af b s (Invite.accept_invite_token token now u)))
| served_link af b s code u :
    served s ->
    served (snd (request af b s
                   (RecruiterCode.link_student_to_recruiter code u)))
| served_assign af b s email aid :
    served s ->
    served (snd (request af b s
                   (AssignScript.assign_assessment_to_student email aid)))
| served_start af b s aid now u :
    served s ->
    served (snd (request af b s
                   (UserAssessmentRouter.start_assessment
                      require_student not_a_student aid now u)))
| served_submit choices violates af b s id answers now end_time u :
    served s ->
    served (snd (request af b s
                   (Submission.submit_assessment
                      require_student not_a_student choices violates
                      id answers now end_time u))).

End Served.

End Terms.

(** ** Further scenarios *)

Module Cases.
Import Fixture Scenarios InviteSend Submission.

(** The token and the clock of the [i]-th turn of the sending loop. *)
Definition token_of (i : nat) : string := "tok-" ++ str i.
Definition clock (i : nat) : Z := 5000 + Z.of_nat i.
Definition stamp (i : nat) : Z := 5000 + Z.of_nat i.

Definition to_dan_and_eve : InviteCreate :=
  {| emails := ["dan@x.com"; "eve@x.com"]; assessment_id := 7 |}.

(** Rachel has sent invitations for her assessment 7 to Dan and Eve. *)
Definition after_send : Store :=
  snd (request true None store0
         (send_quiz_invite token_of clock stamp to_dan_and_eve rachel)).

Definition dan_invite : InviteToken :=
  {| it_id := 2; it_token := "tok-0"; it_assessment_id := 7;
     it_student_email := "dan@x.com"; it_used := false;
     it_expires_at := 604800005000; it_created_at := 5000 |}.

(** The draws of the code generator: the [i]-th is [7 * i]. *)
Definition draws (i : nat) : nat := (7 * i)%nat.

(** A store where the first candidate of [draws] is Carol's code. *)
Definition first_code_taken : Store :=
  {| users := [alice; rachel; bob;
               {| u_id := 4; u_name := "Carol"; u_role := "Recruiter";
                  u_email := "carol@corp.com";
                  u_recruiter_code := Some "AHOV29GN" |}];
     assessments := assessments store0;
     assessment_questions := assessment_questions store0;
     questions := questions store0;
     invite_tokens := invite_tokens store0;
     user_assessments := [] |}.

(** Alice, linked to Rachel, links to a second recruiter, Dora, who owns
    assessment 9. *)
Definition dora : User :=
  {| u_id := 5; u_name := "Dora"; u_role := "Recruiter";
     u_email := "dora@corp.com"; u_recruiter_code := Some "DORA0001" |}.

Definition with_dora : Store :=
  {| users := users after_link ++ [dora];
     assessments := assessments after_link
       ++ [{| a_id := 9; a_name := "Networks"; a_description := "Routing";
              a_duration := 20; a_created_by_user_id := Some 5 |}];
     assessment_questions := assessment_questions after_link;
     questions := questions after_link;
     invite_tokens := invite_tokens after_link;
     user_assessments := user_assessments after_link |}.

(** The choices of the two questions of assessment 7. *)
Definition choices7 : list Choice :=
  [mkChoice 10 1 true; mkChoice 11 1 false; mkChoice 20 2 true;
   mkChoice 21 2 false].

Definition no_constraint (rows : list UserAnswer) : bool := false.

(** Alice's answers: the first right, the second wrong. *)
Definition answers7 : list Answer :=
  [mkAnswer 1 (Some 10); mkAnswer 2 (Some 21)].

(** Alice has started assessment 7 at time 1000 ... *)
Definition after_start : Store :=
  snd (request true None store0
         (UserAssessmentRouter.start_assessment RecruiterCode.is_student
            forbidden 7 1000 alice)).

(** ... and submitted her answers a second later. *)
Definition after_submit : Store :=
  snd (request true None after_start
         (submit_assessment RecruiterCode.is_student forbidden choices7
            no_constraint 1 answers7 1000000 1000001 alice)).

(** Alice has redeemed her invitation, then started the assessment and
    submitted it. *)
Definition redeemed_and_taken : Store :=
  snd (request true None
         (snd (request true None after_redeem
                 (UserAssessmentRouter.start_assessment
                    RecruiterCode.is_student forbidden 7 1000 alice)))
         (submit_assessment RecruiterCode.is_student forbidden choices7
            no_constraint 2 answers7 1000000 1000001 alice)).

Definition is_recruiter (u : User) : bool :=
  string_in (lower (u_role u)) ["recruiter"; "admin"].

(** What the healthy run of [after_send] answers and schedules. *)
Definition both_sent : SendResult :=
  {| message := "Invitations processed: 2 successful, 0 failed";
     successful_count := 2; failed_count := 0; failed_invites := [];
     warning := None |}.
Definition dan_task : Task :=
  {| recipient_email := "dan@x.com"; recruiter := rachel;
     invitation_link :=
       "http://localhost:8501/?invite=tok-0&recruiter_code=ABC12345" |}.
Definition eve_task : Task :=
  {| recipient_email := "eve@x.com"; recruiter := rachel;
     invitation_link :=
       "http://localhost:8501/?invite=tok-1&recruiter_code=ABC12345" |}.

(** What Alice is answered when she links to Rachel. *)
Definition alice_linked : RecruiterCode.RecruiterCodeResponse :=
  {| RecruiterCode.recruiter_name := "Rachel";
     RecruiterCode.recruiter_id := 2;
     RecruiterCode.linked_assessments :=
       [UserService.mkRA 7 "Algorithms" "Sorting and graphs" 30
                         INVITED None None None;
        UserService.mkRA 8 "Databases" "Transactions" 45
                         INVITED None None None] |}.

(** What Alice's submission is answered, and the answer rows it makes. *)
Definition alice_result : AssessmentResult :=
  {| result_user_assessment_id := 1; score := 5; total_questions := 2;
     total_marks := 15; result_percentage := (500 # 15)%Q;
     completed_at := 1000001 |}.
Definition alice_rows : list UserAnswer :=
  [mkUserAnswer 1 1 (Some 10) true; mkUserAnswer 1 2 (Some 21) false].


(** The preview of Alice's invitation. *)
Definition alice_preview : Invite.InviteTokenResponse :=
  {| Invite.title := "Algorithms";
     Invite.preview_questions := [(1, "What is a heap?"); (2, "What is a DAG?")];
     Invite.duration := 30; Invite.assessment_id := 7 |}.

End Cases.

(** * Properties *)

(** ** Sessions: what a unit of work can do to the durable store *)

Module SessionFacts.

Lemma flush_all_app ops1 ops2 t :
  flush_all (ops1 ++ ops2) t = flush_all ops2 (flush_all ops1 t).
Proof. apply foldl_app. Qed.

Lemma flush_ops_spec ops : forall σ,
  match flush_ops ops σ with
  | (Return _, σ') =>
      survives (budget σ) (length ops) /\
      σ' = {| autoflush := autoflush σ; durable := durable σ;
              txn := flush_all ops (txn σ);
              pending := match ops with [] => pending σ | _ => [] end;
              budget := spend (length ops) (budget σ) |}
  | (Raise e, σ') =>
      ~ survives (budget σ) (length ops) /\ e = SQLAlchemyError /\
      autoflush σ' = autoflush σ /\ durable σ' = durable σ
  end.
Proof.
  induction ops as [|op rest IH]; intros σ.
  - simpl. destruct σ as [af d t p [k|]]; simpl; split; try lia; try done.
    by rewrite Nat.sub_0_r.
  - simpl. unfold bind at 1. unfold execute.
    destruct σ as [af d t p [[|k]|]]; simpl.
    + split; [lia | done].
    + unfold bind at 1. simpl.
      match goal with |- context [flush_ops rest ?σ0] =>
        specialize (IH σ0); destruct (flush_ops rest σ0) as [[[]|e] σ'] end;
        simpl in *.
      * destruct IH as [Hs ->]. split; [lia | by destruct rest].
      * destruct IH as (Hs & -> & Ha & Hd). repeat split; try done. lia.
    + unfold bind at 1. simpl.
      match goal with |- context [flush_ops rest ?σ0] =>
        specialize (IH σ0); destruct (flush_ops rest σ0) as [[[]|e] σ'] end;
        simpl in *.
      * destruct IH as [Hs ->]. split; [done | by destruct rest].
      * destruct IH as (Hs & _). done.
Qed.

(** A flush either goes through or raises; in both cases the durable store
    is the one the session started from. *)
Lemma flush_spec σ :
  match flush σ with
  | (Return _, σ') =>
      survives (budget σ) (length (pending σ)) /\
      σ' = {| autoflush := autoflush σ; durable := durable σ;
              txn := flush_all (pending σ) (txn σ); pending := [];
              budget := spend (length (pending σ)) (budget σ) |}
  | (Raise e, σ') =>
      ~ survives (budget σ) (length (pending σ)) /\ e = SQLAlchemyError /\
      autoflush σ' = autoflush σ /\ durable σ' = durable σ
  end.
Proof.
  unfold flush. pose proof (flush_ops_spec (pending σ) σ) as H.
  destruct (flush_ops (pending σ) σ) as [[[]|e] σ']; [|done].
  destruct H as [Hs ->]. split; [done|]. by destruct (pending σ).
Qed.

(** [db.commit()]: all of the unit of work becomes durable, or none of it. *)
Lemma commit_spec σ :
  match commit σ with
  | (Return _, σ') =>
      survives (budget σ) (S (length (pending σ))) /\
      σ' = {| autoflush := autoflush σ;
              durable := flush_all (pending σ) (txn σ);
              txn := flush_all (pending σ) (txn σ); pending := [];
              budget := spend (S (length (pending σ))) (budget σ) |}
  | (Raise e, σ') =>
      ~ survives (budget σ) (S (length (pending σ))) /\
      e = SQLAlchemyError /\
      autoflush σ' = autoflush σ /\ durable σ' = durable σ
  end.
Proof.
  unfold commit, bind. pose proof (flush_spec σ) as H.
  destruct (flush σ) as [[[]|e] σ1].
  - destruct H as [Hs ->]. unfold execute; simpl.
    destruct (budget σ) as [k|] eqn:Hb; simpl in *.
    + destruct (k - length (pending σ))%nat as [|k'] eqn:Hk; simpl.
      * repeat split; try done. lia.
      * split; [lia|]. do 2 f_equal. lia.
    + done.
  - destruct H as (Hs & -> & Ha & Hd). repeat split; try done.
    intros Hs'. apply Hs. destruct (budget σ); simpl in *; [lia | done].
Qed.

Lemma read_only_ret {A} (a : A) : read_only (ret a).
Proof. by intros σ. Qed.

Lemma read_only_raise {A} (e : Exn) : read_only (@raise A e).
Proof. by intros σ. Qed.

Lemma read_only_bind {A B} (m : M A) (k : A -> M B) :
  read_only m -> (forall a, read_only (k a)) -> read_only (bind m k).
Proof.
  intros Hm Hk σ. unfold bind. specialize (Hm σ).
  destruct (m σ) as [[a|e] σ1]; simpl in *; [|done].
  destruct (Hk a σ1) as [-> ->]. done.
Qed.

Lemma read_only_try {A} (m : M A) (h : Exn -> M A) :
  read_only m -> (forall e, read_only (h e)) -> read_only (try_except m h).
Proof.
  intros Hm Hh σ. unfold try_except. specialize (Hm σ).
  destruct (m σ) as [[a|e] σ1]; simpl in *; [done|].
  destruct (Hh e σ1) as [-> ->]. done.
Qed.

Lemma read_only_flush : read_only flush.
Proof.
  intros σ. pose proof (flush_spec σ) as H.
  destruct (flush σ) as [[[]|e] σ1]; simpl.
  - by destruct H as [_ ->].
  - by destruct H as (_ & _ & -> & ->).
Qed.

Lemma read_only_query {A} (q : Store -> A) : read_only (query q).
Proof.
  intros σ. unfold query.
  destruct (autoflush σ) eqn:Haf.
  - unfold bind. pose proof (read_only_flush σ) as H.
    destruct (flush σ) as [[[]|e] σ1]; simpl in *; destruct H; split;
      congruence.
  - done.
Qed.

Lemma read_only_db_add ua : read_only (db_add ua).
Proof. by intros σ. Qed.

Lemma read_only_assign_used i : read_only (assign_used i).
Proof. by intros σ. Qed.

Lemma read_only_rollback : read_only rollback.
Proof. by intros σ. Qed.

Create HintDb session discriminated.
#[global] Hint Resolve read_only_ret read_only_raise read_only_flush
  read_only_query read_only_db_add read_only_assign_used read_only_rollback
  : session.

Ltac read_only :=
  repeat first
    [ apply read_only_query
    | solve [auto with session]
    | apply read_only_bind; [|intros ?]
    | apply read_only_try; [|intros ?]
    | match goal with
      | |- read_only (match ?x with _ => _ end) => destruct x
      | |- read_only (if ?x then _ else _) => destruct x
      end ].

(** A request made of reads alone answers with the store it was given. *)
Lemma request_read_only {A} (m : M A) af b s :
  read_only m -> snd (request af b s m) = s.
Proof.
  intros H. unfold request. specialize (H (open_session af b s)).
  destruct (m (open_session af b s)) as [r σ]; simpl in *. by destruct H.
Qed.

(** On a session with nothing pending a query is a plain read. *)
Lemma query_clean {A} (q : Store -> A) σ :
  pending σ = [] -> query q σ = (Return (q (txn σ)), σ).
Proof.
  intros Hp. unfold query. destruct (autoflush σ); [|done].
  unfold bind, flush. rewrite Hp. done.
Qed.

Lemma bind_query_clean {A B} (q : Store -> A) (k : A -> M B) σ :
  pending σ = [] -> bind (query q) k σ = k (q (txn σ)) σ.
Proof. intros Hp. unfold bind. by rewrite query_clean. Qed.

End SessionFacts.

Import SessionFacts.

(** ** The invitation ledger *)

Module Ledger.
Import Invite.

Lemma accept_request af b s token now u :
  request af b s (accept_invite_token token now u)
  = accept_outcome b s token now u.
Proof.
  unfold request, accept_invite_token, accept_outcome.
  rewrite bind_query_clean by done. simpl.
  destruct (invite_by_token token s) as [invite|]; [|done].
  destruct (it_used invite); [done|].
  case_bool_decide; [done|].
  rewrite bind_query_clean by done. simpl.
  destruct (assessment_by_id (it_assessment_id invite) s) as [a|]; [|done].
  rewrite bind_query_clean by done. simpl.
  destruct (linkage _ _ _ s) as [ua|].
  - unfold bind at 1. simpl. unfold bind at 1.
    match goal with |- context [commit ?σ0] =>
      pose proof (commit_spec σ0) as Hc; destruct (commit σ0) as [[[]|e] σ1] end;
      simpl in *.
    + destruct Hc as [Hs ->]. simpl. by rewrite decide_True.
    + destruct Hc as (Hs & -> & Ha & Hd). by rewrite decide_False, Hd.
  - unfold try_except. unfold bind at 1. simpl. unfold bind at 1. simpl.
    unfold bind at 1.
    match goal with |- context [commit ?σ0] =>
      pose proof (commit_spec σ0) as Hc; destruct (commit σ0) as [[[]|e] σ1] end;
      simpl in *.
    + destruct Hc as [Hs ->]. simpl. by rewrite decide_True.
    + destruct Hc as (Hs & -> & Ha & Hd). by rewrite decide_False, Hd.
Qed.

Lemma find_map_stable {A} (p : A -> bool) (f : A -> A) (l : list A) :
  (forall x, p (f x) = p x) -> find p (map f l) = f <$> find p l.
Proof.
  intros Hp. induction l as [|x l IH]; simpl; [done|].
  rewrite Hp. by destruct (p x).
Qed.

Lemma find_snoc_hit {A} (p : A -> bool) (l : list A) (x : A) :
  p x = true -> is_Some (find p (l ++ [x])).
Proof.
  intros Hx. induction l as [|y l IH]; simpl.
  - rewrite Hx. by eexists.
  - destruct (p y); [by eexists | done].
Qed.

Lemma invite_by_token_mark_used token s invite :
  invite_by_token token s = Some invite ->
  invite_by_token token (mark_used (it_id invite) s) = Some (set_used invite).
Proof.
  unfold invite_by_token, mark_used. simpl. intros H.
  rewrite find_map_stable.
  - rewrite H. simpl. by rewrite bool_decide_eq_true_2.
  - intros x. by destruct (bool_decide (it_id x = it_id invite)).
Qed.

Lemma redeemed_mark_used token s invite :
  invite_by_token token s = Some invite ->
  redeemed token (mark_used (it_id invite) s).
Proof.
  intros H. exists (set_used invite). split; [|done].
  by apply invite_by_token_mark_used.
Qed.

Lemma linkage_insert_hit u rid aid s :
  is_Some (linkage (u_id u) rid aid (insert_ua (invited_ua u rid aid) s)).
Proof.
  unfold linkage, insert_ua, insert_row. simpl. apply find_snoc_hit.
  unfold same_link. simpl. by rewrite !bool_decide_eq_true_2.
Qed.

(** Every way a redemption request can end. *)
Lemma accept_ends af b s token now u :
  let r := request af b s (accept_invite_token token now u) in
  (exists e, r = (Raise e, s)) \/
  exists invite a,
    invite_by_token token s = Some invite /\ it_used invite = false /\
    ~ it_expires_at invite < now /\
    assessment_by_id (it_assessment_id invite) s = Some a /\
    let rid := a_created_by_user_id a in
    let aid := it_assessment_id invite in
    ((is_Some (linkage (u_id u) rid aid s) /\ survives b 2 /\
      r = (Return AlreadyLinked, mark_used (it_id invite) s))
     \/
     (linkage (u_id u) rid aid s = None /\ survives b 3 /\
      r = (Return (Accepted (a_name a) rid),
           mark_used (it_id invite) (insert_ua (invited_ua u rid aid) s)))).
Proof.
  simpl. rewrite accept_request. unfold accept_outcome.
  destruct (invite_by_token token s) as [invite|] eqn:Hi; [|left; by eexists].
  destruct (it_used invite) eqn:Hu; [left; by eexists|].
  case_bool_decide as He; [left; by eexists|].
  destruct (assessment_by_id _ s) as [a|] eqn:Ha; [|left; by eexists].
  destruct (linkage _ _ _ s) as [ua|] eqn:Hl.
  - case_decide; [|left; by eexists].
    right. exists invite, a. repeat split; try done. left. by repeat split.
  - case_decide; [|left; by eexists].
    right. exists invite, a. repeat split; try done. right. by repeat split.
Qed.

(** Both outcomes of a successful redemption leave the token consumed and
    its linkage in place. *)
Lemma marked_and_linked token u s invite a s1 :
  invite_by_token token s = Some invite -> it_used invite = false ->
  assessment_by_id (it_assessment_id invite) s = Some a ->
  (s1 = mark_used (it_id invite) s /\
   is_Some (linkage (u_id u) (a_created_by_user_id a)
                    (it_assessment_id invite) s) \/
   s1 = mark_used (it_id invite)
          (insert_ua (invited_ua u (a_created_by_user_id a)
                                 (it_assessment_id invite)) s)) ->
  ~ redeemed token s /\ redeemed token s1 /\ linked_by token u s1.
Proof.
  intros Hi Hu Ha Hs1. split.
  { intros (i' & Hi' & Hu'). congruence. }
  destruct Hs1 as [[-> Hl] | ->].
  - split; [by apply redeemed_mark_used|].
    exists (set_used invite), a. split; [by apply invite_by_token_mark_used|].
    done.
  - split.
    + apply (redeemed_mark_used token (insert_ua _ s)). done.
    + exists (set_used invite), a. split.
      * apply (invite_by_token_mark_used token (insert_ua _ s)). done.
      * split; [done|]. apply linkage_insert_hit.
Qed.

(** C1 -- Redemption is atomic.  Whatever the store, the token, the redeemer
    and the point at which the persistence layer fails, a redemption request
    that raises leaves the store exactly as it was, and one that answers
    leaves the token used and the linkage it stands for present, the two
    written by one commit: the store after is the store before with the
    token marked, plus the new linkage when there was none.  So the store
    never changes without ending up with both the used flag and the
    linkage. *)
Theorem redeem_atomic af b s token now u :
  let r := fst (request af b s (accept_invite_token token now u)) in
  let s' := snd (request af b s (accept_invite_token token now u)) in
  (forall e, r = Raise e -> s' = s) /\
  (forall ok, r = Return ok ->
     ~ redeemed token s /\ redeemed token s' /\ linked_by token u s' /\
     exists invite a,
       invite_by_token token s = Some invite /\
       assessment_by_id (it_assessment_id invite) s = Some a /\
       (s' = mark_used (it_id invite) s \/
        s' = mark_used (it_id invite)
               (insert_ua (invited_ua u (a_created_by_user_id a)
                                      (it_assessment_id invite)) s))) /\
  (s' = s \/ (redeemed token s' /\ linked_by token u s')).
Proof.
  simpl. pose proof (accept_ends af b s token now u) as H. simpl in H.
  destruct H as [[e ->] | (invite & a & Hi & Hu & He & Ha & [(Hl & Hb & ->) | (Hl & Hb & ->)])];
    simpl.
  - split; [done|]. split; [done|]. by left.
  - split; [done|]. split.
    + intros ok _. destruct (marked_and_linked token u s invite a _ Hi Hu Ha
                  (or_introl (conj eq_refl Hl)))
        as (? & ? & ?). repeat split; try done. exists invite, a. eauto.
    + right. by destruct (marked_and_linked token u s invite a _ Hi Hu Ha
                  (or_introl (conj eq_refl Hl)))
        as (? & ? & ?).
  - split; [done|]. split.
    + intros ok _. destruct (marked_and_linked token u s invite a _ Hi Hu Ha
                  (or_intror eq_refl))
        as (? & ? & ?). repeat split; try done. exists invite, a. eauto.
    + right. by destruct (marked_and_linked token u s invite a _ Hi Hu Ha
                  (or_intror eq_refl))
        as (? & ? & ?).
Qed.

(** A token that is already used is turned away with the 400 answer,
    whatever its expiry, the redeemer and the state of the persistence
    layer; nothing is written. *)
Lemma used_token_rejected af b s token now u invite :
  invite_by_token token s = Some invite -> it_used invite = true ->
  request af b s (accept_invite_token token now u) = (Raise already_used, s).
Proof.
  intros Hi Hu. rewrite accept_request. unfold accept_outcome.
  by rewrite Hi, Hu.
Qed.

(** C3 -- A redeemable token whose linkage (redeemer, assessment, owner of
    the assessment) is already there: as long as the store lets the UPDATE
    and the COMMIT through, the request answers "already linked", the token
    is marked used and the linkage table is what it was.  Redeeming the
    token again afterwards, by anyone and at any time, is answered with the
    400 "already used" failure and writes nothing. *)
Theorem redeem_when_already_linked af b s token now u invite a ua :
  invite_by_token token s = Some invite ->
  it_used invite = false ->
  ~ it_expires_at invite < now ->
  assessment_by_id (it_assessment_id invite) s = Some a ->
  linkage (u_id u) (a_created_by_user_id a) (it_assessment_id invite) s
    = Some ua ->
  survives b 2 ->
  let s' := mark_used (it_id invite) s in
  request af b s (accept_invite_token token now u) = (Return AlreadyLinked, s')
  /\ accept_message AlreadyLinked = "You are already linked to this assessment."
  /\ invite_by_token token s' = Some (set_used invite)
  /\ user_assessments s' = user_assessments s
  /\ forall af' b' now' u',
       request af' b' s' (accept_invite_token token now' u')
       = (Raise (HTTPException 400 "This invitation has already been used."),
          s').
Proof.
  intros Hi Hu He Ha Hl Hb. simpl. split; [|split; [done|split; [|split]]].
  - rewrite accept_request. unfold accept_outcome.
    rewrite Hi, Hu, bool_decide_eq_false_2, Ha, Hl by done.
    by rewrite decide_True.
  - by apply invite_by_token_mark_used.
  - done.
  - intros af' b' now' u'.
    apply (used_token_rejected af' b' _ token now' u' (set_used invite));
      [by apply invite_by_token_mark_used | done].
Qed.

(** C9 -- Redemption is not bound to the recipient.  For a redeemable token
    whose assessment exists, and a store that lets the three statements
    through, the request succeeds for any identity [u]: nothing is asked of
    [u_email u] or [u_role u], and [it_student_email] is never read.  Two
    identities with the same id get the same answer whatever their e-mail
    and role. *)
Theorem redeem_not_bound_to_recipient af b s token now u invite a :
  invite_by_token token s = Some invite ->
  it_used invite = false ->
  ~ it_expires_at invite < now ->
  assessment_by_id (it_assessment_id invite) s = Some a ->
  survives b 3 ->
  let r := request af b s (accept_invite_token token now u) in
  (exists ok, fst r = Return ok) /\
  redeemed token (snd r) /\ linked_by token u (snd r) /\
  forall email role,
    fst (request af b s
           (accept_invite_token token now
              {| u_id := u_id u; u_name := u_name u; u_role := role;
                 u_email := email; u_recruiter_code := u_recruiter_code u |}))
    = fst r.
Proof.
  intros Hi Hu He Ha Hb. simpl.
  assert (survives b 2) as Hb2.
  { destruct b; simpl in *; [lia|done]. }
  split; [|split; [|split]].
  - rewrite accept_request. unfold accept_outcome.
    rewrite Hi, Hu, bool_decide_eq_false_2, Ha by done.
    destruct (linkage _ _ _ s); rewrite decide_True by done; by eexists.
  - rewrite accept_request. unfold accept_outcome.
    rewrite Hi, Hu, bool_decide_eq_false_2, Ha by done.
    destruct (linkage _ _ _ s) as [ua|] eqn:Hl; rewrite decide_True by done;
      simpl.
    + eapply (marked_and_linked token u s invite a); [done..|].
      left. split; [done|]. rewrite Hl. by eexists.
    + eapply (marked_and_linked token u s invite a); [done..|]. by right.
  - rewrite accept_request. unfold accept_outcome.
    rewrite Hi, Hu, bool_decide_eq_false_2, Ha by done.
    destruct (linkage _ _ _ s) as [ua|] eqn:Hl; rewrite decide_True by done;
      simpl.
    + eapply (marked_and_linked token u s invite a); [done..|].
      left. split; [done|]. rewrite Hl. by eexists.
    + eapply (marked_and_linked token u s invite a); [done..|]. by right.
  - intros email role. rewrite !accept_request. unfold accept_outcome.
    rewrite Hi, Hu, bool_decide_eq_false_2, Ha by done. simpl.
    destruct (linkage _ _ _ s); rewrite ?decide_True by done; done.
Qed.

(** What a validation request amounts to. *)
Lemma validate_request af b s token now :
  request af b s (validate_invite_token token now)
  = match invite_by_token token s with
    | None => (Raise invalid_token, s)
    | Some invite =>
        if it_used invite then (Raise already_used, s)
        else if bool_decide (it_expires_at invite < now)
             then (Raise expired, s)
             else
               match assessment_by_id (it_assessment_id invite) s with
               | None => (Raise assessment_missing, s)
               | Some a =>
                   match collect_questions (questions_of (a_id a) s) s with
                   | None => (Raise AttributeError, s)
                   | Some qs =>
                       (Return {| title := a_name a; preview_questions := qs;
                                  duration := a_duration a;
                                  assessment_id := a_id a |}, s)
                   end
               end
    end.
Proof.
  unfold request, validate_invite_token.
  rewrite bind_query_clean by done. simpl.
  destruct (invite_by_token token s) as [invite|]; [|done].
  destruct (it_used invite); [done|].
  case_bool_decide; [done|].
  rewrite bind_query_clean by done. simpl.
  destruct (assessment_by_id _ s) as [a|]; [|done].
  rewrite bind_query_clean by done. simpl.
  by destruct (collect_questions _ s).
Qed.

Lemma status_request af b s token now :
  exists resp,
    request af b s (get_invite_status token now) = (Return resp, s) /\
    status resp = status_of s token now /\
    valid resp = bool_decide (status resp = "valid").
Proof.
  unfold request, get_invite_status, status_of.
  rewrite bind_query_clean by done. simpl.
  destruct (invite_by_token token s) as [invite|]; [|by eexists].
  destruct (it_used invite); [by eexists|].
  case_bool_decide; [by eexists|].
  rewrite bind_query_clean by done. simpl.
  destruct (assessment_by_id _ s) as [a|]; by eexists.
Qed.

(** C5, as the code has it -- The used check comes first in both
    endpoints.  A used token is reported as already used (validation) and
    "used" (status) whatever its expiry; a token is reported as expired only
    when it is not used and [expires_at < now]. *)
Theorem used_takes_precedence af b s token now invite :
  invite_by_token token s = Some invite ->
  (it_used invite = true ->
     request af b s (validate_invite_token token now) = (Raise already_used, s)
     /\ exists resp,
          request af b s (get_invite_status token now) = (Return resp, s)
          /\ status resp = "used") /\
  (it_used invite = false -> it_expires_at invite < now ->
     request af b s (validate_invite_token token now) = (Raise expired, s)
     /\ exists resp,
          request af b s (get_invite_status token now) = (Return resp, s)
          /\ status resp = "expired").
Proof.
  intros Hi. split.
  - intros Hu. split.
    + by rewrite validate_request, Hi, Hu.
    + destruct (status_request af b s token now) as (resp & Hr & Hs & _).
      exists resp. split; [done|]. rewrite Hs. unfold status_of.
      by rewrite Hi, Hu.
  - intros Hu He. split.
    + by rewrite validate_request, Hi, Hu, bool_decide_eq_true_2.
    + destruct (status_request af b s token now) as (resp & Hr & Hs & _).
      exists resp. split; [done|]. rewrite Hs. unfold status_of.
      by rewrite Hi, Hu, bool_decide_eq_true_2.
Qed.

(** C8, as the code has it -- The status endpoint answers every token,
    never raises and leaves the store as it found it; the classification is
    one of five: "valid", "used", "expired", "invalid" for a token that is
    not in the ledger and "assessment_not_found" for a redeemable token
    whose assessment is gone.  [valid] is set exactly for "valid". *)
Theorem status_always_classifies af b s token now :
  exists resp,
    request af b s (get_invite_status token now) = (Return resp, s) /\
    status resp = status_of s token now /\
    status resp ∈ ["valid"; "used"; "expired"; "invalid";
                   "assessment_not_found"] /\
    (valid resp = true <-> status resp = "valid").
Proof.
  destruct (status_request af b s token now) as (resp & Hr & Hs & Hv).
  exists resp. split; [done|]. split; [done|]. split.
  - rewrite Hs. unfold status_of.
    destruct (invite_by_token token s) as [invite|].
    2:{ apply list_elem_of_In; simpl; eauto 10. }
    destruct (it_used invite); [apply list_elem_of_In; simpl; eauto 10|].
    destruct (bool_decide (it_expires_at invite < now));
      [apply list_elem_of_In; simpl; eauto 10|].
    destruct (assessment_by_id _ s); apply list_elem_of_In; simpl; eauto 10.
  - rewrite Hv. apply bool_decide_eq_true.
Qed.

End Ledger.

(** ** The linking engine *)

Module Linking.
Import UserService RecruiterCode.

Lemma insert_all_rows news : forall s,
  insert_all news s
  = with_user_assessments s
      (user_assessments s ++ numbered (user_assessments s) news).
Proof.
  induction news as [|ua rest IH]; intros s; simpl.
  - destruct s; unfold with_user_assessments; simpl. by rewrite app_nil_r.
  - unfold insert_all in *. rewrite IH. unfold insert_ua, insert_row,
      with_user_assessments. simpl. by rewrite <- app_assoc.
Qed.

Lemma numbered_map {B} (f : UserAssessment -> B) news :
  (forall i ua, f (set_ua_id i ua) = f ua) ->
  forall l, map f (numbered l news) = map f news.
Proof.
  intros Hf. induction news as [|ua rest IH]; intros l; simpl; [done|].
  by rewrite Hf, IH.
Qed.

Lemma insert_all_app n1 n2 s :
  insert_all (n1 ++ n2) s = insert_all n2 (insert_all n1 s).
Proof. apply foldl_app. Qed.

Lemma flush_all_inserts news t :
  flush_all (map Insert news) t = insert_all news t.
Proof.
  revert t. induction news as [|ua rest IH]; intros t; simpl; [done|].
  apply IH.
Qed.

Section Loop.

Variable s : Store.

Lemma mid_open af b : mid s [] (open_session af b s).
Proof. split; [done|]. exists 0%nat. by repeat split. Qed.

Lemma mid_query {A} (q : Store -> A) news σ :
  mid s news σ ->
  match query q σ with
  | (Return v, σ') =>
      mid s news σ' /\ autoflush σ' = autoflush σ /\
      exists k, v = q (insert_all (take k news) s)
  | (Raise _, σ') => durable σ' = s /\ autoflush σ' = autoflush σ
  end.
Proof.
  intros (Hd & k & Hk & Ht & Hp). unfold query.
  destruct (autoflush σ) eqn:Haf.
  - unfold bind. pose proof (flush_spec σ) as H.
    destruct (flush σ) as [[[]|e] σ1].
    + destruct H as [Hs ->]. simpl.
      assert (flush_all (pending σ) (txn σ) = insert_all news s) as Hall.
      { rewrite Hp, Ht, flush_all_inserts, <- insert_all_app.
        by rewrite take_drop. }
      split; [|split; [done|]].
      * split; [done|]. exists (length news). simpl.
        rewrite firstn_all, drop_all. by repeat split.
      * exists (length news). by rewrite firstn_all, Hall.
    + destruct H as (_ & _ & Ha & Hd'). split; congruence.
  - simpl. split; [|split; [done|]].
    + split; [done|]. by exists k.
    + exists k. by rewrite Ht.
Qed.

Lemma mid_add ua news σ :
  mid s news σ -> mid s (news ++ [ua]) (snd (db_add ua σ)).
Proof.
  intros (Hd & k & Hk & Ht & Hp). split; [done|]. exists k. simpl.
  rewrite length_app. split; [lia|]. split.
  - by rewrite take_app_le.
  - by rewrite drop_app_le, map_app, Hp.
Qed.

Lemma mid_commit news σ :
  mid s news σ ->
  match commit σ with
  | (Return _, σ') =>
      durable σ' = insert_all news s /\ txn σ' = insert_all news s /\
      pending σ' = [] /\ autoflush σ' = autoflush σ /\
      survives (budget σ) (S (length (pending σ)))
  | (Raise _, σ') => durable σ' = s /\ autoflush σ' = autoflush σ
  end.
Proof.
  intros (Hd & k & Hk & Ht & Hp). pose proof (commit_spec σ) as H.
  destruct (commit σ) as [[[]|e] σ1].
  - destruct H as [Hs ->]. simpl.
    assert (flush_all (pending σ) (txn σ) = insert_all news s) as ->.
    { rewrite Hp, Ht, flush_all_inserts, <- insert_all_app.
      by rewrite take_drop. }
    done.
  - destruct H as (_ & _ & Ha & Hd'). split; congruence.
Qed.

End Loop.

Lemma find_app_miss {A} (p : A -> bool) (l l' : list A) :
  Forall (fun x => p x = false) l' -> find p (l ++ l') = find p l.
Proof.
  intros H. induction l as [|x l IH]; simpl.
  - induction H as [|y l' Hy _ IH']; simpl; [done|]. by rewrite Hy.
  - by destruct (p x).
Qed.

Lemma numbered_Forall (P : UserAssessment -> Prop) news :
  (forall i ua, P ua -> P (set_ua_id i ua)) ->
  Forall P news -> forall l, Forall P (numbered l news).
Proof.
  intros HP H. induction H as [|ua rest Hua _ IH]; intros l; simpl.
  - constructor.
  - constructor; [by apply HP | apply IH].
Qed.

(** Rows of other assessments do not change what the existence check
    finds. *)
Lemma linkage_insert_all sid rid aid rows s :
  Forall (fun ua => ua_assessment_id ua <> aid) rows ->
  linkage sid rid aid (insert_all rows s) = linkage sid rid aid s.
Proof.
  intros H. rewrite insert_all_rows. unfold linkage. simpl.
  apply find_app_miss.
  apply (numbered_Forall (fun ua => ua_assessment_id ua <> aid)) with
    (l := user_assessments s) in H; [|done].
  eapply Forall_impl; [exact H|]. intros ua Hne. unfold same_link.
  rewrite (bool_decide_eq_false_2 (ua_assessment_id ua = aid)) by done.
  by rewrite andb_false_r.
Qed.

Section LinkLoop.

Variable s : Store.
Variable student : User.
Variables sid rid : Z.

Lemma link_loop_spec l : forall news σ,
  mid s news σ ->
  NoDup (map a_id l) ->
  (forall a, a ∈ l -> Forall (fun ua => ua_assessment_id ua <> a_id a) news) ->
  match link_loop student sid rid l σ with
  | (Return _, σ') =>
      mid s (news ++ new_links student sid rid s l) σ' /\
      autoflush σ' = autoflush σ
  | (Raise _, σ') => durable σ' = s /\ autoflush σ' = autoflush σ
  end.
Proof.
  induction l as [|a rest IH]; intros news σ Hmid Hnd Hother; simpl.
  - unfold new_links. simpl. by rewrite app_nil_r.
  - unfold bind at 1.
    pose proof (mid_query s (linkage sid (Some rid) (a_id a)) news σ Hmid) as Hq.
    destruct (query _ σ) as [[v|e] σ1]; [|done].
    destruct Hq as (Hmid1 & Haf1 & k & ->).
    rewrite linkage_insert_all.
    2:{ apply Forall_take, Hother. by left. }
    inversion Hnd as [|? ? Hnotin Hnd']; subst.
    unfold new_links. simpl. unfold fresh_for at 1.
    destruct (linkage sid (Some rid) (a_id a) s) as [ua|] eqn:Hl.
    + rewrite bool_decide_eq_false_2 by done. unfold bind at 1. simpl.
      specialize (IH news σ1 Hmid1 Hnd').
      destruct (link_loop student sid rid rest σ1) as [[[]|e] σ2].
      * destruct IH as [H1 H2]; [|split; [done | congruence]].
        intros a' Ha'. apply Hother. by right.
      * destruct IH as [H1 H2]; [|split; [done | congruence]].
        intros a' Ha'. apply Hother. by right.
    + rewrite bool_decide_eq_true_2 by done. unfold bind at 1. simpl.
      pose proof (mid_add s (linked_ua student sid rid a) news σ1 Hmid1) as Hadd.
      simpl in Hadd.
      match goal with |- context [link_loop student sid rid rest ?σ0] =>
        specialize (IH _ σ0 Hadd Hnd');
        destruct (link_loop student sid rid rest σ0) as [[[]|e] σ2] end.
      * destruct IH as [H1 H2].
        { intros a' Ha'. apply Forall_app. split; [apply Hother; by right|].
          constructor; [|constructor]. simpl. intros Heq. apply Hnotin.
          rewrite Heq. by apply list_elem_of_fmap_2. }
        split; [|simpl in H2; congruence].
        by rewrite <- app_assoc in H1.
      * destruct IH as [H1 H2].
        { intros a' Ha'. apply Forall_app. split; [apply Hother; by right|].
          constructor; [|constructor]. simpl. intros Heq. apply Hnotin.
          rewrite Heq. by apply list_elem_of_fmap_2. }
        split; [done | simpl in H2; congruence].
Qed.

End LinkLoop.

Lemma recruiter_assessments_NoDup rid s :
  NoDup (map a_id (assessments s)) ->
  NoDup (map a_id (recruiter_assessments rid s)).
Proof.
  unfold recruiter_assessments. induction (assessments s) as [|a l IH]; simpl.
  - done.
  - intros Hnd. inversion Hnd as [|? ? Hnotin Hnd']; subst.
    destruct (bool_decide _); [|by apply IH].
    simpl. constructor; [|by apply IH].
    intros Hin. apply Hnotin.
    apply list_elem_of_fmap in Hin as (a' & -> & Hin).
    apply list_elem_of_fmap_2. apply list_elem_of_In in Hin.
    apply filter_In in Hin as [Hin _]. by apply list_elem_of_In.
Qed.

Lemma mid_query_nil {A} (q : Store -> A) s σ :
  mid s [] σ ->
  match query q σ with
  | (Return v, σ') => mid s [] σ' /\ autoflush σ' = autoflush σ /\ v = q s
  | (Raise _, σ') => durable σ' = s /\ autoflush σ' = autoflush σ
  end.
Proof.
  intros Hmid. pose proof (mid_query s q [] σ Hmid) as Hq.
  destruct (query q σ) as [[v|e] σ1]; [|done].
  destruct Hq as (Hmid1 & Haf1 & k & ->). by rewrite take_nil.
Qed.

(** The service call on a session that has written nothing yet: [True]
    with every new linkage durable, or [False] with the durable store
    untouched; it never raises. *)
Lemma link_service_spec s sid rid σ :
  mid s [] σ ->
  NoDup (map a_id (assessments s)) ->
  match UserService.link_student_to_recruiter sid rid σ with
  | (Return true, σ') =>
      exists recruiter student,
        user_by_id rid s = Some recruiter /\
        user_by_id sid s = Some student /\
        let news := new_links student sid rid s (recruiter_assessments rid s) in
        durable σ' = insert_all news s /\ txn σ' = insert_all news s /\
        pending σ' = [] /\ autoflush σ' = autoflush σ
  | (Return false, σ') => durable σ' = s /\ autoflush σ' = autoflush σ
  | (Raise _, _) => False
  end.
Proof.
  intros Hmid Hnd. unfold UserService.link_student_to_recruiter, try_except.
  unfold bind at 1.
  pose proof (mid_query_nil (user_by_id rid) s σ Hmid) as Hq.
  destruct (query _ σ) as [[v|e] σ1]; [|by destruct Hq].
  destruct Hq as (Hmid1 & Haf1 & ->). simpl.
  destruct (user_by_id rid s) as [recruiter|] eqn:Hr;
    [|by destruct Hmid1].
  destruct (negb _); [by destruct Hmid1|].
  unfold bind at 1.
  pose proof (mid_query_nil (recruiter_assessments rid) s σ1 Hmid1) as Hq.
  destruct (query _ σ1) as [[v|e] σ2]; [|simpl; destruct Hq; split; congruence].
  destruct Hq as (Hmid2 & Haf2 & ->). simpl.
  unfold bind at 1.
  pose proof (mid_query_nil (user_by_id sid) s σ2 Hmid2) as Hq.
  destruct (query _ σ2) as [[v|e] σ3]; [|simpl; destruct Hq; split; congruence].
  destruct Hq as (Hmid3 & Haf3 & ->). simpl.
  destruct (user_by_id sid s) as [student|] eqn:Hs;
    [|destruct Hmid3; split; congruence].
  unfold bind at 1.
  pose proof (link_loop_spec s student sid rid (recruiter_assessments rid s)
                [] σ3 Hmid3 (recruiter_assessments_NoDup rid s Hnd)) as Hloop.
  destruct (link_loop _ _ _ _ σ3) as [[[]|e] σ4].
  - destruct Hloop as [Hmid4 Haf4]; [by intros|]. simpl in Hmid4.
    unfold bind at 1.
    pose proof (mid_commit s _ σ4 Hmid4) as Hc.
    destruct (commit σ4) as [[[]|e] σ5]; simpl.
    + destruct Hc as (Hd & Ht & Hp & Ha & _).
      exists recruiter, student. repeat split; try done. congruence.
    + destruct Hc. split; congruence.
  - destruct Hloop as [Hd Ha]; [by intros|]. simpl. split; congruence.
Qed.

Lemma read_only_get_recruiter_assessments sid rid :
  read_only (UserService.get_recruiter_assessments_for_student sid rid).
Proof.
  unfold UserService.get_recruiter_assessments_for_student. read_only.
Qed.

Lemma get_recruiter_assessments_returns sid rid σ :
  exists l, fst (UserService.get_recruiter_assessments_for_student sid rid σ)
            = Return l.
Proof.
  unfold UserService.get_recruiter_assessments_for_student, try_except.
  destruct (bind _ _ σ) as [[l|e] σ1]; by eexists.
Qed.

(** *** Failures of a linking request, without any assumption *)

Lemma all_or_nothing_ret_false : all_or_nothing (ret false).
Proof. by intros σ. Qed.

Lemma all_or_nothing_bind {A} (m : M A) (k : A -> M bool) :
  read_only m -> (forall a, all_or_nothing (k a)) -> all_or_nothing (bind m k).
Proof.
  intros Hm Hk σ. unfold bind. destruct (Hm σ) as [Hd _].
  destruct (m σ) as [[a|e] σ1]; simpl in *; [|done].
  specialize (Hk a σ1). destruct (k a σ1) as [[[]|e] σ2]; congruence.
Qed.

Lemma all_or_nothing_commit : all_or_nothing (commit ;;; ret true).
Proof.
  intros σ. unfold bind. pose proof (commit_spec σ) as H.
  destruct (commit σ) as [[[]|e] σ1]; simpl; [done|].
  by destruct H as (_ & _ & _ & ?).
Qed.

Lemma read_only_link_loop student sid rid l :
  read_only (link_loop student sid rid l).
Proof. induction l as [|a l IH]; simpl; read_only. Qed.

(** The service call answers [True] or leaves the durable store alone, and
    never raises. *)
Lemma link_service_clean sid rid σ :
  match UserService.link_student_to_recruiter sid rid σ with
  | (Return true, _) => True
  | (Return false, σ') => durable σ' = durable σ
  | (Raise _, _) => False
  end.
Proof.
  unfold UserService.link_student_to_recruiter, try_except.
  match goal with |- context [bind ?m ?k σ] =>
    assert (all_or_nothing (bind m k)) as H end.
  { apply all_or_nothing_bind; [read_only|]. intros [recruiter|];
      [|apply all_or_nothing_ret_false].
    destruct (negb _); [apply all_or_nothing_ret_false|].
    apply all_or_nothing_bind; [read_only|]. intros assessments.
    apply all_or_nothing_bind; [read_only|]. intros [student|];
      [|apply all_or_nothing_ret_false].
    apply all_or_nothing_bind; [apply read_only_link_loop|]. intros _.
    apply all_or_nothing_commit. }
  specialize (H σ).
  match goal with |- context [bind ?m ?k σ] =>
    destruct (bind m k σ) as [[[]|e] σ1] end; simpl; done.
Qed.

Lemma raises_clean_read_only {A} (m : M A) : read_only m -> raises_clean m.
Proof.
  intros H σ. destruct (H σ) as [Hd _]. by destruct (m σ) as [[a|e] σ1].
Qed.

Lemma raises_clean_bind {A B} (m : M A) (k : A -> M B) :
  read_only m -> (forall a, raises_clean (k a)) -> raises_clean (bind m k).
Proof.
  intros Hm Hk σ. unfold bind. destruct (Hm σ) as [Hd _].
  destruct (m σ) as [[a|e] σ1]; simpl in *; [|done].
  specialize (Hk a σ1). destruct (k a σ1) as [[b|e] σ2]; [done | congruence].
Qed.

Lemma read_only_validate_recruiter_code code :
  read_only (validate_recruiter_code code).
Proof. unfold validate_recruiter_code. read_only. Qed.

(** A linking request that raises has written nothing. *)
Lemma link_raises_clean code u :
  raises_clean (RecruiterCode.link_student_to_recruiter code u).
Proof.
  unfold RecruiterCode.link_student_to_recruiter.
  destruct (negb (is_student u));
    [apply raises_clean_read_only; read_only|].
  apply raises_clean_bind; [apply read_only_validate_recruiter_code|].
  intros [recruiter|]; [|apply raises_clean_read_only; read_only].
  apply raises_clean_bind; [read_only|].
  intros [ua|]; [apply raises_clean_read_only; read_only|].
  intros σ. unfold bind at 1.
  pose proof (link_service_clean (u_id u) (u_id recruiter) σ) as Hsvc.
  destruct (UserService.link_student_to_recruiter _ _ σ) as [[[]|e] σ1];
    [| |done]; simpl.
  - unfold bind.
    destruct (get_recruiter_assessments_returns (u_id u) (u_id recruiter) σ1)
      as [l Hl].
    destruct (UserService.get_recruiter_assessments_for_student _ _ σ1)
      as [r σ2]. simpl in Hl. by subst r.
  - done.
Qed.

Lemma link_request_raises_clean af b s code u e :
  fst (request af b s (RecruiterCode.link_student_to_recruiter code u))
  = Raise e ->
  snd (request af b s (RecruiterCode.link_student_to_recruiter code u)) = s.
Proof.
  unfold request. pose proof (link_raises_clean code u (open_session af b s))
    as H.
  destruct (RecruiterCode.link_student_to_recruiter code u _) as [[r|e'] σ];
    simpl; [done | by intros _].
Qed.

(** Every way a linking request can end. *)
Lemma link_ends af b s code u r :
  NoDup (map a_id (assessments s)) ->
  request af b s (RecruiterCode.link_student_to_recruiter code u) = r ->
  (is_student u = false /\ r = (Raise only_students, s)) \/
  (is_student u = true /\ find_recruiter code s = None /\
   r = (Raise invalid_code, s)) \/
  (exists recruiter,
     is_student u = true /\ find_recruiter code s = Some recruiter /\
     ((is_Some (existing_link (u_id u) (u_id recruiter) s) /\
       r = (Raise already_linked, s)) \/
      (existing_link (u_id u) (u_id recruiter) s = None /\
       (r = (Raise link_failed, s) \/
        exists student resp,
          user_by_id (u_id u) s = Some student /\
          recruiter_name resp = u_name recruiter /\
          recruiter_id resp = u_id recruiter /\
          r = (Return resp,
               insert_all
                 (new_links student (u_id u) (u_id recruiter) s
                    (recruiter_assessments (u_id recruiter) s)) s))))).
Proof.
  intros Hnd.
  unfold request, RecruiterCode.link_student_to_recruiter.
  destruct (is_student u) eqn:Hst; simpl; [|intros <-; by left].
  unfold validate_recruiter_code.
  assert (forall (k : option User -> M RecruiterCodeResponse),
    bind (if bool_decide (code = "") then ret None
          else query (fun s0 =>
                 find (fun u0 => bool_decide (u_recruiter_code u0 = Some code)
                                 && string_in (u_role u0) ["Admin"; "Recruiter"])
                      (users s0))) k (open_session af b s)
    = k (find_recruiter code s) (open_session af b s)) as ->.
  { intros k. unfold find_recruiter. destruct (bool_decide (code = "")).
    - done.
    - by rewrite bind_query_clean. }
  destruct (find_recruiter code s) as [recruiter|] eqn:Hrec;
    [|intros <-; right; left; done].
  rewrite bind_query_clean by done. simpl.
  destruct (existing_link (u_id u) (u_id recruiter) s) as [ua|] eqn:Hex.
  { intros <-. right. right. exists recruiter. split; [done|]. split; [done|].
    left. by split. }
  unfold bind at 1.
  pose proof (link_service_spec s (u_id u) (u_id recruiter)
                (open_session af b s) (mid_open s af b) Hnd) as Hsvc.
  destruct (UserService.link_student_to_recruiter (u_id u) (u_id recruiter)
              (open_session af b s)) as [[[]|e] σ1]; [| |done]; simpl.
  - destruct Hsvc as (recruiter' & student & Hr' & Hs' & Hd & Ht & Hp & Haf).
    unfold bind.
    pose proof (read_only_get_recruiter_assessments (u_id u) (u_id recruiter) σ1)
      as [Hro _].
    destruct (get_recruiter_assessments_returns (u_id u) (u_id recruiter) σ1)
      as [l Hl].
    destruct (UserService.get_recruiter_assessments_for_student _ _ σ1)
      as [r' σ2]. simpl in *. subst r'. simpl. intros <-.
    right. right. exists recruiter. split; [done|]. split; [done|].
    right. split; [done|]. right.
    exists student,
      {| recruiter_name := u_name recruiter; recruiter_id := u_id recruiter;
         linked_assessments := l |}.
    split; [done|]. split; [done|]. split; [done|].
    by rewrite Hro, Hd.
  - destruct Hsvc as [-> _]. intros <-.
    right. right. exists recruiter. split; [done|]. split; [done|].
    right. split; [done|]. by left.
Qed.

(** *** The uniqueness invariant *)

Lemma same_link_key uid rid aid ua :
  same_link uid rid aid ua = true <-> link_key ua = (uid, aid, rid).
Proof.
  unfold same_link, link_key. rewrite !andb_true_iff, !bool_decide_eq_true.
  split; [intros [[-> ->] ->]; done | intros [= -> -> ->]; done].
Qed.

Lemma linkage_None_key uid rid aid s :
  linkage uid rid aid s = None <->
  (uid, aid, rid) ∉ map link_key (user_assessments s).
Proof.
  unfold linkage. induction (user_assessments s) as [|ua l IH]; simpl.
  - split; [intros _ H; inversion H | done].
  - destruct (same_link uid rid aid ua) eqn:Hp.
    + apply same_link_key in Hp. split; [done|]. intros H. exfalso. apply H.
      rewrite Hp. by left.
    + rewrite IH. rewrite not_elem_of_cons. split; [|by intros [_ ?]].
      intros H. split; [|done]. intros Heq.
      symmetry in Heq. apply same_link_key in Heq. congruence.
Qed.

Lemma keys_insert_all news s :
  map link_key (user_assessments (insert_all news s))
  = (map link_key (user_assessments s) ++ map link_key news)%list.
Proof.
  rewrite insert_all_rows. simpl. rewrite map_app. f_equal.
  by apply numbered_map.
Qed.

Lemma unique_insert ua s :
  unique_links s ->
  link_key ua ∉ map link_key (user_assessments s) ->
  unique_links (insert_ua ua s).
Proof.
  intros Hu Hfresh. unfold unique_links.
  change (insert_ua ua s) with (insert_all [ua] s).
  rewrite keys_insert_all. apply NoDup_app. split; [done|]. split.
  - intros k Hk Hin. apply list_elem_of_singleton in Hin. by subst.
  - apply NoDup_singleton.
Qed.

Lemma new_links_keys student sid rid s l :
  map link_key (new_links student sid rid s l)
  = map (fun a => (sid, a_id a, Some rid)) (List.filter (fresh_for s sid rid) l).
Proof. unfold new_links. rewrite map_map. done. Qed.

Lemma unique_new_links student sid rid s l :
  unique_links s -> NoDup (map a_id l) ->
  unique_links (insert_all (new_links student sid rid s l) s).
Proof.
  intros Hu Hnd. unfold unique_links. rewrite keys_insert_all, new_links_keys.
  apply NoDup_app. split; [done|]. split.
  - intros k Hk Hin. apply list_elem_of_fmap in Hin as (a & -> & Hin).
    apply list_elem_of_In, filter_In in Hin as [_ Hfresh].
    unfold fresh_for in Hfresh. apply bool_decide_eq_true in Hfresh.
    by apply linkage_None_key in Hfresh.
  - induction l as [|a l IH]; simpl; [constructor|].
    inversion Hnd as [|? ? Hnotin Hnd']; subst.
    destruct (fresh_for s sid rid a); [|by apply IH].
    simpl. constructor; [|by apply IH].
    intros Hin. apply Hnotin.
    apply list_elem_of_fmap in Hin as (a' & [= Heq] & Hin).
    rewrite Heq. apply list_elem_of_fmap_2.
    apply list_elem_of_In, filter_In in Hin as [Hin _].
    by apply list_elem_of_In.
Qed.

(** Redemption keeps the invariant. *)
Lemma accept_keeps_unique af b s token now u :
  unique_links s ->
  unique_links (snd (request af b s (Invite.accept_invite_token token now u))).
Proof.
  intros Hu. pose proof (Ledger.accept_ends af b s token now u) as H.
  simpl in H.
  destruct H as [[e ->] | (invite & a & Hi & Hus & He & Ha &
    [(Hl & Hb & ->) | (Hl & Hb & ->)])]; simpl; try done.
  apply (unique_insert _ s Hu). by apply linkage_None_key in Hl.
Qed.

(** Linking by recruiter code keeps the invariant. *)
Lemma link_keeps_unique af b s code u :
  NoDup (map a_id (assessments s)) ->
  unique_links s ->
  unique_links
    (snd (request af b s (RecruiterCode.link_student_to_recruiter code u))).
Proof.
  intros Hnd Hu.
  destruct (link_ends af b s code u _ Hnd eq_refl)
    as [[_ ->] | [(_ & _ & ->) | (recruiter & _ & _ &
         [[_ ->] | [_ [-> | (student & resp & _ & _ & _ & ->)]]])]];
    simpl; try done.
  apply unique_new_links; [done|]. by apply recruiter_assessments_NoDup.
Qed.

Lemma accept_keeps_assessments af b s token now u :
  assessments (snd (request af b s (Invite.accept_invite_token token now u)))
  = assessments s.
Proof.
  pose proof (Ledger.accept_ends af b s token now u) as H. simpl in H.
  by destruct H as [[e ->] | (invite & a & Hi & Hus & He & Ha &
    [(Hl & Hb & ->) | (Hl & Hb & ->)])].
Qed.

Lemma insert_all_assessments news s :
  assessments (insert_all news s) = assessments s.
Proof. by rewrite insert_all_rows. Qed.

Lemma insert_all_users news s : users (insert_all news s) = users s.
Proof. by rewrite insert_all_rows. Qed.

Lemma insert_all_invite_tokens news s :
  invite_tokens (insert_all news s) = invite_tokens s.
Proof. by rewrite insert_all_rows. Qed.

Lemma link_keeps_assessments af b s code u :
  NoDup (map a_id (assessments s)) ->
  assessments
    (snd (request af b s (RecruiterCode.link_student_to_recruiter code u)))
  = assessments s.
Proof.
  intros Hnd.
  destruct (link_ends af b s code u _ Hnd eq_refl)
    as [[_ ->] | [(_ & _ & ->) | (recruiter & _ & _ &
         [[_ ->] | [_ [-> | (student & resp & _ & _ & _ & ->)]]])]];
    simpl; try done.
  apply insert_all_assessments.
Qed.

(** C2, as the code has it -- Invite redemption and linking by recruiter
    code keep "at most one linkage per (user, assessment, recruiter)": run
    on a store that has the invariant (and whose assessment ids are a
    primary key) they leave a store that has it, whatever the inputs, the
    session configuration and the failures of the persistence layer; hence
    every store reachable through these two operations has it. *)
Theorem redeem_and_link_keep_links_unique s :
  (unique_links s ->
   forall af b token now u,
     unique_links
       (snd (request af b s (Invite.accept_invite_token token now u)))) /\
  (unique_links s -> NoDup (map a_id (assessments s)) ->
   forall af b code u,
     unique_links
       (snd (request af b s
               (RecruiterCode.link_student_to_recruiter code u)))) /\
  (reachable s -> unique_links s).
Proof.
  split; [|split].
  - intros Hu af b token now u. by apply accept_keeps_unique.
  - intros Hu Hnd af b code u. by apply link_keeps_unique.
  - intros Hr.
    assert (unique_links s /\ NoDup (map a_id (assessments s))) as [? _];
      [|done].
    induction Hr as [s He Hnd | af b s token now u Hr [IHu IHn]
                    | af b s code u Hr [IHu IHn]].
    + split; [|done]. unfold unique_links. rewrite He. constructor.
    + split; [by apply accept_keeps_unique|].
      by rewrite accept_keeps_assessments.
    + split; [by apply link_keeps_unique|].
      by rewrite link_keeps_assessments.
Qed.

(** *** Linking twice, and linking after a redemption *)

Lemma find_is_Some {A} (p : A -> bool) (l : list A) (x : A) :
  x ∈ l -> p x = true -> is_Some (find p l).
Proof.
  intros Hin Hx. induction Hin as [x l | x y l Hin IH]; simpl.
  - rewrite Hx. by eexists.
  - destruct (p y); [by eexists | by apply IH].
Qed.

Lemma find_weaker_None {A} (p q : A -> bool) (l : list A) :
  (forall x, q x = true -> p x = true) -> find p l = None -> find q l = None.
Proof.
  intros Hpq. induction l as [|x l IH]; simpl; [done|].
  destruct (p x) eqn:Hp; [done|]. intros H.
  destruct (q x) eqn:Hq; [|by apply IH].
  apply Hpq in Hq. congruence.
Qed.

(** No linkage with the recruiter at all, so none for any assessment. *)
Lemma existing_link_None_fresh uid rid s a :
  existing_link uid rid s = None -> fresh_for s uid rid a = true.
Proof.
  intros H. unfold fresh_for. apply bool_decide_eq_true.
  unfold linkage. eapply find_weaker_None; [|exact H].
  intros ua. unfold same_link. rewrite !andb_true_iff. by intros [[-> ->] _].
Qed.

Lemma existing_link_of_row uid rid s ua :
  ua ∈ user_assessments s -> ua_user_id ua = uid ->
  ua_recruiter_id ua = Some rid -> is_Some (existing_link uid rid s).
Proof.
  intros Hin Hu Hr. unfold existing_link. eapply find_is_Some; [exact Hin|].
  by rewrite !bool_decide_eq_true_2.
Qed.

Lemma existing_link_of_linkage uid rid aid s :
  is_Some (linkage uid (Some rid) aid s) -> is_Some (existing_link uid rid s).
Proof.
  intros [ua Hua]. unfold linkage in Hua.
  apply find_some in Hua as [Hin Hp].
  unfold same_link in Hp. rewrite !andb_true_iff, !bool_decide_eq_true in Hp.
  destruct Hp as [[Hu Hr] _].
  eapply existing_link_of_row; [by apply list_elem_of_In| done | done].
Qed.

(** The hard rejection: a student, a valid code, and any linkage at all
    with that recruiter. *)
Lemma link_already_linked af b s code u recruiter :
  is_student u = true ->
  find_recruiter code s = Some recruiter ->
  is_Some (existing_link (u_id u) (u_id recruiter) s) ->
  request af b s (RecruiterCode.link_student_to_recruiter code u)
  = (Raise already_linked, s).
Proof.
  intros Hst Hrec [ua Hex].
  unfold request, RecruiterCode.link_student_to_recruiter.
  rewrite Hst. simpl. unfold validate_recruiter_code.
  unfold find_recruiter in Hrec.
  destruct (bool_decide (code = "")); [done|].
  rewrite bind_query_clean by done. simpl. rewrite Hrec.
  rewrite bind_query_clean by done. simpl. by rewrite Hex.
Qed.

(** C10 -- The "already linked" precondition of linking looks at the
    recruiter only.  For a student and a code that resolves to a recruiter:
    (1) whenever the store holds any linkage of the student carrying that
    recruiter's id, for whatever assessment and however it got there, the
    request is rejected with "You are already linked to this recruiter."
    and the store is untouched; (2) in particular, once the student has
    redeemed an invitation to one of the recruiter's assessments, linking
    with the recruiter's code is rejected and leaves the store as the
    redemption left it, so the code path creates no linkage for the
    recruiter's other assessments. *)
Theorem already_linked_ignores_assessment af b s code u recruiter :
  is_student u = true ->
  find_recruiter code s = Some recruiter ->
  (forall ua,
     ua ∈ user_assessments s -> ua_user_id ua = u_id u ->
     ua_recruiter_id ua = Some (u_id recruiter) ->
     request af b s (RecruiterCode.link_student_to_recruiter code u)
     = (Raise (HTTPException 400 "You are already linked to this recruiter."),
        s)) /\
  (forall af1 b1 token now invite a,
     invite_by_token token s = Some invite ->
     it_used invite = false ->
     ~ it_expires_at invite < now ->
     assessment_by_id (it_assessment_id invite) s = Some a ->
     a_created_by_user_id a = Some (u_id recruiter) ->
     survives b1 3 ->
     let s1 :=
       snd (request af1 b1 s (Invite.accept_invite_token token now u)) in
     request af b s1 (RecruiterCode.link_student_to_recruiter code u)
     = (Raise already_linked, s1)).
Proof.
  intros Hst Hrec. split.
  - intros ua Hin Hu Hr. apply (link_already_linked af b s code u recruiter);
      [done | done |]. by eapply existing_link_of_row.
  - intros af1 b1 token now invite a Hi Hus He Ha Hown Hb1. simpl.
    assert (survives b1 2) as Hb2.
    { destruct b1; simpl in *; [lia|done]. }
    rewrite Ledger.accept_request. unfold accept_outcome.
    rewrite Hi, Hus, bool_decide_eq_false_2, Ha, Hown by done.
    destruct (linkage (u_id u) (Some (u_id recruiter)) (it_assessment_id invite) s)
      as [ua|] eqn:Hl; rewrite decide_True by done; simpl.
    + apply (link_already_linked af b _ code u recruiter); [done | done |].
      apply (existing_link_of_linkage _ _ (it_assessment_id invite)).
      unfold linkage in *. simpl. rewrite Hl. by eexists.
    + apply (link_already_linked af b _ code u recruiter); [done | done |].
      apply (existing_link_of_linkage _ _ (it_assessment_id invite)).
      apply (Ledger.linkage_insert_hit u (Some (u_id recruiter))
               (it_assessment_id invite) s).
Qed.

(** C7, as the code has it -- Linking by code is all-or-nothing.  Whatever
    the failures of the persistence layer, a request that raises leaves the
    store as it was.  A request that answers has appended to the linkage
    table one row per assessment owned by the recruiter for which the
    student had no linkage with that recruiter, in the order of the
    assessments, each with status INVITED and no score, and has changed
    nothing else.  On this path that is every assessment the recruiter
    owns: a linkage of the student for the same assessment that carries no
    recruiter, or another one, does not count.  This half relies on
    [assessments.id] being a primary key. *)
Theorem link_all_or_nothing af b s code u :
  let r := request af b s (RecruiterCode.link_student_to_recruiter code u) in
  (forall e, fst r = Raise e -> snd r = s) /\
  (NoDup (map a_id (assessments s)) ->
   forall resp, fst r = Return resp ->
     exists recruiter news,
       find_recruiter code s = Some recruiter /\
       user_assessments (snd r) = (user_assessments s ++ news)%list /\
       map (fun ua => (ua_user_id ua, ua_recruiter_id ua, ua_assessment_id ua,
                       ua_status ua, ua_score ua)) news
       = map (fun a => (u_id u, Some (u_id recruiter), a_id a, INVITED, None))
             (List.filter (fresh_for s (u_id u) (u_id recruiter))
                          (recruiter_assessments (u_id recruiter) s)) /\
       List.filter (fresh_for s (u_id u) (u_id recruiter))
                   (recruiter_assessments (u_id recruiter) s)
       = recruiter_assessments (u_id recruiter) s /\
       users (snd r) = users s /\ assessments (snd r) = assessments s /\
       invite_tokens (snd r) = invite_tokens s).
Proof.
  simpl. split; [apply link_request_raises_clean|]. intros Hnd.
  destruct (link_ends af b s code u _ Hnd eq_refl)
    as [[_ ->] | [(_ & _ & ->) | (recruiter & _ & Hrec &
         [[_ ->] | [Hex [-> | (student & resp & _ & _ & _ & ->)]]])]];
    simpl; try done.
  intros resp' _.
  exists recruiter.
  exists (numbered (user_assessments s)
            (new_links student (u_id u) (u_id recruiter) s
               (recruiter_assessments (u_id recruiter) s))).
  split; [done|]. rewrite insert_all_rows. simpl. split; [done|]. split.
  - rewrite numbered_map by done. unfold new_links. by rewrite map_map.
  - split; [|done].
    induction (recruiter_assessments (u_id recruiter) s) as [|a l IH];
      simpl; [done|].
    by rewrite (existing_link_None_fresh _ _ _ a Hex), IH.
Qed.

Lemma find_recruiter_insert_all code news s :
  find_recruiter code (insert_all news s) = find_recruiter code s.
Proof. unfold find_recruiter. by rewrite insert_all_users. Qed.

Lemma recruiter_assessments_insert_all rid news s :
  recruiter_assessments rid (insert_all news s) = recruiter_assessments rid s.
Proof. unfold recruiter_assessments. by rewrite insert_all_assessments. Qed.

(** C6, as the code has it -- A second linking request with the same code,
    right after one that succeeded, never changes the store; it is rejected
    with "already linked" exactly when the recruiter owns an assessment,
    for then the first request left a linkage carrying the recruiter's id.
    When the recruiter owns none, the first request created nothing and the
    second is not rejected as already linked. *)
Theorem second_link_rejected af b s code u resp s1 :
  NoDup (map a_id (assessments s)) ->
  request af b s (RecruiterCode.link_student_to_recruiter code u)
  = (Return resp, s1) ->
  exists recruiter,
    find_recruiter code s = Some recruiter /\
    forall af' b',
      let r' :=
        request af' b' s1 (RecruiterCode.link_student_to_recruiter code u) in
      snd r' = s1 /\
      (recruiter_assessments (u_id recruiter) s <> [] ->
       r' = (Raise already_linked, s1)) /\
      (recruiter_assessments (u_id recruiter) s = [] ->
       s1 = s /\ fst r' <> Raise already_linked).
Proof.
  intros Hnd Hfirst.
  destruct (link_ends af b s code u _ Hnd Hfirst)
    as [[_ [=]] | [(_ & _ & [=]) | (recruiter & Hst & Hrec &
         [[_ [=]] | [Hex [[=] | (student & resp' & Hs & _ & _ & [= -> ->])]]])]].
  exists recruiter. split; [done|]. intros af' b'. simpl.
  set (news := new_links student (u_id u) (u_id recruiter) s
                 (recruiter_assessments (u_id recruiter) s)).
  destruct (recruiter_assessments (u_id recruiter) s) as [|a l] eqn:Hown.
  - (* the recruiter owns nothing: the first request wrote nothing *)
    subst news. unfold new_links. simpl.
    change (insert_all [] s) with s.
    destruct (link_ends af' b' s code u _ Hnd eq_refl)
      as [[Hst' _] | [(_ & Hrec' & _) | (recruiter' & _ & Hrec' &
           [[Hex' _] | [_ [Hr | (student' & resp'' & _ & _ & _ & Hr)]]])]];
      try congruence.
    + assert (recruiter' = recruiter) as -> by congruence.
      rewrite Hex in Hex'. by destruct Hex'.
    + rewrite Hr. simpl. split; [done|]. split; [done|]. done.
    + assert (recruiter' = recruiter) as -> by congruence.
      rewrite Hr, Hown. simpl. split; [done|]. split; [done|]. done.
  - (* the first request left a linkage with the recruiter *)
    assert (request af' b' (insert_all news s)
              (RecruiterCode.link_student_to_recruiter code u)
            = (Raise already_linked, insert_all news s)) as Hsecond.
    { apply (link_already_linked af' b' _ code u recruiter); [done| |].
      - by rewrite find_recruiter_insert_all.
      - subst news. rewrite insert_all_rows. unfold new_links.
        cbn [List.filter]. rewrite (existing_link_None_fresh _ _ _ a Hex).
        cbn [map numbered].
        eapply (existing_link_of_row _ _ _
                  (set_ua_id (next_ua_id (user_assessments s))
                     (linked_ua student (u_id u) (u_id recruiter) a)));
          [|done|done].
        simpl. apply elem_of_app. right. simpl. by left. }
    rewrite Hsecond. simpl. split; [done|]. split; [done|]. done.
Qed.

End Linking.

(** ** The assignment resolver *)

Module Resolver.
Import UserAssessmentRouter Dashboard.

Lemma find_app {A} (p : A -> bool) (l l' : list A) :
  find p (l ++ l') = match find p l with
                     | Some x => Some x
                     | None => find p l'
                     end.
Proof. induction l as [|x l IH]; simpl; [done|]. by destruct (p x). Qed.

Lemma find_has_id_None i l : find (has_id i) l = None <-> i ∉ ids l.
Proof.
  unfold ids. induction l as [|e l IH]; simpl.
  - split; [intros _ H; inversion H | done].
  - unfold has_id at 1. case_bool_decide as He.
    + split; [done|]. intros H. exfalso. apply H. rewrite He. by left.
    + rewrite IH, not_elem_of_cons. split; [by intros ? | by intros [_ ?]].
Qed.

(** The loop keeps [seen] equal to the ids collected so far, never collects
    an id twice, and for every id keeps the first entry that carries it. *)
Lemma add_unseen_spec l : forall acc seen,
  (forall i, i ∈ seen <-> i ∈ ids acc) ->
  NoDup (ids acc) ->
  (forall i, i ∈ (add_unseen l acc seen).2 <-> i ∈ ids (add_unseen l acc seen).1)
  /\ NoDup (ids (add_unseen l acc seen).1)
  /\ forall i, find (has_id i) (add_unseen l acc seen).1
               = find (has_id i) (acc ++ l).
Proof.
  induction l as [|e l IH]; intros acc seen Hseen Hnd; simpl.
  - split; [done|]. split; [done|]. intros i. by rewrite app_nil_r.
  - case_bool_decide as Hin.
    + destruct (IH acc seen Hseen Hnd) as (H1 & H2 & H3).
      split; [done|]. split; [done|].
      intros i. rewrite H3, !find_app. simpl.
      destruct (find (has_id i) acc) as [x|] eqn:Hf; [done|].
      unfold has_id at 2. case_bool_decide as He; [|done].
      exfalso. apply find_has_id_None in Hf. apply Hf.
      rewrite <- He. by apply Hseen.
    + destruct (IH (acc ++ [e]) ({[Dashboard.assessment_id e]} ∪ seen))
        as (H1 & H2 & H3).
      * intros i. unfold ids. rewrite map_app, elem_of_app. simpl.
        rewrite elem_of_union, elem_of_singleton, list_elem_of_singleton.
        specialize (Hseen i). unfold ids in Hseen. tauto.
      * unfold ids. rewrite map_app. simpl. apply NoDup_app.
        split; [done|]. split; [|apply NoDup_singleton].
        intros i Hi Hi'. apply list_elem_of_singleton in Hi'. subst.
        apply Hin. by apply Hseen.
      * split; [done|]. split; [done|].
        intros i. rewrite H3. by rewrite <- app_assoc.
Qed.

Lemma all_assessments_spec sa ra :
  NoDup (ids (all_assessments sa ra)) /\
  forall i, find (has_id i) (all_assessments sa ra)
            = find (has_id i) (map of_student sa ++ map converted_assessment ra).
Proof.
  unfold all_assessments.
  destruct (add_unseen_spec (map of_student sa) [] ∅) as (H1 & H2 & H3).
  { intros i. unfold ids. simpl. split; intros H; [set_solver | inversion H]. }
  { constructor. }
  destruct (add_unseen (map of_student sa) [] ∅) as [acc seen]. simpl in *.
  destruct (add_unseen_spec (map converted_assessment ra) acc seen H1 H2)
    as (H4 & H5 & H6).
  split; [done|]. intros i. rewrite H6, !find_app, H3. done.
Qed.

Lemma NoDup_count_one (l : list Entry) i :
  NoDup (ids l) -> i ∈ ids l -> length (List.filter (has_id i) l) = 1%nat.
Proof.
  unfold ids. induction l as [|e l IH]; simpl; intros Hnd Hin.
  - inversion Hin.
  - inversion Hnd as [|? ? Hnotin Hnd']; subst.
    unfold has_id at 1. case_bool_decide as He.
    + simpl. f_equal. subst i.
      assert (List.filter (has_id (Dashboard.assessment_id e)) l = []) as ->;
        [|done].
      clear -Hnotin. induction l as [|e' l IH]; simpl; [done|].
      apply not_elem_of_cons in Hnotin as [Hne Hnotin].
      unfold has_id at 1. rewrite bool_decide_eq_false_2 by done.
      by apply IH.
    + apply IH; [done|]. apply elem_of_cons in Hin as [Heq|]; [|done].
      congruence.
Qed.

(** What the endpoint answers. *)
Lemma get_my_assessments_request require_student not_a_student af b s u :
  request af b s (get_my_assessments require_student not_a_student u)
  = if require_student u
    then (Return (map (my_entry s) (records_of (u_id u) s)), s)
    else (Raise not_a_student, s).
Proof.
  unfold request, get_my_assessments.
  destruct (require_student u); simpl; [|done].
  by rewrite query_clean.
Qed.

(** X25 -- On any store, also one the assignment script or
    [start_assessment] has written to: the endpoint [get_my_assessments]
    answers one entry per linkage of the student, in table order.  The
    list the dashboard builds from that answer and the linked recruiter's
    assessments never carries an assessment id twice, keeps for every id the
    first entry that carries it (the student's own list first, then the
    recruiter's), and so holds exactly one entry for every assessment the
    student has a linkage for. *)
Theorem dashboard_merge_deduplicates require_student not_a_student af b s u :
  (require_student u = true ->
   exists l,
     request af b s (get_my_assessments require_student not_a_student u)
     = (Return l, s) /\
     map UserAssessmentRouter.assessment_id l
     = map ua_assessment_id (records_of (u_id u) s)) /\
  (forall sa ra,
     NoDup (ids (all_assessments sa ra)) /\
     forall i, find (has_id i) (all_assessments sa ra)
               = find (has_id i)
                      (map of_student sa ++ map converted_assessment ra)) /\
  (require_student u = true ->
   forall ua,
     ua ∈ user_assessments s -> ua_user_id ua = u_id u ->
     length (List.filter (has_id (ua_assessment_id ua))
               (student_view require_student not_a_student af b s u))
     = 1%nat).
Proof.
  split; [|split].
  - intros Hreq. rewrite get_my_assessments_request, Hreq.
    eexists. split; [done|]. by rewrite map_map.
  - intros sa ra. apply all_assessments_spec.
  - intros Hreq ua Hin Hu. unfold student_view.
    rewrite get_my_assessments_request, Hreq. unfold api at 1. simpl.
    match goal with |- context [all_assessments ?sa ?ra] =>
      destruct (all_assessments_spec sa ra) as [Hnd Hfind];
      apply NoDup_count_one; [exact Hnd|];
      specialize (Hfind (ua_assessment_id ua)) end.
    destruct (decide (ua_assessment_id ua ∈
                ids (all_assessments (map (my_entry s) (records_of (u_id u) s))
                       (api (request af b s
                          (RecruiterCode.get_recruiter_assessments_for_student u))))))
      as [|Hnot]; [done|].
    exfalso. apply find_has_id_None in Hnot. rewrite Hnot in Hfind.
    symmetry in Hfind. apply find_has_id_None in Hfind. apply Hfind.
    unfold ids. rewrite map_app, elem_of_app. left.
    rewrite !map_map. simpl.
    apply (list_elem_of_fmap_2 ua_assessment_id).
    unfold records_of. apply list_elem_of_In, filter_In.
    split; [by apply list_elem_of_In | by apply bool_decide_eq_true].
Qed.

End Resolver.

(** ** The scenarios, run *)

Module Examples.
Import Fixture Scenarios Invite RecruiterCode Ledger Linking Resolver.

Ltac by_computation := apply (bool_decide_unpack _); vm_compute; exact I.

(** Assessment ids are a primary key in the fixture. *)
Lemma store0_assessment_ids : NoDup (map a_id (assessments store0)).
Proof. by_computation. Qed.

(** Alice redeems her token on a healthy store: the token is consumed and
    her linkage is there. *)
Lemma redeem_atomic_witness :
  redeemed "tok-alice" after_redeem /\ linked_by "tok-alice" alice after_redeem.
Proof.
  pose proof (redeem_atomic true None store0 "tok-alice" 500 alice) as H.
  cbv zeta in H. destruct H as (_ & H & _).
  destruct (H (Accepted "Algorithms" (Some 2))) as (_ & Hr & Hl & _).
  - vm_compute. reflexivity.
  - split; [exact Hr | exact Hl].
Defined.

(** After Alice's redemption the linkages are unique, and they still are
    after Bob links by code on a store that fails at its second
    statement. *)
Lemma redeem_and_link_keep_links_unique_witness :
  unique_links after_redeem /\
  unique_links
    (snd (request false (Some 1%nat) after_redeem
            (RecruiterCode.link_student_to_recruiter "ABC12345" bob))).
Proof.
  destruct (redeem_and_link_keep_links_unique after_redeem) as (_ & Hl & Hr).
  assert (unique_links after_redeem) as Hu.
  { apply Hr. apply reach_accept. apply reach_empty.
    - reflexivity.
    - by_computation. }
  split; [exact Hu|]. apply Hl; [exact Hu | by_computation].
Defined.

(** Against C2 as stated: [start_assessment] only refuses when a STARTED
    row exists.  On top of the PENDING row the assignment script created
    for Alice and assessment 7 it inserts a second row for the same
    (user, assessment, no recruiter). *)
Lemma start_assessment_duplicates_linkage :
  unique_links after_assign /\
  map link_key (user_assessments after_assign) = [(1, 7, None)] /\
  map link_key
    (user_assessments
       (snd (request true None after_assign
               (UserAssessmentRouter.start_assessment is_student forbidden
                  7 100 alice))))
  = [(1, 7, None); (1, 7, None)] /\
  ~ unique_links
      (snd (request true None after_assign
              (UserAssessmentRouter.start_assessment is_student forbidden
                 7 100 alice))).
Proof.
  split; [by_computation|]. split; [reflexivity|]. split; [reflexivity|].
  by_computation.
Qed.

(** Alice, already linked through the recruiter code, redeems her token:
    "already linked", the token is consumed, no row is added; Bob trying
    the same token later is told it has been used. *)
Lemma redeem_when_already_linked_witness :
  request true None after_link (accept_invite_token "tok-alice" 500 alice)
  = (Return AlreadyLinked, mark_used 1 after_link) /\
  user_assessments (mark_used 1 after_link) = user_assessments after_link /\
  request false (Some 0%nat) (mark_used 1 after_link)
    (accept_invite_token "tok-alice" 2000 bob)
  = (Raise (HTTPException 400 "This invitation has already been used."),
     mark_used 1 after_link).
Proof.
  destruct (redeem_when_already_linked true None after_link "tok-alice" 500
              alice invite_alice quiz7
              {| ua_id := Some 1; ua_user_id := 1; ua_recruiter_id := Some 2;
                 ua_assessment_id := 7;
                 ua_student_email := Some "alice@x.com";
                 ua_status := INVITED; ua_score := None;
                 ua_start_time := None; ua_end_time := None |})
    as (H1 & _ & _ & H2 & H3).
  - reflexivity.
  - reflexivity.
  - simpl. lia.
  - reflexivity.
  - reflexivity.
  - exact I.
  - split; [exact H1|]. split; [exact H2|]. apply H3.
Defined.

(** A recruiter, with another address, consumes the token sent to Alice. *)
Lemma redeem_not_bound_to_recipient_witness :
  u_role rachel = "Recruiter" /\
  u_email rachel <> it_student_email invite_alice /\
  (exists ok,
     fst (request true None store0
            (accept_invite_token "tok-alice" 500 rachel)) = Return ok) /\
  redeemed "tok-alice"
    (snd (request true None store0
            (accept_invite_token "tok-alice" 500 rachel))).
Proof.
  split; [reflexivity|]. split; [discriminate|].
  destruct (redeem_not_bound_to_recipient true None store0 "tok-alice" 500
              rachel invite_alice quiz7) as (H1 & H2 & _).
  - reflexivity.
  - reflexivity.
  - simpl. lia.
  - reflexivity.
  - exact I.
  - split; [exact H1 | exact H2].
Defined.

(** Against C5 as stated: a token that is both used and past its expiry
    is reported as already used, not as expired. *)
Lemma used_and_expired_is_not_reported_expired :
  invite_by_token "tok-alice" spent = Some (set_used invite_alice) /\
  it_expires_at (set_used invite_alice) < 2000 /\
  it_used (set_used invite_alice) = true /\
  fst (request true None spent (validate_invite_token "tok-alice" 2000))
  = Raise already_used /\
  fst (request true None spent (validate_invite_token "tok-alice" 2000))
  <> Raise expired.
Proof.
  split; [reflexivity|]. split; [simpl; lia|]. split; [reflexivity|].
  split; [reflexivity|]. discriminate.
Qed.

(** Past its expiry, Alice's token is reported as used once used, and as
    expired while it is not. *)
Lemma used_takes_precedence_witness :
  request true None spent (validate_invite_token "tok-alice" 2000)
  = (Raise already_used, spent) /\
  request true None store0 (validate_invite_token "tok-alice" 2000)
  = (Raise expired, store0).
Proof.
  split.
  - destruct (used_takes_precedence true None spent "tok-alice" 2000
                (set_used invite_alice)) as [H _]; [reflexivity|].
    destruct H as [H _]; [reflexivity | exact H].
  - destruct (used_takes_precedence true None store0 "tok-alice" 2000
                invite_alice) as [_ H]; [reflexivity|].
    destruct H as [H _]; [reflexivity | simpl; lia | exact H].
Defined.

(** Against C8 as stated: a fifth classification, for a token that is
    redeemable but whose assessment is not in the store. *)
Lemma status_of_orphaned_token :
  exists resp,
    request true None orphaned (get_invite_status "tok-alice" 500)
    = (Return resp, orphaned) /\
    status resp = "assessment_not_found" /\
    status resp ∉ ["valid"; "used"; "expired"; "not_found"; "invalid"].
Proof.
  eexists. split; [reflexivity|]. split; [reflexivity|]. by_computation.
Qed.

(** A token that is not in the ledger is classified "invalid". *)
Lemma status_always_classifies_witness :
  exists resp,
    request true None store0 (get_invite_status "no-such-token" 500)
    = (Return resp, store0) /\ status resp = "invalid".
Proof.
  destruct (status_always_classifies true None store0 "no-such-token" 500)
    as (resp & H1 & H2 & _).
  exists resp. split; [exact H1|]. rewrite H2. reflexivity.
Defined.

(** Against C6 as stated: Carol owns no assessment; linking to her
    succeeds, writes nothing, and succeeds again. *)
Lemma linking_twice_to_idle_recruiter :
  exists resp1 resp2,
    request true None store0
      (RecruiterCode.link_student_to_recruiter "ZZZ99999" alice)
    = (Return resp1, store0) /\
    request true None store0
      (RecruiterCode.link_student_to_recruiter "ZZZ99999" alice)
    = (Return resp2, store0) /\
    Return resp2 <> Raise already_linked.
Proof.
  eexists. eexists. split; [reflexivity|]. split; [reflexivity|]. discriminate.
Qed.

(** Rachel owns two assessments: Alice's second linking request is
    rejected. *)
Lemma second_link_rejected_witness :
  request false (Some 5%nat) after_link
    (RecruiterCode.link_student_to_recruiter "ABC12345" alice)
  = (Raise already_linked, after_link).
Proof.
  destruct (second_link_rejected true None store0 "ABC12345" alice
              {| recruiter_name := "Rachel"; recruiter_id := 2;
                 linked_assessments :=
                   [UserService.mkRA 7 "Algorithms" "Sorting and graphs" 30
                      INVITED None None None;
                    UserService.mkRA 8 "Databases" "Transactions" 45
                      INVITED None None None] |}
              after_link) as (recruiter & Hrec & H).
  - exact store0_assessment_ids.
  - vm_compute. reflexivity.
  - vm_compute in Hrec. injection Hrec as <-.
    destruct (H false (Some 5%nat)) as (_ & H2 & _). apply H2.
    vm_compute. discriminate.
Defined.

(** Alice links to Rachel: two INVITED rows on a healthy store, none when
    the store fails at the COMMIT. *)
Lemma link_all_or_nothing_witness :
  (exists news,
     user_assessments after_link = user_assessments store0 ++ news /\
     map (fun ua => (ua_user_id ua, ua_recruiter_id ua, ua_assessment_id ua,
                     ua_status ua, ua_score ua)) news
     = [(1, Some 2, 7, INVITED, None); (1, Some 2, 8, INVITED, None)]) /\
  snd (request true (Some 2%nat) store0
         (RecruiterCode.link_student_to_recruiter "ABC12345" alice))
  = store0.
Proof.
  split.
  - pose proof (link_all_or_nothing true None store0 "ABC12345" alice) as H.
    cbv zeta in H. destruct H as [_ H].
    destruct (H store0_assessment_ids
                {| recruiter_name := "Rachel"; recruiter_id := 2;
                   linked_assessments :=
                     [UserService.mkRA 7 "Algorithms" "Sorting and graphs" 30
                        INVITED None None None;
                      UserService.mkRA 8 "Databases" "Transactions" 45
                        INVITED None None None] |})
      as (recruiter & news & Hrec & Hrows & Hnews & _).
    + vm_compute. reflexivity.
    + vm_compute in Hrec. injection Hrec as <-.
      exists news. split; [exact Hrows | exact Hnews].
  - pose proof (link_all_or_nothing true (Some 2%nat) store0 "ABC12345" alice)
      as H.
    cbv zeta in H. destruct H as [H _].
    apply (H link_failed). vm_compute. reflexivity.
Defined.

(** Against C7 as stated: Alice holds a linkage for assessment 7, assigned
    to her by the script.  Her linking to Rachel succeeds and creates a
    linkage for assessment 7 all the same, beside the one for assessment
    8. *)
Lemma link_adds_linkage_for_held_assessment :
  map (fun ua => (ua_user_id ua, ua_recruiter_id ua, ua_assessment_id ua,
                  ua_status ua))
      (user_assessments after_assign)
  = [(1, None, 7, PENDING)] /\
  exists resp,
    request true None after_assign
      (RecruiterCode.link_student_to_recruiter "ABC12345" alice)
    = (Return resp, two_ways) /\
    map (fun ua => (ua_user_id ua, ua_recruiter_id ua, ua_assessment_id ua,
                    ua_status ua))
        (user_assessments two_ways)
    = [(1, None, 7, PENDING); (1, Some 2, 7, INVITED);
       (1, Some 2, 8, INVITED)].
Proof.
  split; [reflexivity|]. eexists. split; [vm_compute; reflexivity|].
  reflexivity.
Qed.

(** Having redeemed the invitation to assessment 7, Alice cannot link to
    Rachel by code, and has no linkage for assessment 8. *)
Lemma already_linked_ignores_assessment_witness :
  request true None after_redeem
    (RecruiterCode.link_student_to_recruiter "ABC12345" alice)
  = (Raise already_linked, after_redeem) /\
  linkage 1 (Some 2) 8 after_redeem = None /\
  request false (Some 0%nat) two_ways
    (RecruiterCode.link_student_to_recruiter "ABC12345" alice)
  = (Raise already_linked, two_ways).
Proof.
  split; [|split; [reflexivity|]].
  - destruct (already_linked_ignores_assessment true None store0 "ABC12345"
                alice rachel) as [_ H].
    + reflexivity.
    + reflexivity.
    + apply (H true None "tok-alice" 500 invite_alice quiz7).
      * reflexivity.
      * reflexivity.
      * simpl. lia.
      * reflexivity.
      * reflexivity.
      * exact I.
  - destruct (already_linked_ignores_assessment false (Some 0%nat) two_ways
                "ABC12345" alice rachel) as [H _].
    + reflexivity.
    + reflexivity.
    + apply (H {| ua_id := Some 3; ua_user_id := 1;
                  ua_recruiter_id := Some 2; ua_assessment_id := 8;
                  ua_student_email := Some "alice@x.com";
                  ua_status := INVITED; ua_score := None;
                  ua_start_time := None; ua_end_time := None |}).
      * by_computation.
      * reflexivity.
      * reflexivity.
Defined.

(** Outside the stores of redemption and linking: the assignment script
    has given Alice a linkage without recruiter for assessment 7, linking
    by code a second one, and the endpoint answers two entries for that
    assessment. *)
Lemma my_assessments_lists_both_linkages :
  map (fun ua => (ua_user_id ua, ua_recruiter_id ua, ua_assessment_id ua))
      (user_assessments two_ways)
  = [(1, None, 7); (1, Some 2, 7); (1, Some 2, 8)] /\
  exists l,
    request true None two_ways
      (UserAssessmentRouter.get_my_assessments is_student forbidden alice)
    = (Return l, two_ways) /\
    map UserAssessmentRouter.assessment_id l = [7; 7; 8] /\
    length (List.filter
              (fun e => bool_decide (UserAssessmentRouter.assessment_id e = 7))
              l) = 2%nat.
Proof.
  split; [reflexivity|]. eexists. split; [reflexivity|].
  split; reflexivity.
Qed.

(** The dashboard shows assessment 7 once. *)
Lemma dashboard_merge_deduplicates_witness :
  ids (Dashboard.student_view is_student forbidden true None two_ways alice)
  = [7; 8] /\
  length (List.filter (has_id 7)
            (Dashboard.student_view is_student forbidden true None two_ways
               alice)) = 1%nat.
Proof.
  split; [reflexivity|].
  destruct (dashboard_merge_deduplicates is_student forbidden true None
              two_ways alice) as (_ & _ & H).
  apply (H eq_refl
           {| ua_id := Some 2; ua_user_id := 1; ua_recruiter_id := Some 2;
              ua_assessment_id := 7; ua_student_email := Some "alice@x.com";
              ua_status := INVITED; ua_score := None; ua_start_time := None;
              ua_end_time := None |}).
  - by_computation.
  - reflexivity.
Defined.

End Examples.

(** * Properties of the further code *)
(** ** Sending invitations *)

Module Sending.
Import Writes InviteSend Terms.

Lemma clean_open af b s : clean (open_session af b s).
Proof. done. Qed.

Lemma with_invite_tokens_same d : with_invite_tokens d (invite_tokens d) = d.
Proof. by destruct d. Qed.

Section Loop.

Variable token_urlsafe : nat -> string.
Variable utcnow : nat -> Z.
Variable created : nat -> Z.
Variable aid : Z.
Variable sender : User.
Variable code : string.

(** One recipient: the invitation is stored and the task scheduled, or the
    failure is recorded and the ledger is what it was. *)
Lemma send_one e i p σ :
  clean σ ->
  let d := durable σ in
  let m := send_loop token_urlsafe utcnow created aid sender code [e] i p in
  exists σ', clean σ' /\ autoflush σ' = autoflush σ /\
    (budget σ = None -> budget σ' = None) /\
    (((token_urlsafe i ∉ map it_token (invite_tokens d)) /\
      durable σ' = with_invite_tokens d
                     (invite_tokens d
                        ++ [row_for token_urlsafe utcnow created aid
                                    (invite_tokens d) e i]) /\
      m σ = (Return {| successful_invites := S (successful_invites p);
                       failed := failed p;
                       tasks := tasks p
                         ++ [task_for token_urlsafe sender code e i] |}, σ'))
     \/
     (durable σ' = d /\
      (budget σ = None -> token_urlsafe i ∈ map it_token (invite_tokens d)) /\
      exists x,
        m σ = (Return {| successful_invites := successful_invites p;
                         failed := failed p ++ [(e, x)];
                         tasks := tasks p |}, σ'))).
Proof.
  intros [Ht Hp]. destruct σ as [af d t pe b]. simpl in *. subst t pe.
  unfold send_loop, commit_writes, statements, statement, try_except, bind,
    flush, execute, insert_invite, rollback, make_durable, set_txn, ret,
    row_for, task_for; simpl.
  destruct b as [[|[|k]]|]; simpl; try case_bool_decide; simpl; eexists;
    first
      [ refine (conj _ (conj _ (conj _ (or_introl (conj _ (conj _ eq_refl))))));
        simpl; done
      | refine (conj _ (conj _ (conj _ (or_intror
                 (conj _ (conj _ (ex_intro _ _ eq_refl)))))));
        simpl; done ].
Qed.

Lemma send_loop_cons e rest i p σ :
  send_loop token_urlsafe utcnow created aid sender code (e :: rest) i p σ
  = bind (send_loop token_urlsafe utcnow created aid sender code [e] i p)
         (fun p' => send_loop token_urlsafe utcnow created aid sender code
                              rest (S i) p') σ.
Proof.
  simpl. unfold bind.
  destruct (try_except _ _ σ) as [[p'|x] σ1]; done.
Qed.

(** [Sent] under a weaker reading of [healthy]. *)
Lemma Sent_impl (P Q : Prop) tbl i l tbl' ts fs :
  (Q -> P) ->
  Sent token_urlsafe utcnow created aid sender code P tbl i l tbl' ts fs ->
  Sent token_urlsafe utcnow created aid sender code Q tbl i l tbl' ts fs.
Proof.
  intros HQP H. induction H; [constructor| |].
  - by apply Sent_ok.
  - apply Sent_fail; [|done]. auto.
Qed.

(** The loop never raises; it ends on a clean session and has gone through
    the recipients as [Sent] describes. *)
Lemma send_loop_spec l : forall i p σ,
  clean σ ->
  exists p' σ' tbl' ts fs,
    send_loop token_urlsafe utcnow created aid sender code l i p σ
    = (Return p', σ') /\
    clean σ' /\ autoflush σ' = autoflush σ /\
    durable σ' = with_invite_tokens (durable σ) tbl' /\
    Sent token_urlsafe utcnow created aid sender code (budget σ = None)
         (invite_tokens (durable σ)) i l tbl' ts fs /\
    successful_invites p' = (successful_invites p + length ts)%nat /\
    failed p' = failed p ++ fs /\ tasks p' = tasks p ++ ts.
Proof.
  induction l as [|e rest IH]; intros i p σ Hc.
  - exists p, σ, (invite_tokens (durable σ)), [], []. simpl.
    rewrite with_invite_tokens_same, !app_nil_r, Nat.add_0_r.
    repeat split; try done; try apply Hc. constructor.
  - rewrite send_loop_cons. unfold bind.
    destruct (send_one e i p σ Hc) as (σ1 & Hc1 & Haf & Hb & Hcase).
    destruct Hcase as [(Hfresh & Hd & ->) | (Hd & Hin & x & ->)].
    + match goal with |- context [send_loop _ _ _ _ _ _ rest (S i) ?q σ1] =>
        destruct (IH (S i) q σ1 Hc1)
        as (p' & σ' & tbl' & ts & fs & -> & Hc' & Haf' & Hd' & Hs & Hn & Hf & Ht)
      end.
      exists p', σ', tbl', (task_for token_urlsafe sender code e i :: ts), fs.
      rewrite Hd in Hd', Hs. simpl in *.
      refine (conj eq_refl (conj Hc' (conj _ (conj _ (conj _ (conj _
                (conj _ _))))))); try congruence.
      * by rewrite Hd'.
      * apply Sent_ok; [done|]. revert Hs. by apply Sent_impl.
      * rewrite Hn. simpl. lia.
      * rewrite Ht. by rewrite <- app_assoc.
    + match goal with |- context [send_loop _ _ _ _ _ _ rest (S i) ?q σ1] =>
        destruct (IH (S i) q σ1 Hc1)
        as (p' & σ' & tbl' & ts & fs & -> & Hc' & Haf' & Hd' & Hs & Hn & Hf & Ht)
      end.
      exists p', σ', tbl', ts, ((e, x) :: fs).
      rewrite Hd in Hd', Hs. simpl in *.
      refine (conj eq_refl (conj Hc' (conj _ (conj _ (conj _ (conj _
                (conj _ _))))))); try congruence.
      * apply Sent_fail; [done|]. revert Hs. by apply Sent_impl.
      * rewrite Hf. by rewrite <- app_assoc.
Qed.

End Loop.


(** *** What a run of the loop amounts to *)

Section Sent.

Variable token_urlsafe : nat -> string.
Variable utcnow : nat -> Z.
Variable created : nat -> Z.
Variable aid : Z.
Variable sender : User.
Variable code : string.

Local Abbreviation Sent := (Terms.Sent token_urlsafe utcnow created aid sender code).

Lemma token_miss tok (tbl : list InviteToken) :
  tok ∉ map it_token tbl ->
  find (fun t => bool_decide (it_token t = tok)) tbl = None.
Proof.
  induction tbl as [|t tbl IH]; simpl; [done|].
  intros Hn. apply not_elem_of_cons in Hn as [Hne Hn].
  rewrite bool_decide_eq_false_2 by congruence. by apply IH.
Qed.

Lemma Sent_perm H tbl i l tbl' ts fs :
  Sent H tbl i l tbl' ts fs ->
  map recipient_email ts ++ map fst fs ≡ₚ l.
Proof.
  induction 1 as [| tbl i e l tbl' ts fs Hf _ IH | tbl i e l tbl' ts fs x Hin _ IH];
    simpl; [done| by rewrite IH |].
  rewrite <- Permutation_middle. by rewrite IH.
Qed.

Lemma Sent_rows H tbl i l tbl' ts fs :
  Sent H tbl i l tbl' ts fs ->
  exists news,
    tbl' = tbl ++ news /\
    map it_student_email news = map recipient_email ts /\
    map (fun row => link_for (it_token row) code) news
    = map invitation_link ts /\
    Forall (fun row =>
              it_used row = false /\ it_assessment_id row = aid /\
              exists j, (i <= j < i + length l)%nat /\
                        it_token row = token_urlsafe j /\
                        it_expires_at row = utcnow j + seven_days) news /\
    forall row, row ∈ news ->
      find (fun t => bool_decide (it_token t = it_token row)) tbl' = Some row.
Proof.
  induction 1 as [| tbl i e l tbl' ts fs Hf _ IH | tbl i e l tbl' ts fs x Hin _ IH].
  - exists []. rewrite app_nil_r. repeat split; try done.
    intros row Hrow. inversion Hrow.
  - destruct IH as (news & -> & Hem & Hl & Hall & Hfind).
    exists (row_for token_urlsafe utcnow created aid tbl e i :: news).
    rewrite <- app_assoc. simpl. rewrite Hem, Hl.
    repeat split; try done.
    + constructor.
      * repeat split; try done. exists i. simpl. repeat split; try done; lia.
      * eapply Forall_impl; [exact Hall|]. simpl.
        intros row (Hu & Ha & j & Hj & Ht & He). repeat split; try done.
        exists j. repeat split; try done; lia.
    + intros row Hrow. apply elem_of_cons in Hrow as [-> | Hrow].
      * rewrite Resolver.find_app.
        replace (find _ tbl) with (@None InviteToken).
        { simpl. by rewrite bool_decide_eq_true_2. }
        symmetry. apply token_miss. exact Hf.
      * specialize (Hfind row Hrow). by rewrite <- app_assoc in Hfind.
  - destruct IH as (news & -> & Hem & Hl & Hall & Hfind).
    exists news. repeat split; try done.
    eapply Forall_impl; [exact Hall|]. simpl.
    intros row (Hu & Ha & j & Hj & Ht & He). repeat split; try done.
    exists j. repeat split; try done; lia.
Qed.

End Sent.

Section Request.

Variable token_urlsafe : nat -> string.
Variable utcnow : nat -> Z.
Variable created : nat -> Z.

Local Abbreviation send := (send_quiz_invite token_urlsafe utcnow created).

Lemma has_code_spec u :
  has_code u = true <-> exists c, u_recruiter_code u = Some c /\ c <> "".
Proof.
  unfold has_code. destruct (u_recruiter_code u) as [c|].
  - rewrite negb_true_iff, bool_decide_eq_false. split.
    + intros Hc. by exists c.
    + intros (c' & Heq & Hc). congruence.
  - split; [done|]. by intros (c & Heq & _).
Qed.

(** Past its two guards the endpoint answers, whatever the store does. *)
Lemma send_request af b s payload r code a :
  u_recruiter_code r = Some code -> code <> "" ->
  owned_assessment (assessment_id payload) (u_id r) s = Some a ->
  exists tbl' ts fs,
    request af b s (send payload r)
    = (Return (result_of {| successful_invites := length ts; failed := fs;
                            tasks := ts |}, ts),
       with_invite_tokens s tbl') /\
    Sent token_urlsafe utcnow created (assessment_id payload) r code
         (b = None) (invite_tokens s) 0 (emails payload) tbl' ts fs.
Proof.
  intros Hcode Hne Ho. unfold request, send_quiz_invite.
  rewrite Hcode. rewrite bool_decide_eq_false_2 by done.
  rewrite bind_query_clean by done. simpl. rewrite Ho. unfold bind.
  match goal with |- context [send_loop _ _ _ _ _ _ _ _ ?p ?σ] =>
    destruct (send_loop_spec token_urlsafe utcnow created
                (assessment_id payload) r code (emails payload) 0 p σ
                (clean_open af b s))
      as (p' & σ' & tbl' & ts & fs & -> & Hc' & Haf' & Hd' & Hs & Hn & Hf & Ht)
  end.
  simpl in *. exists tbl', ts, fs. split; [|done].
  unfold ret. rewrite Hd'. destruct p' as [n f t]. simpl in *. by subst.
Qed.

Lemma owned_assessment_by_id aid uid s a :
  owned_assessment aid uid s = Some a ->
  exists a', assessment_by_id aid s = Some a' /\ a_id a' = aid.
Proof.
  unfold owned_assessment, assessment_by_id. intros H.
  apply find_some in H as [Hin Hp]. apply andb_true_iff in Hp as [Hp _].
  destruct (find (fun a0 => bool_decide (a_id a0 = aid)) (assessments s))
    as [a'|] eqn:Hf.
  - exists a'. split; [done|]. apply find_some in Hf as [_ Hf].
    by apply bool_decide_eq_true in Hf.
  - eapply find_none in Hf; [|exact Hin]. simpl in Hf. congruence.
Qed.

(** On a store that never fails nobody is left out exactly when the tokens
    drawn are new to the ledger and differ from one another. *)
Lemma Sent_none_failed (H : Prop) aid r code tbl i l tbl' ts fs :
  Sent token_urlsafe utcnow created aid r code H tbl i l tbl' ts fs ->
  H ->
  fs = [] <->
  NoDup (map token_urlsafe (seq i (length l))) /\
  forall j, (i <= j < i + length l)%nat ->
            token_urlsafe j ∉ map it_token tbl.
Proof.
  intros HS HH.
  induction HS as [| tbl i e l tbl' ts fs Hf _ IH | tbl i e l tbl' ts fs x Hin _ IH].
  - simpl. split; [|done]. intros _. split; [constructor|]. intros j Hj. lia.
  - simpl. rewrite IH. clear IH. rewrite map_app. simpl. split.
    + intros [Hnd Hfresh]. split.
      * constructor; [|done]. intros Hi.
        apply list_elem_of_fmap in Hi as (j & Hj & Hin).
        apply elem_of_seq in Hin.
        apply (Hfresh j); [lia|]. apply elem_of_app. right.
        rewrite Hj. apply list_elem_of_singleton. done.
      * intros j Hj Hin. destruct (decide (j = i)) as [->|Hne]; [done|].
        apply (Hfresh j); [lia|]. apply elem_of_app. by left.
    + intros [Hnd Hfresh]. apply NoDup_cons in Hnd as [Hi Hnd].
      split; [done|]. intros j Hj Hin.
      apply elem_of_app in Hin as [Hin|Hin].
      * apply (Hfresh j); [lia | done].
      * apply list_elem_of_singleton in Hin. simpl in Hin.
        apply Hi. rewrite <- Hin. apply list_elem_of_fmap_2.
        apply elem_of_seq. lia.
  - split; [done|]. intros [_ Hfresh]. exfalso.
    apply (Hfresh i); [simpl; lia | by apply Hin].
Qed.


Lemma Sent_tasks (H : Prop) aid r code tbl i l tbl' ts fs :
  Sent token_urlsafe utcnow created aid r code H tbl i l tbl' ts fs ->
  Forall (fun t => recruiter t = r /\
                   exists j, invitation_link t = link_for (token_urlsafe j) code)
         ts.
Proof.
  induction 1 as [| tbl i e l tbl' ts fs Hf _ IH | tbl i e l tbl' ts fs x Hin _ IH];
    [constructor| |done].
  constructor; [|done]. split; [done|]. by exists i.
Qed.

(** The two ways a request to send invitations ends. *)
Lemma send_ends af b s payload r :
  (request af b s (send payload r)
   = (Raise (if has_code r then no_such_assessment else no_recruiter_code), s)
   /\ (has_code r = false \/
       owned_assessment (assessment_id payload) (u_id r) s = None))
  \/
  exists code a tbl' ts fs,
    u_recruiter_code r = Some code /\ code <> "" /\
    owned_assessment (assessment_id payload) (u_id r) s = Some a /\
    request af b s (send payload r)
    = (Return (result_of {| successful_invites := length ts; failed := fs;
                            tasks := ts |}, ts),
       with_invite_tokens s tbl') /\
    Sent token_urlsafe utcnow created (assessment_id payload) r code
         (b = None) (invite_tokens s) 0 (emails payload) tbl' ts fs.
Proof.
  destruct (has_code r) eqn:Hc.
  - apply has_code_spec in Hc as (code & Hcode & Hne).
    destruct (owned_assessment (assessment_id payload) (u_id r) s) as [a|] eqn:Ho.
    + right. destruct (send_request af b s payload r code a Hcode Hne Ho)
        as (tbl' & ts & fs & Hr & HS).
      by exists code, a, tbl', ts, fs.
    + left. split; [|by right]. unfold request, send_quiz_invite.
      rewrite Hcode. rewrite bool_decide_eq_false_2 by done.
      rewrite bind_query_clean by done. simpl. by rewrite Ho.
  - left. split; [|by left]. unfold request, send_quiz_invite.
    unfold has_code in Hc. destruct (u_recruiter_code r) as [c|]; [|done].
    apply negb_false_iff in Hc. by rewrite Hc.
Qed.

(** X1 -- An invitation request from an identity without a recruiter code
    is refused with 400, one for an assessment the caller does not own with
    404; either way nothing is written, whatever the recipients are. *)
Theorem send_refused_without_code_or_ownership af b s payload r :
  has_code r = false \/
  owned_assessment (assessment_id payload) (u_id r) s = None ->
  request af b s (send payload r)
  = (Raise (if has_code r then no_such_assessment else no_recruiter_code), s).
Proof.
  intros Hg.
  destruct (send_ends af b s payload r)
    as [[Hr _] | (code & a & tbl' & ts & fs & Hcode & Hne & Ho & _)]; [done|].
  exfalso. destruct Hg as [Hg|Hg]; [|congruence].
  assert (has_code r = true) by (apply has_code_spec; eauto). congruence.
Qed.

(** X2 -- Past the two guards the endpoint always answers, however the
    store fails: every recipient is counted exactly once, as a scheduled
    e-mail or as a failure, the two counts add up to the number of
    recipients, and the warning is there exactly when something failed. *)
Theorem send_accounts_for_every_recipient af b s payload r a :
  has_code r = true ->
  owned_assessment (assessment_id payload) (u_id r) s = Some a ->
  exists res ts s',
    request af b s (send payload r) = (Return (res, ts), s') /\
    successful_count res = length ts /\
    failed_count res = length (failed_invites res) /\
    (successful_count res + failed_count res)%nat = length (emails payload) /\
    map recipient_email ts ++ map fst (failed_invites res) ≡ₚ emails payload /\
    (warning res = None <-> failed_count res = 0%nat).
Proof.
  intros Hc Ho.
  destruct (send_ends af b s payload r)
    as [[_ [Hg|Hg]] | (code & a' & tbl' & ts & fs & Hcode & Hne & _ & Hr & HS)];
    [congruence | congruence |].
  eexists _, ts, _. split; [exact Hr|]. simpl.
  pose proof (Sent_perm _ _ _ _ _ _ _ _ _ _ _ _ _ HS) as Hp.
  repeat split; try done.
  - apply Permutation_length in Hp.
    by rewrite length_app, !length_map in Hp.
  - by destruct fs.
  - by destruct fs.
Qed.

(** X3 -- What a request that answered has done to the store: it appended
    to the invitation ledger one row per scheduled e-mail, in the same
    order, for the same recipient and with the token of the e-mailed link;
    each row is unused, bound to the assessment of the request and expires
    seven days after it was issued.  No other row or table is touched, and
    a recipient reported as failed has no row. *)
Theorem send_stores_one_invitation_per_email af b s payload r code res ts s' :
  u_recruiter_code r = Some code ->
  request af b s (send payload r) = (Return (res, ts), s') ->
  exists news,
    s' = with_invite_tokens s (invite_tokens s ++ news) /\
    map it_student_email news = map recipient_email ts /\
    map (fun row => link_for (it_token row) code) news
    = map invitation_link ts /\
    Forall (issued token_urlsafe utcnow (assessment_id payload)
                   (length (emails payload))) news.
Proof.
  intros Hcode Hr.
  destruct (send_ends af b s payload r)
    as [[Hr' _] | (code' & a' & tbl' & ts' & fs & Hcode' & Hne & _ & Hr' & HS)];
    [congruence|].
  rewrite Hr in Hr'. injection Hr' as -> -> ->.
  assert (code' = code) as -> by congruence.
  destruct (Sent_rows _ _ _ _ _ _ _ _ _ _ _ _ _ HS)
    as (news & -> & Hem & Hl & Hall & _).
  exists news. repeat split; try done.
  eapply Forall_impl; [exact Hall|]. simpl.
  intros row (Hu & Ha & j & Hj & Ht & He). repeat split; try done.
  exists j. repeat split; try done. lia.
Qed.

(** X4 -- On a store that never fails, nobody is reported as failed exactly
    when the tokens drawn for the recipients are new to the ledger and
    differ from one another: a token the ledger already holds is the only
    way to lose an invitation there. *)
Theorem send_delivers_all_iff_tokens_fresh af s payload r res ts s' :
  request af None s (send payload r) = (Return (res, ts), s') ->
  failed_count res = 0%nat <->
  NoDup (map token_urlsafe (seq 0 (length (emails payload)))) /\
  forall j, (j < length (emails payload))%nat ->
            token_urlsafe j ∉ map it_token (invite_tokens s).
Proof.
  intros Hr.
  destruct (send_ends af None s payload r)
    as [[Hr' _] | (code' & a' & tbl' & ts' & fs & Hcode' & Hne & _ & Hr' & HS)];
    [congruence|].
  rewrite Hr in Hr'. injection Hr' as -> -> ->. simpl.
  pose proof (Sent_none_failed _ _ _ _ _ _ _ _ _ _ HS eq_refl) as Hiff.
  rewrite length_zero_iff_nil, Hiff. simpl.
  split; intros [Hnd Hf]; (split; [done|]); intros j Hj; apply Hf; lia.
Qed.

(** X5 -- Every invitation the request stored is found again by its token:
    the status endpoint reports it valid, for the recipient it was sent to,
    up to its expiry, and expired afterwards. *)
Theorem issued_invitation_is_valid_until_expiry
    af b s payload r res ts s' row af' b' now :
  request af b s (send payload r) = (Return (res, ts), s') ->
  row ∈ invite_tokens s' -> row ∉ invite_tokens s ->
  exists resp,
    request af' b' s' (Invite.get_invite_status (it_token row) now)
    = (Return resp, s') /\
    Invite.valid resp = negb (bool_decide (it_expires_at row < now)) /\
    Invite.status resp
    = (if bool_decide (it_expires_at row < now) then "expired" else "valid") /\
    (Invite.valid resp = true ->
     Invite.status_student_email resp = Some (it_student_email row)).
Proof.
  intros Hr Hin Hnew.
  destruct (send_ends af b s payload r)
    as [[Hr' _] | (code' & a' & tbl' & ts' & fs & Hcode' & Hne & Ho & Hr' & HS)];
    [congruence|].
  rewrite Hr in Hr'. injection Hr' as -> -> ->.
  destruct (Sent_rows _ _ _ _ _ _ _ _ _ _ _ _ _ HS)
    as (news & -> & _ & _ & Hall & Hfind).
  simpl in Hin. apply elem_of_app in Hin as [Hin|Hin]; [done|].
  specialize (Hfind row Hin).
  rewrite Forall_forall in Hall.
  destruct (Hall row Hin) as (Hu & Ha & _).
  destruct (owned_assessment_by_id _ _ _ _ Ho) as (a1 & Ha1 & _).
  unfold request, Invite.get_invite_status.
  rewrite bind_query_clean by done. simpl.
  unfold invite_by_token. simpl. rewrite Hfind, Hu.
  case_bool_decide as Hexp; simpl; [by eexists|].
  rewrite bind_query_clean by done. simpl.
  unfold assessment_by_id in *. simpl. rewrite Ha, Ha1.
  by eexists.
Qed.

(** X6 -- The link of every scheduled e-mail already ends with the
    recruiter's code, and [send_invite_email] appends the code once more:
    the link that is mailed carries [recruiter_code] twice. *)
Theorem emailed_link_repeats_recruiter_code af b s payload r res ts s' t :
  request af b s (send payload r) = (Return (res, ts), s') ->
  t ∈ ts ->
  exists code token,
    u_recruiter_code r = Some code /\
    invitation_link t = link_for token code /\
    Email.full_invitation_link (recruiter t) (invitation_link t)
    = (link_for token code ++ "&recruiter_code=" ++ code)%string.
Proof.
  intros Hr Hin.
  destruct (send_ends af b s payload r)
    as [[Hr' _] | (code & a' & tbl' & ts' & fs & Hcode & Hne & Ho & Hr' & HS)];
    [congruence|].
  rewrite Hr in Hr'. injection Hr' as -> -> ->.
  pose proof (Sent_tasks _ _ _ _ _ _ _ _ _ _ HS) as Hts.
  rewrite Forall_forall in Hts. destruct (Hts t Hin) as (Hrec & j & Hl).
  exists code, (token_urlsafe j). repeat split; try done.
  rewrite Hl, Hrec. unfold Email.full_invitation_link, Email.recruiter_code_param.
  rewrite Hcode. rewrite bool_decide_eq_false_2 by done.
  done.
Qed.

End Request.

End Sending.

(** ** The invitation e-mail *)

Module Mail.
Import Email.

(** X7 -- [send_invite_email] never reaches its "skipping" branch: without
    a mail configuration the read of [conf.MAIL_FROM] raises while the
    message is built, before [conf] is tested.  With a configuration it
    prints the success line, or the two lines of a failed delivery, whose
    exception it swallows; the only exception that leaves it then is one of
    the message constructor. *)
Theorem invite_email_never_skips
    (Mailer : Type) (schema_raises : MessageSchema -> option string)
    (FastMail : ConnectionConfig -> Mailer)
    (send_message : Mailer -> MessageSchema -> option string)
    conf recipient_email recruiter invitation_link :
  match send_invite_email Mailer schema_raises FastMail send_message conf
                          recipient_email recruiter invitation_link with
  | inr out =>
      conf <> None /\ (Skipping ∉ out) /\
      (out = [SuccessfullySent recipient_email] \/
       exists e, out = [FailedToSend recipient_email; ErrorLine e])
  | inl r =>
      (conf = None /\ r = NoneTypeHasNo "MAIL_FROM") \/
      (conf <> None /\
       exists m e, recipients m = [recipient_email] /\
                   schema_raises m = Some e /\ r = Library e)
  end.
Proof.
  unfold send_invite_email. destruct conf as [c|]; simpl; [|by left].
  match goal with |- context [schema_raises ?m] =>
    destruct (schema_raises m) as [e|] eqn:Hs;
      [right; split; [done|]; by exists m, e|] end.
  destruct (send_message _ _) as [e|]; (split; [done|]); split.
  - intros H. apply list_elem_of_In in H. simpl in H.
    by destruct H as [H | [H | H]].
  - right. by exists e.
  - intros H. apply list_elem_of_In in H. simpl in H.
    by destruct H as [H | H].
  - by left.
Qed.

End Mail.

(** ** Recruiter codes and accounts *)

Module Accounts.
Import CodeGenerator UserAdmin RecruiterInfo RecruiterCode Python.

#[local] Arguments candidate : simpl never.

Section Generator.

Variable randbelow : nat -> nat.

Lemma choice_in_alphabet i : choice randbelow i ∈ alphabet.
Proof.
  unfold choice. apply list_elem_of_In. apply nth_In.
  change (length alphabet) with 36%nat. apply Nat.mod_upper_bound. lia.
Qed.

Lemma candidate_format k :
  String.length (candidate randbelow k) = 8%nat /\
  Forall (fun c => c ∈ alphabet)
         (list_ascii_of_string (candidate randbelow k)).
Proof.
  unfold candidate. split; [done|].
  rewrite list_ascii_of_string_of_list_ascii.
  generalize (seq 0 8) as l. induction l as [|j l IH]; simpl; constructor;
    [apply choice_in_alphabet | done].
Qed.

Lemma generate_from_spec fuel : forall k σ code σ',
  generate_from randbelow k fuel σ = (Return (Some code), σ') ->
  exists j, code = candidate randbelow j /\ code_taken code (txn σ') = None /\
            durable σ' = durable σ.
Proof.
  induction fuel as [|fuel IH]; intros k σ code σ'; simpl; [done|].
  unfold bind. pose proof (read_only_query (code_taken (candidate randbelow k)) σ)
    as [Hd _].
  destruct (query _ σ) as [[[u|]|e] σ1] eqn:Hq; simpl in *; [| |done].
  - intros H. destruct (IH _ _ _ _ H) as (j & Hj & Ht & Hd').
    exists j. repeat split; try done. congruence.
  - intros [= <- <-]. exists k. repeat split; try done.
    unfold query, bind in Hq.
    destruct (if autoflush σ then flush else ret tt) as [[[]|e] σ2] eqn:Hf.
    all: destruct (autoflush σ); simpl in *; congruence.
Qed.

(** X8 -- A code the generator returns is made of eight characters, each
    an upper-case letter or a digit, and no user of the store the loop
    last read holds it; generating it has written nothing. *)
Theorem generated_code_is_wellformed_and_unused fuel af b s code s' :
  request af b s (generate_recruiter_code randbelow fuel)
  = (Return (Some code), s') ->
  s' = s /\ String.length code = 8%nat /\
  Forall (fun c => c ∈ alphabet) (list_ascii_of_string code) /\
  forall u, u ∈ users s -> u_recruiter_code u <> Some code.
Proof.
  unfold request, generate_recruiter_code.
  assert (forall k r σ',
    generate_from randbelow k fuel (open_session af b s) = (r, σ') ->
    txn σ' = s) as Htxn.
  { induction fuel as [|fuel' IH]; intros k r σ'; simpl; [by intros [= <- <-]|].
    rewrite bind_query_clean by done. simpl.
    destruct (code_taken _ s); [apply IH | by intros [= <- <-]]. }
  destruct (generate_from _ _ _ _) as [r σ'] eqn:Hg. intros [= -> <-].
  pose proof (generate_from_spec _ _ _ _ _ Hg) as (j & -> & Ht & Hd).
  simpl in Hd. rewrite (Htxn _ _ _ Hg) in Ht. split; [done|].
  destruct (candidate_format j) as [Hl Hall]. repeat split; try done.
  intros u Hu Hc. unfold code_taken in Ht.
  eapply find_none in Ht; [|by apply list_elem_of_In].
  simpl in Ht. apply bool_decide_eq_false in Ht. done.
Qed.

(** X9 -- The loop ends as soon as a candidate is unused: with fuel for
    more than [k] turns it returns the [k]-th candidate when that one is
    the first no user holds. *)
Theorem generator_returns_first_unused_candidate fuel af b s k :
  (k < fuel)%nat ->
  code_taken (candidate randbelow k) s = None ->
  (forall j, (j < k)%nat -> code_taken (candidate randbelow j) s <> None) ->
  request af b s (generate_recruiter_code randbelow fuel)
  = (Return (Some (candidate randbelow k)), s).
Proof.
  intros Hk Hfree Hbusy. unfold request, generate_recruiter_code.
  assert (forall n fuel0 i, (i + n = k)%nat -> (n < fuel0)%nat ->
    generate_from randbelow i fuel0 (open_session af b s)
    = (Return (Some (candidate randbelow k)), open_session af b s)) as H.
  { induction n as [|n IH]; intros fuel0 i Hi Hf;
      (destruct fuel0 as [|fuel0]; [lia|]); simpl;
      rewrite bind_query_clean by done; simpl.
    - replace i with k by lia. by rewrite Hfree.
    - destruct (code_taken (candidate randbelow i) s) eqn:Hc.
      + apply IH; lia.
      + exfalso. apply (Hbusy i); [lia | done]. }
  by rewrite (H k fuel 0%nat) by lia.
Qed.

End Generator.

(** X10 -- [delete_user] never deletes: for an id nobody has it answers
    [False]; for a user that exists the call of [db.delete()] without its
    argument raises a TypeError, so the commit and [return True] are never
    reached.  The store is the same afterwards. *)
Theorem delete_user_never_deletes af b s user_id :
  exists r,
    request af b s (delete_user user_id) = (Return r, s) /\
    r <> inr true /\
    (r = inr false <-> user_by_id user_id s = None) /\
    (r = inl TypeError <-> is_Some (user_by_id user_id s)).
Proof.
  unfold request, delete_user, get_user_by_id.
  rewrite bind_query_clean by done. simpl.
  destruct (user_by_id user_id s) as [u|].
  - unfold call_method, bind, ret. simpl. eexists. split; [done|].
    repeat split; try done.
  - eexists. split; [done|]. repeat split; try done; by intros [? ?].
Qed.

Lemma service_returns sid rid σ :
  exists ok σ', UserService.link_student_to_recruiter sid rid σ
                = (Return ok, σ').
Proof.
  unfold UserService.link_student_to_recruiter, try_except.
  destruct (bind _ _ σ) as [[ok|e] σ1]; [by eexists _, _|].
  unfold bind, rollback, ret. by eexists _, _.
Qed.

(** X11 -- The validation endpoint never fails and never writes, and it
    agrees with the linking endpoint: a code it calls invalid is the code
    that linking rejects as invalid, for every student. *)
Theorem validation_agrees_with_linking af b s code u :
  RecruiterCode.is_student u = true ->
  exists v,
    request af b s (RecruiterInfo.validate_recruiter_code code) = (Return v, s) /\
    (is_valid v = false <->
     request af b s (RecruiterCode.link_student_to_recruiter code u)
     = (Raise invalid_code, s)) /\
    (is_valid v = true <-> is_Some (find_recruiter code s)) /\
    validated_id v = u_id <$> find_recruiter code s.
Proof.
  intros Hst.
  unfold request, RecruiterInfo.validate_recruiter_code,
    RecruiterCode.link_student_to_recruiter, find_recruiter,
    UserService.validate_recruiter_code.
  rewrite Hst. simpl.
  destruct (bool_decide (code = "")) eqn:Hc.
  { unfold bind, ret, raise. simpl. eexists. split; [done|]. simpl.
    repeat split; try done; by intros [? ?]. }
  rewrite !bind_query_clean by done. simpl.
  destruct (find _ (users s)) as [recruiter|]; simpl.
  - eexists. split; [done|]. simpl. repeat split; try done; try by eexists.
    intros H. exfalso. revert H.
    rewrite bind_query_clean by done. simpl.
    destruct (existing_link _ _ s); [done|].
    unfold bind at 1.
    destruct (service_returns (u_id u) (u_id recruiter) (open_session af b s))
      as (ok & σ1 & ->).
    destruct ok; simpl; [|done].
    unfold bind.
    pose proof (Linking.get_recruiter_assessments_returns
                  (u_id u) (u_id recruiter) σ1) as [l Hl].
    destruct (UserService.get_recruiter_assessments_for_student _ _ σ1)
      as [[l'|e] σ2]; simpl in *; done.
  - eexists. split; [done|]. simpl. repeat split; try done; by intros [? ?].
Qed.


(** *** The recruiter a student is shown *)

Lemma my_recruiter_request af b s u :
  request af b s (get_student_recruiter_info u)
  = if negb (RecruiterCode.is_student u) then (Raise students_only_endpoint, s)
    else match first_recruiter_link (u_id u) s with
         | None => (Return NoRecruiterLinked, s)
         | Some ua =>
             match ua_recruiter_id ua ≫= (fun rid => user_by_id rid s) with
             | None => (Raise AttributeError, s)
             | Some recruiter =>
                 (Return (RecruiterFound (u_id recruiter) (u_name recruiter)
                                         (u_email recruiter)), s)
             end
         end.
Proof.
  unfold request, get_student_recruiter_info.
  destruct (negb (RecruiterCode.is_student u)); [done|].
  rewrite bind_query_clean by done. simpl.
  destruct (first_recruiter_link (u_id u) s) as [ua|]; [|done].
  rewrite bind_query_clean by done. simpl.
  destruct (ua_recruiter_id ua) as [rid|]; simpl; [|done].
  by destruct (user_by_id rid s).
Qed.

(** X12 -- Right after a student without any recruiter has linked by code
    to a recruiter who owns an assessment, the "my recruiter" endpoint
    answers with the recruiter of the linking answer. *)
Theorem my_recruiter_after_linking af b s code u resp s1 af' b' :
  NoDup (map a_id (assessments s)) ->
  request af b s (RecruiterCode.link_student_to_recruiter code u)
  = (Return resp, s1) ->
  first_recruiter_link (u_id u) s = None ->
  UserService.recruiter_assessments (recruiter_id resp) s <> [] ->
  exists name email,
    request af' b' s1 (get_student_recruiter_info u)
    = (Return (RecruiterFound (recruiter_id resp) name email), s1).
Proof.
  intros Hnd Hr Hfirst Hown.
  destruct (Linking.link_ends af b s code u _ Hnd Hr)
    as [[_ [=]] | [(_ & _ & [=]) | (recruiter & Hst & Hrec &
         [[_ [=]] | [Hex [[=] | (student & resp' & Hstu & Hn & Hid & Heq)]]])]].
  injection Heq as <- ->. rewrite Hid in *.
  rewrite my_recruiter_request, Hst. simpl.
  assert (exists r0, user_by_id (u_id recruiter) s = Some r0) as [r0 Hr0].
  { unfold find_recruiter in Hrec. destruct (bool_decide (code = "")); [done|].
    apply find_some in Hrec as [Hin _]. unfold user_by_id.
    destruct (Linking.find_is_Some
                (fun u0 => bool_decide (u_id u0 = u_id recruiter)) (users s)
                recruiter) as [r0 Hr0];
      [by apply list_elem_of_In | by apply bool_decide_eq_true | by exists r0]. }
  unfold first_recruiter_link in *.
  rewrite Linking.insert_all_rows. simpl.
  rewrite Resolver.find_app, Hfirst.
  unfold new_links.
  destruct (UserService.recruiter_assessments (u_id recruiter) s)
    as [|a l] eqn:Hl; [done|].
  simpl. rewrite (Linking.existing_link_None_fresh _ _ _ _ Hex). simpl.
  rewrite !bool_decide_eq_true_2 by done. simpl.
  unfold user_by_id in *. simpl. rewrite Hr0.
  exists (u_name r0), (u_email r0). do 3 f_equal.
  apply find_some in Hr0 as [_ Hr0]. by apply bool_decide_eq_true in Hr0.
Qed.

(** X13 -- The endpoint reports the first recruiter a student was linked
    to, for good: once it has one to report, no later linking request, by
    this student or anyone else and with whatever code, changes its
    answer. *)
Theorem my_recruiter_is_the_first_linked af b s code u' u af' b' :
  NoDup (map a_id (assessments s)) ->
  is_Some (first_recruiter_link (u_id u) s) ->
  let s1 := snd (request af b s
                   (RecruiterCode.link_student_to_recruiter code u')) in
  fst (request af' b' s1 (get_student_recruiter_info u))
  = fst (request af' b' s (get_student_recruiter_info u)).
Proof.
  intros Hnd [ua Hua] s1. subst s1.
  assert (forall news,
    fst (request af' b' (insert_all news s) (get_student_recruiter_info u))
    = fst (request af' b' s (get_student_recruiter_info u))) as Hsame.
  { intros news. rewrite !my_recruiter_request.
    destruct (negb (RecruiterCode.is_student u)); [done|].
    unfold first_recruiter_link in *. rewrite Linking.insert_all_rows. simpl.
    rewrite Resolver.find_app, Hua.
    unfold user_by_id. simpl.
    destruct (ua_recruiter_id ua ≫= _); done. }
  destruct (Linking.link_ends af b s code u' _ Hnd eq_refl)
    as [[_ ->] | [(_ & _ & ->) | (recruiter & _ & _ &
         [[_ ->] | [_ [-> | (student & resp & _ & _ & _ & ->)]]])]];
    simpl; [done | done | done | done | apply Hsame].
Qed.

End Accounts.

(** ** Submitting an assessment *)

Module Submitting.
Import Python Writes Submission UserAssessmentRouter Terms.

(** The statements of a unit of work go through one by one as long as the
    store lets them and no constraint is broken. *)
Lemma statements_spec ws : forall σ,
  match statements ws σ with
  | (Return _, σ') =>
      exists t, apply_writes ws (txn σ) = Some t /\
                survives (budget σ) (length ws) /\
                σ' = {| autoflush := autoflush σ; durable := durable σ;
                        txn := t; pending := pending σ;
                        budget := spend (length ws) (budget σ) |}
  | (Raise e, σ') =>
      e = SQLAlchemyError /\ durable σ' = durable σ /\
      (apply_writes ws (txn σ) = None \/ ~ survives (budget σ) (length ws))
  end.
Proof.
  induction ws as [|w rest IH]; intros σ.
  - simpl. exists (txn σ). repeat split; [by destruct (budget σ); simpl; lia|].
    destruct σ as [af d t p [k|]]; simpl; [|done]. by rewrite Nat.sub_0_r.
  - simpl. unfold bind at 1. unfold statement, bind, execute.
    destruct σ as [af d t p [[|k]|]]; simpl.
    + repeat split; try done. right. lia.
    + destruct (w t) as [t'|] eqn:Hw; simpl; [|repeat split; try done; by left].
      match goal with |- context [statements rest ?σ0] =>
        specialize (IH σ0); destruct (statements rest σ0) as [[[]|e] σ'] end;
        simpl in *.
      * destruct IH as (t1 & Ht1 & Hs & ->). exists t1.
        split; [done|]. split; [lia | done].
      * destruct IH as (-> & Hd & Hc). repeat split; try done.
        destruct Hc as [Hc|Hc]; [by left | right; lia].
    + destruct (w t) as [t'|] eqn:Hw; simpl; [|repeat split; try done; by left].
      match goal with |- context [statements rest ?σ0] =>
        specialize (IH σ0); destruct (statements rest σ0) as [[[]|e] σ'] end;
        simpl in *.
      * destruct IH as (t1 & Ht1 & Hs & ->). by exists t1.
      * destruct IH as (-> & Hd & Hc). repeat split; done.
Qed.

(** [db.commit()] with writes: all of them become durable, or none. *)
Lemma commit_writes_spec ws σ :
  pending σ = [] ->
  match commit_writes ws σ with
  | (Return _, σ') =>
      exists t, apply_writes ws (txn σ) = Some t /\
                survives (budget σ) (S (length ws)) /\
                durable σ' = t /\ txn σ' = t /\ pending σ' = [] /\
                autoflush σ' = autoflush σ
  | (Raise e, σ') =>
      e = SQLAlchemyError /\ durable σ' = durable σ /\
      (apply_writes ws (txn σ) = None \/
       ~ survives (budget σ) (S (length ws)))
  end.
Proof.
  intros Hp. unfold commit_writes, bind, flush. rewrite Hp. simpl.
  pose proof (statements_spec ws σ) as H.
  destruct (statements ws σ) as [[[]|e] σ1].
  - destruct H as (t & Ht & Hs & ->). unfold execute. simpl.
    destruct (budget σ) as [k|] eqn:Hb; simpl in *.
    + destruct (k - length ws)%nat as [|k'] eqn:Hk; simpl.
      * repeat split; try done. right. lia.
      * exists t. repeat split; try done. lia.
    + by exists t.
  - destruct H as (-> & Hd & Hc). repeat split; try done.
    destruct Hc as [Hc|Hc]; [by left|right].
    intros Hs. apply Hc. destruct (budget σ); simpl in *; [lia|done].
Qed.

(** *** Dictionaries built in a loop *)

Lemma foldl_insert_lookup {A B} (key : A -> Z) (val : A -> B) (l : list A) :
  forall (m : gmap Z B) k v,
    foldl (fun m x => <[key x := val x]> m) m l !! k = Some v ->
    m !! k = Some v \/ exists x, x ∈ l /\ key x = k /\ val x = v.
Proof.
  induction l as [|y l IH]; intros m k v; simpl; [by left|].
  intros H. apply IH in H as [H | (x & Hx & Hk & Hv)].
  - apply lookup_insert_Some in H as [[Hk Hv] | [_ H]]; [|by left].
    right. exists y. split; [by left | done].
  - right. exists x. split; [by right | done].
Qed.

Lemma foldl_insert_is_Some {A B} (key : A -> Z) (val : A -> B) (l : list A) :
  forall (m : gmap Z B) k,
    is_Some (m !! k) \/ k ∈ map key l ->
    is_Some (foldl (fun m x => <[key x := val x]> m) m l !! k).
Proof.
  induction l as [|y l IH]; intros m k; simpl.
  - intros [H | H]; [done | inversion H].
  - intros H. apply IH. rewrite lookup_insert_is_Some'.
    destruct H as [H | H]; [left; by right|].
    apply elem_of_cons in H as [-> | H]; [left; by left | by right].
Qed.

Lemma sum_permutation (l l' : list Z) :
  l ≡ₚ l' -> foldr Z.add 0 l = foldr Z.add 0 l'.
Proof. induction 1; simpl; lia. Qed.

Lemma marks_total_delete qm k q :
  qm !! k = Some q -> marks_total qm = q_marks q + marks_total (delete k qm).
Proof.
  intros H. unfold marks_total.
  rewrite <- (sum_permutation _ _
                (Permutation_map (fun kv => q_marks (snd kv))
                                 (map_to_list_delete qm k q H))).
  done.
Qed.

Lemma marks_total_nonneg qm :
  (forall k q, qm !! k = Some q -> 0 <= q_marks q) -> 0 <= marks_total qm.
Proof.
  intros H. unfold marks_total.
  assert (Forall (fun kv => 0 <= q_marks (snd kv)) (map_to_list qm)) as Hall.
  { apply Forall_forall. intros [k q] Hin.
    apply elem_of_map_to_list in Hin. by apply (H k). }
  induction Hall as [|kv l Hkv _ IH]; simpl; lia.
Qed.

Lemma gain_delete qm k answers :
  k ∉ map question_id answers -> gain (delete k qm) answers = gain qm answers.
Proof.
  unfold gain. induction answers as [|a rest IH]; simpl; [done|].
  intros Hn. apply not_elem_of_cons in Hn as [Hne Hn].
  rewrite IH by done. by rewrite lookup_delete_ne.
Qed.

(** Answers to different questions cannot earn more than all the marks. *)
Lemma gain_le_total answers : forall qm,
  NoDup (map question_id answers) ->
  (forall k q, qm !! k = Some q -> 0 <= q_marks q) ->
  gain qm answers <= marks_total qm.
Proof.
  induction answers as [|a rest IH]; intros qm Hnd Hpos.
  - by apply marks_total_nonneg.
  - simpl in Hnd. apply NoDup_cons in Hnd as [Hn Hnd].
    change (gain qm (a :: rest))
      with (default 0 (q_marks <$> qm !! question_id a) + gain qm rest).
    rewrite <- (gain_delete qm (question_id a)) by done.
    assert (gain (delete (question_id a) qm) rest
            <= marks_total (delete (question_id a) qm)) as Hrest.
    { apply IH; [done|]. intros k q Hk.
      apply lookup_delete_Some in Hk as [_ Hk]. by apply (Hpos k). }
    destruct (qm !! question_id a) as [q|] eqn:Hq; simpl.
    + rewrite (marks_total_delete qm _ q Hq). lia.
    + rewrite delete_id in Hrest by done. rewrite delete_id by done. lia.
Qed.

(** The score moves between what it was and that plus the marks of the
    questions answered. *)
Lemma grade_bound qm cm id answers : forall acc rows0 sc rows,
  (forall k q, qm !! k = Some q -> 0 <= q_marks q) ->
  grade qm cm id answers acc rows0 = Some (sc, rows) ->
  acc <= sc <= acc + gain qm answers.
Proof.
  induction answers as [|a rest IH]; intros acc rows0 sc rows Hpos; simpl.
  - intros [= <- _]. unfold gain. simpl. lia.
  - change (gain qm (a :: rest))
      with (default 0 (q_marks <$> qm !! question_id a) + gain qm rest).
    assert (0 <= default 0 (q_marks <$> qm !! question_id a)) as H0.
    { destruct (qm !! question_id a) as [q|] eqn:Hq; simpl; [|lia].
      by apply (Hpos _ _ Hq). }
    destruct (match selected_choice_id a with
              | Some c => bool_decide (Some c = cm !! question_id a)
              | None => false
              end).
    + destruct (qm !! question_id a) as [q|] eqn:Hq; [|done]. simpl in *.
      intros H. apply IH in H; [lia | done].
    + intros H. apply IH in H; [lia | done].
Qed.

Lemma questions_map_lookup qids s k q :
  questions_map qids s !! k = Some q -> q ∈ questions s /\ q_id q = k.
Proof.
  unfold questions_map. intros H.
  apply (foldl_insert_lookup q_id (fun q => q)) in H
    as [H | (x & Hx & Hk & <-)]; [by rewrite lookup_empty in H|].
  split; [|done]. apply list_elem_of_In in Hx.
  apply filter_In in Hx as [Hx _]. by apply list_elem_of_In.
Qed.

Lemma correct_choices_map_lookup qids choices k c :
  correct_choices_map qids choices !! k = Some c -> k ∈ qids.
Proof.
  unfold correct_choices_map. intros H.
  apply (foldl_insert_lookup c_question_id c_id) in H
    as [H | (x & Hx & <- & _)]; [by rewrite lookup_empty in H|].
  apply list_elem_of_In in Hx. apply filter_In in Hx as [_ Hx].
  apply andb_true_iff in Hx as [Hx _]. by apply bool_decide_eq_true in Hx.
Qed.

Lemma questions_map_is_Some qids s k q :
  q ∈ questions s -> q_id q = k -> k ∈ qids ->
  is_Some (questions_map qids s !! k).
Proof.
  intros Hq Hk Hin. unfold questions_map.
  apply foldl_insert_is_Some. right. rewrite <- Hk.
  apply list_elem_of_fmap_2. apply list_elem_of_In. apply filter_In.
  split; [by apply list_elem_of_In|]. apply bool_decide_eq_true. by rewrite Hk.
Qed.

(** No KeyError as long as every question with a correct choice is in the
    dictionary of questions. *)
Lemma grade_is_Some qm cm id answers : forall acc rows0,
  (forall k c, cm !! k = Some c -> is_Some (qm !! k)) ->
  is_Some (grade qm cm id answers acc rows0).
Proof.
  induction answers as [|a rest IH]; intros acc rows0 Hcov; simpl; [done|].
  destruct (selected_choice_id a) as [c|]; [|by apply IH].
  case_bool_decide as Hc; [|by apply IH].
  destruct (Hcov (question_id a) c (eq_sym Hc)) as [q ->]. by apply IH.
Qed.

Section Endpoint.

Variable require_student : User -> bool.
Variable not_a_student : Exn.
Variable choices : list Choice.
Variable violates : list UserAnswer -> bool.

Local Abbreviation submit :=
  (submit_assessment require_student not_a_student choices violates).
Local Abbreviation outcome :=
  (submit_outcome require_student not_a_student choices violates).

Lemma apply_answer_writes rows rows' w t :
  apply_writes (map (insert_answer violates rows) rows' ++ [w]) t
  = if match rows' with [] => false | _ => violates rows end
    then None else w t.
Proof.
  destruct (violates rows) eqn:Hv.
  - destruct rows' as [|a rows']; simpl.
    + by destruct (w t).
    + unfold insert_answer. by rewrite Hv.
  - replace (match rows' with [] => false | _ => false end) with false
      by by destruct rows'.
    induction rows' as [|a rows' IH]; simpl.
    + by destruct (w t).
    + unfold insert_answer at 1. by rewrite Hv.
Qed.

(** A submission is the function [submit_outcome] of the store. *)
Lemma submit_request af b s id answers now end_time u :
  request af b s (submit id answers now end_time u)
  = outcome b s id answers now end_time u.
Proof.
  unfold request, submit_assessment, submit_outcome.
  destruct (negb (require_student u)); [done|].
  rewrite bind_query_clean by done. simpl.
  destruct (own_assessment id (u_id u) s) as [ua|]; [|done].
  case_bool_decide as Hst; [done|].
  destruct (ua_start_time ua) as [start|]; [|done].
  rewrite bind_query_clean by done. simpl.
  destruct (assessment_by_id (ua_assessment_id ua) s) as [a|]; [|done].
  case_bool_decide as Hlate; [done|].
  rewrite !bind_query_clean by done. simpl.
  destruct (grade _ _ id answers 0 []) as [[sc rows]|]; [|done].
  unfold bind.
  match goal with |- context [commit_writes ?ws ?σ] =>
    pose proof (commit_writes_spec ws σ eq_refl) as H;
    destruct (commit_writes ws σ) as [[[]|e] σ1] end; simpl in *.
  - destruct H as (t & Ht & Hs & Hd & _).
    rewrite length_app, length_map in Hs. simpl in Hs.
    rewrite apply_answer_writes in Ht.
    destruct (match rows with [] => false | _ => violates rows end) eqn:Hv;
      [done|].
    replace (S (length rows + 1)) with (S (S (length rows))) in Hs by lia.
    simpl. rewrite (bool_decide_eq_true_2 _ Hs). simpl. unfold complete in Ht. injection Ht as <-. by rewrite Hd.
  - destruct H as (-> & Hd & Hc). rewrite Hd.
    rewrite length_app, length_map in Hc. simpl in Hc.
    rewrite apply_answer_writes in Hc.
    destruct (match rows with [] => false | _ => violates rows end) eqn:Hv;
      [done|].
    destruct Hc as [Hc|Hc]; [done|]. simpl.
    replace (S (length rows + 1)) with (S (S (length rows))) in Hc by lia.
    by rewrite (bool_decide_eq_false_2 _ Hc).
Qed.


Lemma grade_rows qm cm id answers : forall acc rows0 sc rows,
  grade qm cm id answers acc rows0 = Some (sc, rows) ->
  length rows = (length rows0 + length answers)%nat.
Proof.
  induction answers as [|a rest IH]; intros acc rows0 sc rows; simpl.
  - intros [= _ <-]. lia.
  - destruct (match selected_choice_id a with
              | Some c => bool_decide (Some c = cm !! question_id a)
              | None => false
              end).
    + destruct (qm !! question_id a); [|done].
      intros H. apply IH in H. rewrite length_app in H. simpl in H. lia.
    + intros H. apply IH in H. rewrite length_app in H. simpl in H. lia.
Qed.

Lemma find_all_false {A} (p : A -> bool) (l : list A) :
  (forall x, x ∈ l -> p x = false) -> find p l = None.
Proof.
  induction l as [|y l IH]; simpl; [done|]. intros H.
  rewrite (H y) by by left. apply IH. intros x Hx. apply H. by right.
Qed.

(** The key the table gives to the next row is new. *)
Lemma next_ua_id_fresh l ua :
  ua ∈ l -> ua_id ua <> Some (next_ua_id l).
Proof.
  intros Hin Heq. unfold next_ua_id in Heq.
  assert (default 0 (ua_id ua)
          <= foldr (fun ua m => Z.max (default 0 (ua_id ua)) m) 0 l) as Hle.
  { clear Heq. induction Hin as [ua l | ua y l Hin IH]; simpl; lia. }
  rewrite Heq in Hle. simpl in Hle. lia.
Qed.

(** A row that has just been inserted is the one its key and its owner
    find. *)
Lemma own_assessment_inserted ua s :
  own_assessment (next_ua_id (user_assessments s)) (ua_user_id ua)
                 (insert_ua ua s)
  = Some (set_ua_id (next_ua_id (user_assessments s)) ua).
Proof.
  unfold own_assessment, insert_ua, insert_row. simpl.
  rewrite Resolver.find_app.
  replace (find _ (user_assessments s)) with (@None UserAssessment).
  { simpl. by rewrite !bool_decide_eq_true_2. }
  symmetry. apply find_all_false.
  intros x Hx. apply andb_false_iff. left. apply bool_decide_eq_false.
  by apply next_ua_id_fresh.
Qed.

(** Starting an assessment, as a function of the store. *)
Lemma start_request af b s aid t0 u :
  request af b s (start_assessment require_student not_a_student aid t0 u)
  = if negb (require_student u) then (Raise not_a_student, s)
    else match assessment_by_id aid s with
         | None => (Raise assessment_not_found, s)
         | Some _ =>
             match active_assessment (u_id u) aid s with
             | Some _ => (Raise already_active, s)
             | None =>
                 if decide (survives b 2)
                 then (Return (Some (set_ua_id (next_ua_id (user_assessments s))
                                               (started_ua u aid t0))),
                       insert_ua (started_ua u aid t0) s)
                 else (Raise SQLAlchemyError, s)
             end
         end.
Proof.
  unfold request, start_assessment.
  destruct (negb (require_student u)); [done|].
  rewrite bind_query_clean by done. simpl.
  destruct (assessment_by_id aid s) as [a|]; [|done].
  rewrite bind_query_clean by done. simpl.
  destruct (active_assessment (u_id u) aid s); [done|].
  unfold bind at 1. unfold db_add at 1. simpl. unfold bind at 1.
  match goal with |- context [commit ?σ] =>
    pose proof (commit_spec σ) as H; destruct (commit σ) as [[[]|e] σ1] end;
    simpl in *.
  - destruct H as [Hs ->].
    rewrite query_clean by done. simpl.
    destruct (decide (survives b 2)); [|done].
    unfold insert_ua, insert_row. simpl. by rewrite last_snoc.
  - destruct H as (Hs & -> & _ & ->).
    by destruct (decide (survives b 2)).
Qed.

(** What is known once a submission has been answered with a result. *)
Lemma submission_answered af b s id answers now end_time u x s1 :
  request af b s (submit id answers now end_time u) = (Return (inr x), s1) ->
  require_student u = true /\
  exists ua start a,
    own_assessment id (u_id u) s = Some ua /\ ua_status ua <> COMPLETED /\
    ua_start_time ua = Some start /\
    assessment_by_id (ua_assessment_id ua) s = Some a /\
    ~ now - start > a_duration a * 60 * 1000000 /\
    let question_ids := map aq_question_id (questions_of (a_id a) s) in
    grade (questions_map question_ids s)
          (correct_choices_map question_ids choices) id answers 0 []
    = Some (Submission.score (fst x), snd x) /\
    total_marks (fst x) = marks_total (questions_map question_ids s) /\
    result_user_assessment_id (fst x) = id /\
    completed_at (fst x) = end_time /\
    s1 = completed_store id (Submission.score (fst x)) end_time s.
Proof.
  rewrite submit_request. unfold submit_outcome.
  destruct (require_student u); simpl; [|done]. intros H. split; [done|].
  destruct (own_assessment id (u_id u) s) as [ua|]; [|done].
  case_bool_decide as Hst; [done|].
  destruct (ua_start_time ua) as [start|] eqn:Hstart; [|done].
  destruct (assessment_by_id (ua_assessment_id ua) s) as [a|] eqn:Ha; [|done].
  case_bool_decide as Hlate; [done|].
  destruct (grade _ _ id answers 0 []) as [[sc rows]|] eqn:Hg; [|done].
  destruct (_ || _); [done|].
  injection H as <- <-. simpl. by exists ua, start, a.
Qed.

(** The store after a submission: as it was, or with the row completed. *)
Lemma submission_store af b s id answers now end_time u r s1 :
  request af b s (submit id answers now end_time u) = (r, s1) ->
  s1 = s \/
  exists ua start sc,
    own_assessment id (u_id u) s = Some ua /\ ua_start_time ua = Some start /\
    s1 = completed_store id sc end_time s.
Proof.
  rewrite submit_request. unfold submit_outcome.
  destruct (negb (require_student u)); [intros [= <- <-]; by left|].
  destruct (own_assessment id (u_id u) s) as [ua|] eqn:Hown;
    [|intros [= <- <-]; by left].
  case_bool_decide as Hst; [intros [= <- <-]; by left|].
  destruct (ua_start_time ua) as [start|] eqn:Hstart;
    [|intros [= <- <-]; by left].
  destruct (assessment_by_id (ua_assessment_id ua) s) as [a|];
    [|intros [= <- <-]; by left].
  case_bool_decide as Hlate; [intros [= <- <-]; by left|].
  destruct (grade _ _ id answers 0 []) as [[sc rows]|];
    [|intros [= <- <-]; by left].
  destruct (_ || _); intros [= <- <-]; [by left|].
  right. by exists ua, start, sc.
Qed.


(** X15 -- A row that was submitted with success is closed: submitting it
    again, with whatever answers and at whatever time, is refused with
    "Assessment already completed" and changes nothing. *)
Theorem resubmission_is_refused
    af b s id answers now end_time u x s1 af' b' answers' now' end_time' :
  request af b s (submit id answers now end_time u) = (Return (inr x), s1) ->
  request af' b' s1 (submit id answers' now' end_time' u)
  = (Raise already_completed, s1).
Proof.
  intros H.
  apply submission_answered in H
    as (Hrs & ua & start & a & Hown & _ & _ & _ & _ & _ & _ & _ & _ & ->).
  rewrite submit_request. unfold submit_outcome. rewrite Hrs. simpl.
  unfold own_assessment, completed_store in *. simpl.
  rewrite Ledger.find_map_stable
    by (intros ua0; destruct (bool_decide (ua_id ua0 = Some id)) eqn:E;
        simpl; rewrite ?E; done).
  rewrite Hown. simpl.
  apply find_some in Hown as [_ Hp]. apply andb_true_iff in Hp as [Hp _].
  rewrite Hp. simpl. done.
Qed.


(** X16 -- When no question has negative marks and no question is answered
    twice, the score of a result lies between zero and the total marks of
    the assessment. *)
Theorem submitted_score_is_bounded
    af b s id answers now end_time u res rows s1 :
  Forall (fun q => 0 <= q_marks q) (questions s) ->
  NoDup (map question_id answers) ->
  request af b s (submit id answers now end_time u)
  = (Return (inr (res, rows)), s1) ->
  0 <= Submission.score res <= total_marks res.
Proof.
  intros Hpos Hnd H.
  apply submission_answered in H
    as (_ & ua & start & a & _ & _ & _ & _ & _ & Hg & Ht & _).
  simpl in *. rewrite Ht.
  assert (forall k q,
    questions_map (map aq_question_id (questions_of (a_id a) s)) s !! k
    = Some q -> 0 <= q_marks q) as Hqm.
  { intros k q Hk. apply questions_map_lookup in Hk as [Hin _].
    rewrite Forall_forall in Hpos. by apply Hpos. }
  pose proof (grade_bound _ _ _ _ _ _ _ _ Hqm Hg) as Hb.
  pose proof (gain_le_total answers _ Hnd Hqm). lia.
Qed.

Lemma grading_defined s aid id answers acc rows0 :
  questions_exist s ->
  let question_ids := map aq_question_id (questions_of aid s) in
  is_Some (grade (questions_map question_ids s)
                 (correct_choices_map question_ids choices)
                 id answers acc rows0).
Proof.
  intros Hex question_ids. apply grade_is_Some.
  intros k c Hk. apply correct_choices_map_lookup in Hk.
  pose proof Hk as Hk'.
  apply list_elem_of_fmap in Hk as (aq & -> & Haq).
  assert (aq ∈ assessment_questions s) as Hin0.
  { apply list_elem_of_In. apply list_elem_of_In in Haq.
    unfold questions_of in Haq. by apply filter_In in Haq as [Haq _]. }
  unfold questions_exist in Hex. rewrite Forall_forall in Hex.
  destruct (Hex aq Hin0) as [q Hq].
  unfold question_by_id in Hq. apply find_some in Hq as [Hin Hid].
  apply bool_decide_eq_true in Hid.
  eapply questions_map_is_Some; [by apply list_elem_of_In | done | done].
Qed.

(** X17 -- When every association row points at a question of the table,
    grading never fails on a missing question: a submission does not end
    in a KeyError, whatever the answers name. *)
Theorem submission_never_misses_a_question
    af b s id answers now end_time u :
  questions_exist s ->
  fst (request af b s (submit id answers now end_time u))
  <> Return (inl KeyError).
Proof.
  intros Hex. rewrite submit_request. unfold submit_outcome.
  destruct (negb (require_student u)); [done|].
  destruct (own_assessment id (u_id u) s) as [ua|]; [|done].
  case_bool_decide as Hst; [done|].
  destruct (ua_start_time ua) as [start|]; [|done].
  destruct (assessment_by_id (ua_assessment_id ua) s) as [a|]; [|done].
  case_bool_decide as Hlate; [done|].
  destruct (grading_defined s (a_id a) id answers 0 [] Hex) as [[sc rows] Hg].
  simpl in Hg. rewrite Hg. by destruct (_ || _).
Qed.


Lemma own_assessment_mark_used id uid i s :
  own_assessment id uid (mark_used i s) = own_assessment id uid s.
Proof. done. Qed.

(** X18 -- The row that [start_assessment] answers with can be submitted
    by the same student as long as the duration of the assessment has not
    elapsed since the start: later the submission is refused with "time has
    expired" and nothing changes; in time, on a store that does not fail
    and whose association rows point at questions, it is graded and the row
    completed. *)
Theorem submission_window_after_start af b s aid t0 u row s1 :
  request af b s (start_assessment require_student not_a_student aid t0 u)
  = (Return (Some row), s1) ->
  exists i a,
    ua_id row = Some i /\ assessment_by_id aid s = Some a /\
    forall af' b' answers now end_time,
      let r := request af' b' s1 (submit i answers now end_time u) in
      (now - t0 > a_duration a * 60 * 1000000 ->
       r = (Raise time_expired, s1)) /\
      (~ now - t0 > a_duration a * 60 * 1000000 ->
       questions_exist s -> (forall rows, violates rows = false) ->
       b' = None ->
       exists res rows,
         r = (Return (inr (res, rows)),
              completed_store i (Submission.score res) end_time s1) /\
         length rows = length answers /\ completed_at res = end_time).
Proof.
  rewrite start_request.
  destruct (require_student u) eqn:Hrs; simpl; [|done].
  destruct (assessment_by_id aid s) as [a|] eqn:Ha; [|done].
  destruct (active_assessment (u_id u) aid s); [done|].
  destruct (decide (survives b 2)); [|done].
  intros [= <- <-]. exists (next_ua_id (user_assessments s)), a.
  split; [done|]. split; [done|].
  intros af' b' answers now end_time.
  rewrite submit_request. unfold submit_outcome. rewrite Hrs. simpl.
  pose proof (own_assessment_inserted (started_ua u aid t0) s) as Hown.
  simpl in Hown. rewrite Hown. simpl.
  change (assessment_by_id aid (insert_ua (started_ua u aid t0) s))
    with (assessment_by_id aid s). rewrite Ha.
  split.
  - intros Hlate. by rewrite bool_decide_eq_true_2.
  - intros Hin Hex Hv ->. rewrite bool_decide_eq_false_2 by done.
    destruct (grading_defined s (a_id a) (next_ua_id (user_assessments s))
                answers 0 [] Hex) as [[sc rows] Hg].
    simpl in Hg.
    change (questions_of (a_id a) (insert_ua (started_ua u aid t0) s))
      with (questions_of (a_id a) s).
    change (questions_map ?q (insert_ua (started_ua u aid t0) s))
      with (questions_map q s).
    rewrite Hg. rewrite Hv. simpl.
    replace (match rows with [] => false | _ :: _ => false end) with false
      by by destruct rows.
    simpl.
    match goal with |- exists res rows0, (Return (inr (?x, _)), _) = _ /\ _ =>
      exists x, rows end.
    split; [done|]. split; [|done].
    by apply grade_rows in Hg.
Qed.

(** X19 -- The row that redeeming an invitation creates cannot be
    submitted: it has no start time, so the student's submission ends in a
    TypeError and the row stays as it is, "Invited". *)
Theorem invited_row_cannot_be_submitted af b s token now u name rid s1 :
  require_student u = true ->
  request af b s (Invite.accept_invite_token token now u)
  = (Return (Invite.Accepted name rid), s1) ->
  exists row i,
    last (user_assessments s1) = Some row /\ ua_id row = Some i /\
    ua_user_id row = u_id u /\ ua_recruiter_id row = rid /\
    ua_status row = INVITED /\
    forall af' b' answers now' end_time,
      request af' b' s1 (submit i answers now' end_time u)
      = (Return (inl TypeError), s1).
Proof.
  intros Hrs. rewrite Ledger.accept_request. unfold accept_outcome.
  destruct (invite_by_token token s) as [invite|]; [|done].
  destruct (it_used invite); [done|].
  case_bool_decide; [done|].
  destruct (assessment_by_id (it_assessment_id invite) s) as [a|]; [|done].
  destruct (linkage _ _ _ s).
  { by destruct (decide (survives b 2)). }
  destruct (decide (survives b 3)); [|done].
  intros [= <- <- <-].
  eexists _, (next_ua_id (user_assessments s)).
  split; [simpl; apply last_snoc|]. repeat split.
  intros af' b' answers now' end_time.
  rewrite submit_request. unfold submit_outcome. rewrite Hrs. simpl.
  rewrite own_assessment_mark_used.
  pose proof (own_assessment_inserted
                (Invite.invited_ua u (a_created_by_user_id a)
                                   (it_assessment_id invite)) s) as Hown.
  simpl in Hown. by rewrite Hown.
Qed.

End Endpoint.

End Submitting.

(** ** The recruiter's figures *)

Module Figures.
Import RecruiterStats Terms.

Lemma count_if_bounds {A} (p : A -> bool) (l : list A) :
  0 <= count_if p l <= Z.of_nat (length l).
Proof. induction l as [|x l IH]; simpl; [lia|]. destruct (p x); lia. Qed.

Lemma count_if_mono {A} (p q : A -> bool) (l : list A) :
  (forall x, p x = true -> q x = true) -> count_if p l <= count_if q l.
Proof.
  intros H. induction l as [|x l IH]; simpl; [lia|].
  destruct (p x) eqn:Hp.
  - rewrite (H x Hp). lia.
  - destruct (q x); lia.
Qed.

Lemma count_if_none {A} (p : A -> bool) (l : list A) :
  Forall (fun x => p x = false) l -> count_if p l = 0.
Proof. induction 1 as [|x l Hx _ IH]; simpl; [done|]. by rewrite Hx. Qed.

Lemma verdict_completed s ua : verdict s ua <> Skipped -> is_completed ua = true.
Proof. unfold verdict. by destruct (is_completed ua). Qed.

Lemma tally_bounds s l : forall p0 f0,
  let '(p, f) := foldl (fun '(p, f) ua =>
                           match verdict s ua with
                           | Passed => (p + 1, f)
                           | Failed => (p, f + 1)
                           | Skipped => (p, f)
                           end) (p0, f0) l in
  p0 <= p /\ f0 <= f /\ (p - p0) + (f - f0) <= count_if is_completed l.
Proof.
  induction l as [|ua l IH]; intros p0 f0; simpl; [lia|].
  pose proof (verdict_completed s ua) as Hv.
  destruct (verdict s ua); simpl.
  - specialize (IH (p0 + 1) f0). destruct (foldl _ _ l) as [p f].
    rewrite Hv by done. lia.
  - specialize (IH p0 (f0 + 1)). destruct (foldl _ _ l) as [p f].
    rewrite Hv by done. lia.
  - specialize (IH p0 f0). destruct (foldl _ _ l) as [p f].
    destruct (is_completed ua); lia.
Qed.


Section Endpoints.

Variable require_recruiter : User -> bool.
Variable not_a_recruiter : Exn.

(** X20 -- The figures of a recruiter add up, whatever the store holds:
    attempted and not attempted make the total, what is completed was
    attempted, and what passed or failed was completed.  The endpoint
    writes nothing. *)
Theorem summary_counts_are_consistent af b s u :
  require_recruiter u = true ->
  exists sm,
    request af b s (get_recruiter_summary require_recruiter not_a_recruiter u)
    = (Return sm, s) /\
    attempted sm + not_attempted sm = total_assigned sm /\
    0 <= completed sm <= attempted sm /\
    attempted sm <= total_assigned sm /\
    0 <= passed sm /\ 0 <= failed sm /\
    passed sm + failed sm <= completed sm.
Proof.
  intros Hr. unfold request, get_recruiter_summary. rewrite Hr. simpl.
  rewrite query_clean by done. simpl.
  eexists. split; [reflexivity|]. unfold summary_of, tally.
  pose proof (tally_bounds s (assigned_by (u_id u) s) 0 0) as Ht.
  destruct (foldl _ _ (assigned_by (u_id u) s)) as [p f]. simpl.
  pose proof (count_if_bounds is_attempted (assigned_by (u_id u) s)).
  pose proof (count_if_bounds is_completed (assigned_by (u_id u) s)).
  assert (count_if is_completed (assigned_by (u_id u) s)
          <= count_if is_attempted (assigned_by (u_id u) s)).
  { apply count_if_mono. intros ua. unfold is_completed, is_attempted.
    rewrite !bool_decide_eq_true. intros ->. apply list_elem_of_In. simpl. auto. }
  lia.
Qed.

End Endpoints.


(** *** Stores the handlers produce *)

Lemma NoDup_map_eq {A B} (f : A -> B) (l : list A) x y :
  NoDup (map f l) -> x ∈ l -> y ∈ l -> f x = f y -> x = y.
Proof.
  induction l as [|z l IH]; simpl; intros Hnd Hx Hy Hf; [inversion Hx|].
  apply NoDup_cons in Hnd as [Hz Hnd].
  apply elem_of_cons in Hx as [-> | Hx]; apply elem_of_cons in Hy as [-> | Hy].
  - done.
  - exfalso. apply Hz. rewrite Hf. by apply list_elem_of_fmap_2.
  - exfalso. apply Hz. rewrite <- Hf. by apply list_elem_of_fmap_2.
  - by apply IH.
Qed.

Lemma orderly_insert ua s :
  orderly s -> untouched ua -> orderly (insert_ua ua s).
Proof.
  intros (Ha & Hid & Hun) Hua. unfold orderly, insert_ua, insert_row. simpl.
  split; [done|]. split.
  - rewrite map_app. simpl. apply NoDup_app. split; [done|]. split.
    + intros i Hi Hi'. apply list_elem_of_singleton in Hi'. subst i.
      apply list_elem_of_fmap in Hi as (x & Hx & Hin).
      by apply (Submitting.next_ua_id_fresh _ _ Hin).
    + apply NoDup_singleton.
  - apply Forall_app. split; [done|]. by constructor.
Qed.

Lemma orderly_insert_all news : forall s,
  orderly s -> Forall untouched news -> orderly (insert_all news s).
Proof.
  induction news as [|ua news IH]; intros s Hs Hn; [done|].
  apply Forall_cons in Hn as [Hua Hn]. simpl.
  apply IH; [by apply orderly_insert | done].
Qed.

Lemma orderly_completed id uid sc end_time s ua start :
  orderly s -> Submission.own_assessment id uid s = Some ua ->
  ua_start_time ua = Some start ->
  orderly (completed_store id sc end_time s).
Proof.
  intros (Ha & Hid & Hun) Hown Hstart.
  unfold Submission.own_assessment in Hown.
  apply find_some in Hown as [Hin Hp]. apply andb_true_iff in Hp as [Hp _].
  apply bool_decide_eq_true in Hp. apply list_elem_of_In in Hin.
  assert (ua_recruiter_id ua = None) as Hrec.
  { rewrite Forall_forall in Hun. specialize (Hun ua Hin).
    unfold untouched in Hun.
    destruct (ua_recruiter_id ua) eqn:Hr; [|done].
    destruct Hun as (_ & Hs & _); [done | congruence]. }
  unfold orderly, completed_store. simpl. split; [done|]. split.
  - rewrite map_map.
    erewrite map_ext; [exact Hid|]. intros x. simpl. by case_bool_decide.
  - rewrite Forall_forall in Hun. apply Forall_forall.
    intros y Hy. apply list_elem_of_fmap in Hy as (x & -> & Hx).
    case_bool_decide as Hidx; [|by apply Hun].
    assert (x = ua) as -> by (eapply NoDup_map_eq; [exact Hid|..]; congruence).
    intros Hr. simpl in Hr. congruence.
Qed.

(** The assignment script writes one linkage without recruiter, or
    nothing. *)
Lemma assign_ends af b s email aid :
  let s1 := snd (request af b s
                   (AssignScript.assign_assessment_to_student email aid)) in
  s1 = s \/ exists uid aid', s1 = insert_ua (AssignScript.pending_ua uid aid') s.
Proof.
  unfold request, AssignScript.assign_assessment_to_student.
  rewrite bind_query_clean by done. simpl.
  destruct (find _ (users s)) as [user|]; [|by left].
  rewrite bind_query_clean by done. simpl.
  destruct (assessment_by_id aid s) as [a|]; [|by left].
  rewrite bind_query_clean by done. simpl.
  destruct (find _ (user_assessments s)); [by left|].
  unfold bind, db_add. simpl.
  match goal with |- context [commit ?σ] =>
    pose proof (commit_spec σ) as H; destruct (commit σ) as [[[]|e] σ1] end;
    simpl in *.
  - destruct H as [_ ->]. simpl. right. by eexists _, _.
  - destruct H as (_ & _ & _ & ->). by left.
Qed.

Section Served.

Variable require_student : User -> bool.
Variable not_a_student : Exn.

Lemma served_orderly s :
  served require_student not_a_student s -> orderly s.
Proof.
  induction 1 as [s Hempty Hnd
                 | tu un cr af b s payload r _ IH
                 | af b s token now u _ IH
                 | af b s code u _ IH
                 | af b s email aid _ IH
                 | af b s aid now u _ IH
                 | choices violates af b s id answers now end_time u _ IH].
  - unfold orderly. rewrite Hempty. simpl. repeat split; [done| |done].
    constructor.
  - destruct (Sending.send_ends tu un cr af b s payload r)
      as [[-> _] | (code & a & tbl' & ts & fs & _ & _ & _ & -> & _)];
      [done|]. exact IH.
  - pose proof (Ledger.accept_ends af b s token now u) as H. simpl in H.
    destruct H as [[e ->] | (invite & a & Hi & Hus & He & Ha &
      [(Hl & Hb & ->) | (Hl & Hb & ->)])]; simpl; [done | exact IH |].
    change (orderly (insert_ua (Invite.invited_ua u (a_created_by_user_id a)
                                  (it_assessment_id invite)) s)).
    by apply orderly_insert.
  - destruct IH as (Ha & Hrest).
    destruct (Linking.link_ends af b s code u _ Ha eq_refl)
      as [[_ ->] | [(_ & _ & ->) | (recruiter & _ & _ &
           [[_ ->] | [_ [-> | (student & resp & _ & _ & _ & ->)]]])]];
      simpl; try done.
    apply orderly_insert_all; [done|].
    unfold new_links. apply Forall_forall. intros ua Hua.
    apply list_elem_of_fmap in Hua as (x & -> & _). by intros _.
  - destruct (assign_ends af b s email aid) as [-> | (uid & aid' & ->)];
      [done|].
    by apply orderly_insert.
  - rewrite Submitting.start_request.
    destruct (negb (require_student u)); [done|].
    destruct (assessment_by_id aid s); [|done].
    destruct (UserAssessmentRouter.active_assessment _ _ s); [done|].
    destruct (decide (survives b 2)); [|done].
    by apply orderly_insert.
  - destruct (request af b s _) as [r s1] eqn:Hr. simpl.
    apply Submitting.submission_store in Hr as [-> | H];
      [done|].
    destruct H as (ua & start & sc & Hown & Hstart & ->).
    by eapply orderly_completed.
Qed.

(** X21 -- However invitations are sent and redeemed, students link by
    code, are assigned, start and submit, a linkage that carries a
    recruiter stays "Invited": starting makes a row of its own without
    recruiter, and only started rows can be submitted.  So in every store
    these requests produce, every recruiter's figures show nothing
    attempted, completed, passed or failed. *)
Theorem recruiter_never_sees_an_attempt
    (require_recruiter : User -> bool) (not_a_recruiter : Exn) af b s u :
  served require_student not_a_student s ->
  require_recruiter u = true ->
  exists sm,
    request af b s (get_recruiter_summary require_recruiter not_a_recruiter u)
    = (Return sm, s) /\
    attempted sm = 0 /\ completed sm = 0 /\ passed sm = 0 /\ failed sm = 0 /\
    not_attempted sm = total_assigned sm.
Proof.
  intros Hs Hr. apply served_orderly in Hs as (_ & _ & Hun).
  unfold request, get_recruiter_summary. rewrite Hr. simpl.
  rewrite query_clean by done. simpl.
  eexists. split; [reflexivity|].
  assert (Forall (fun ua => ua_status ua = INVITED) (assigned_by (u_id u) s))
    as Hinv.
  { apply Forall_forall. intros ua Hua. unfold assigned_by in Hua.
    apply list_elem_of_In, filter_In in Hua as [Hin Hrec].
    apply bool_decide_eq_true in Hrec. rewrite Forall_forall in Hun.
    destruct (Hun ua) as (Hst & _); [by apply list_elem_of_In | congruence |].
    done. }
  unfold summary_of, tally.
  assert (count_if is_attempted (assigned_by (u_id u) s) = 0) as Hatt.
  { apply count_if_none. eapply Forall_impl; [exact Hinv|]. simpl.
    intros ua Hst. unfold is_attempted. rewrite Hst.
    apply bool_decide_eq_false. intros H. apply list_elem_of_In in H.
    simpl in H. by destruct H as [H | [H | H]]. }
  assert (count_if is_completed (assigned_by (u_id u) s) = 0) as Hcom.
  { apply count_if_none. eapply Forall_impl; [exact Hinv|]. simpl.
    intros ua Hst. unfold is_completed. rewrite Hst.
    by apply bool_decide_eq_false. }
  pose proof (tally_bounds s (assigned_by (u_id u) s) 0 0) as Ht.
  destruct (foldl _ _ (assigned_by (u_id u) s)) as [p f]. simpl.
  rewrite Hatt, Hcom. repeat split; lia.
Qed.

End Served.


(** *** The students of a recruiter *)

Section Students.

Variable require_recruiter : User -> bool.
Variable not_a_recruiter : Exn.
Variable equals_Completed : AssessmentStatus -> bool.

(** What holds of every entry of the dictionary between two turns. *)
Local Abbreviation sound kv :=
  (student_id (snd kv) = fst kv /\
   total_assigned_to (snd kv) = Z.of_nat (length (assessments_of (snd kv))) /\
   0 <= total_completed (snd kv) <= total_assigned_to (snd kv) /\
   1 <= total_assigned_to (snd kv)).

Local Abbreviation total d :=
  (foldr Z.add 0 (map (fun kv : Z * StudentStats => total_assigned_to (snd kv)) d)).

Lemma lookup_student_None sid d :
  lookup_student sid d = None <-> sid ∉ map fst d.
Proof.
  induction d as [|[k v] d IH]; simpl.
  - split; [intros _ H; inversion H | done].
  - case_bool_decide as Hk.
    + split; [done|]. intros H. exfalso. apply H. rewrite Hk. by left.
    + rewrite IH. rewrite not_elem_of_cons. split; [by intros H | by intros [_ H]].
Qed.

Lemma update_student_keys sid f d :
  map fst (update_student sid f d) = map fst d.
Proof.
  induction d as [|[k v] d IH]; simpl; [done|].
  case_bool_decide; simpl; [done | by rewrite IH].
Qed.

Lemma update_student_Forall (P : Z * StudentStats -> Prop) sid f d :
  NoDup (map fst d) ->
  (forall kv, kv ∈ d -> fst kv <> sid -> P kv) ->
  (forall kv, kv ∈ d -> fst kv = sid -> P (fst kv, f (snd kv))) ->
  Forall P (update_student sid f d).
Proof.
  induction d as [|[k v] d IH]; simpl; intros Hnd Hother Hsid; [constructor|].
  apply NoDup_cons in Hnd as [Hk Hnd]. case_bool_decide as Heq.
  - constructor; [apply (Hsid (k, v)); [by left | done]|].
    apply Forall_forall. intros kv Hkv. apply Hother; [by right|].
    intros Hkv'. apply Hk. rewrite Heq, <- Hkv'. by apply list_elem_of_fmap_2.
  - constructor; [apply (Hother (k, v)); [by left | done]|].
    apply IH; [done | |]; intros kv Hkv; [apply Hother | apply Hsid]; by right.
Qed.

Lemma update_student_total sid s ua d :
  sid ∈ map fst d ->
  total (update_student sid (record_line equals_Completed s ua) d)
  = total d + 1.
Proof.
  induction d as [|[k v] d IH]; simpl; intros Hin; [inversion Hin|].
  case_bool_decide as Heq; simpl; [lia|].
  apply elem_of_cons in Hin as [Hin | Hin]; [congruence|].
  rewrite IH by done. lia.
Qed.

(** One turn of the first loop keeps the dictionary sound and counts the
    linkage when its student exists. *)
Lemma visit_spec s d ua :
  NoDup (map fst d) -> Forall (fun kv => sound kv) d ->
  let d' := visit equals_Completed s d ua in
  NoDup (map fst d') /\ Forall (fun kv => sound kv) d' /\
  total d' = total d + (match user_by_id (ua_user_id ua) s with
                        | Some _ => 1
                        | None => 0
                        end).
Proof.
  intros Hnd Hall. unfold visit.
  destruct (user_by_id (ua_user_id ua) s) as [user|]; [|simpl; split_and!; [done..|lia]].
  set (sid := u_id user).
  set (fresh := {| student_id := sid; student_name := u_name user;
                   student_email := u_email user; assessments_of := [];
                   total_completed := 0; total_assigned_to := 0;
                   average_score := 0%Q |}).
  assert (forall kv, sound kv ->
            sound (fst kv, record_line equals_Completed s ua (snd kv))) as Hrec.
  { intros [k v] (H1 & H2 & H3 & H4). simpl in *.
    rewrite length_app. simpl.
    destruct (_ && _); repeat split; try done; lia. }
  destruct (lookup_student sid d) as [st|] eqn:Hl.
  - assert (sid ∈ map fst d) as Hin.
    { destruct (decide (sid ∈ map fst d)) as [|Hn]; [done|].
      apply lookup_student_None in Hn. congruence. }
    simpl. rewrite update_student_keys. split; [done|]. split.
    + rewrite Forall_forall in Hall.
      apply update_student_Forall; [done | |]; intros kv Hkv _.
      * by apply Hall.
      * apply Hrec. by apply Hall.
    + by apply update_student_total.
  - apply lookup_student_None in Hl. simpl.
    rewrite update_student_keys. rewrite map_app. simpl.
    assert (NoDup (map fst d ++ [sid])) as Hnd'.
    { apply NoDup_app. split; [done|]. split; [|apply NoDup_singleton].
      intros k Hk Hk'. apply list_elem_of_singleton in Hk'. by subst. }
    split; [done|]. split.
    + rewrite Forall_forall in Hall.
      apply update_student_Forall.
      * by rewrite map_app.
      * intros kv Hkv Hne. apply elem_of_app in Hkv as [Hkv | Hkv];
          [by apply Hall|].
        apply list_elem_of_singleton in Hkv. by subst.
      * intros kv Hkv Heq. apply elem_of_app in Hkv as [Hkv | Hkv].
        { apply Hrec. by apply Hall. }
        apply list_elem_of_singleton in Hkv. subst kv. simpl.
        destruct (_ && _); repeat split; simpl; lia.
    + rewrite update_student_total.
      * rewrite map_app, foldr_app. simpl.
        clear. induction d as [|kv d IH]; simpl; lia.
      * rewrite map_app. apply elem_of_app. right. by left.
Qed.

Lemma visits_spec s l : forall d,
  NoDup (map fst d) -> Forall (fun kv => sound kv) d ->
  let d' := foldl (visit equals_Completed s) d l in
  NoDup (map fst d') /\ Forall (fun kv => sound kv) d' /\
  total d'
  = total d
    + Z.of_nat (length (List.filter
                          (fun ua => bool_decide
                                       (is_Some (user_by_id (ua_user_id ua) s)))
                          l)).
Proof.
  induction l as [|ua l IH]; intros d Hnd Hall; simpl.
  - split_and!; [done..|lia].
  - destruct (visit_spec s d ua Hnd Hall) as (Hnd1 & Hall1 & Ht1).
    destruct (IH _ Hnd1 Hall1) as (Hnd2 & Hall2 & Ht2).
    split; [done|]. split; [done|]. rewrite Ht2, Ht1.
    destruct (user_by_id (ua_user_id ua) s); simpl.
    + lia.
    + lia.
Qed.

(** X22 -- The list of a recruiter's students has one entry per student:
    no student id comes twice, every entry counts the assessments it
    lists, at least one, with no more completed than assigned, and the
    entries together count each linkage of the recruiter whose student
    exists exactly once.  The endpoint writes nothing. *)
Theorem students_are_listed_once af b s u :
  require_recruiter u = true ->
  exists l,
    request af b s (get_students_for_recruiter require_recruiter
                      not_a_recruiter equals_Completed u)
    = (Return l, s) /\
    NoDup (map student_id l) /\
    Forall (fun st =>
              total_assigned_to st = Z.of_nat (length (assessments_of st)) /\
              0 <= total_completed st <= total_assigned_to st /\
              1 <= total_assigned_to st) l /\
    foldr Z.add 0 (map total_assigned_to l)
    = Z.of_nat (length (List.filter
                          (fun ua => bool_decide
                                       (is_Some (user_by_id (ua_user_id ua) s)))
                          (assigned_by (u_id u) s))).
Proof.
  intros Hr. unfold request, get_students_for_recruiter. rewrite Hr. simpl.
  rewrite query_clean by done. simpl.
  eexists. split; [reflexivity|]. unfold students_of.
  destruct (visits_spec s (assigned_by (u_id u) s) [])
    as (Hnd & Hall & Ht); [constructor | constructor |].
  simpl in Ht.
  set (d := foldl (visit equals_Completed s) [] (assigned_by (u_id u) s)) in *.
  clearbody d. split; [|split].
  - replace (map student_id (map (fun '(_, st) => with_average st) d))
      with (map fst d); [done|].
    clear Hnd Ht. induction Hall as [|[k v] d (H1 & _) _ IH]; simpl; [done|].
    simpl in H1. by rewrite IH, H1.
  - clear Hnd Ht. induction Hall as [|[k v] d (_ & H2 & H3 & H4) _ IH]; simpl;
      constructor; done.
  - rewrite Z.add_0_l in Ht. rewrite <- Ht. clear.
    induction d as [|[k v] d IH]; simpl; [done|]. by rewrite IH.
Qed.

End Students.

End Figures.

(** ** Attempts in progress *)

Module Attempts.
Import Terms UserAssessmentRouter.

Lemma active_attempts_insert ua s :
  active_attempts (insert_ua ua s)
  = active_attempts s
    ++ (if bool_decide (ua_status ua = STARTED)
        then [(ua_user_id ua, ua_assessment_id ua)] else []).
Proof.
  unfold active_attempts, insert_ua, insert_row. simpl.
  rewrite List.filter_app, map_app. simpl.
  by destruct (bool_decide (ua_status ua = STARTED)).
Qed.

Lemma active_attempts_insert_all news : forall s,
  Forall (fun ua => ua_status ua <> STARTED) news ->
  active_attempts (insert_all news s) = active_attempts s.
Proof.
  induction news as [|ua news IH]; intros s Hn; [done|].
  apply Forall_cons in Hn as [Hua Hn]. simpl. rewrite IH by done.
  rewrite active_attempts_insert, bool_decide_eq_false_2 by done.
  apply app_nil_r.
Qed.

Lemma active_assessment_None uid aid s :
  active_assessment uid aid s = None -> (uid, aid) ∉ active_attempts s.
Proof.
  unfold active_assessment, active_attempts. intros Hf Hin.
  apply list_elem_of_fmap in Hin as (ua & Heq & Hua).
  apply list_elem_of_In, filter_In in Hua as [Hin Hst].
  eapply find_none in Hf; [|exact Hin]. simpl in Hf.
  injection Heq as -> ->. rewrite Hst in Hf.
  by rewrite !bool_decide_eq_true_2 in Hf.
Qed.

Lemma active_attempts_completed id sc end_time s :
  active_attempts (completed_store id sc end_time s)
  `sublist_of` active_attempts s.
Proof.
  unfold active_attempts, completed_store. simpl.
  induction (user_assessments s) as [|ua l IH]; simpl; [constructor|].
  destruct (bool_decide (ua_id ua = Some id)); simpl.
  - destruct (bool_decide (ua_status ua = STARTED)); simpl;
      [by apply sublist_cons | done].
  - destruct (bool_decide (ua_status ua = STARTED)); simpl;
      [by apply sublist_skip | done].
Qed.

Section Served.

Variable require_student : User -> bool.
Variable not_a_student : Exn.

(** X23 -- However the handlers are called, a student never has two
    attempts in progress for the same assessment: [start_assessment] is the
    only one to make a started row and refuses while one exists, and a
    submission only closes rows. *)
Theorem at_most_one_attempt_in_progress s :
  served require_student not_a_student s -> NoDup (active_attempts s).
Proof.
  induction 1 as [s Hempty Hnd
                 | tu un cr af b s payload r Hs IH
                 | af b s token now u Hs IH
                 | af b s code u Hs IH
                 | af b s email aid Hs IH
                 | af b s aid now u Hs IH
                 | choices violates af b s id answers now end_time u Hs IH].
  - unfold active_attempts. rewrite Hempty. constructor.
  - destruct (Sending.send_ends tu un cr af b s payload r)
      as [[-> _] | (code & a & tbl' & ts & fs & _ & _ & _ & -> & _)];
      [done|]. exact IH.
  - pose proof (Ledger.accept_ends af b s token now u) as H. simpl in H.
    destruct H as [[e ->] | (invite & a & Hi & Hus & He & Ha &
      [(Hl & Hb & ->) | (Hl & Hb & ->)])]; simpl; [done | exact IH |].
    change (NoDup (active_attempts
                     (insert_ua (Invite.invited_ua u (a_created_by_user_id a)
                                   (it_assessment_id invite)) s))).
    rewrite active_attempts_insert. simpl. by rewrite app_nil_r.
  - apply Figures.served_orderly in Hs as (Ha & _).
    destruct (Linking.link_ends af b s code u _ Ha eq_refl)
      as [[_ ->] | [(_ & _ & ->) | (recruiter & _ & _ &
           [[_ ->] | [_ [-> | (student & resp & _ & _ & _ & ->)]]])]];
      simpl; try done.
    rewrite active_attempts_insert_all; [done|].
    unfold new_links. apply Forall_forall. intros ua Hua.
    by apply list_elem_of_fmap in Hua as (x & -> & _).
  - destruct (Figures.assign_ends af b s email aid) as [-> | (uid & aid' & ->)];
      [done|].
    rewrite active_attempts_insert. simpl. by rewrite app_nil_r.
  - rewrite Submitting.start_request.
    destruct (negb (require_student u)); [done|].
    destruct (assessment_by_id aid s); [|done].
    destruct (active_assessment (u_id u) aid s) eqn:Hact; [done|].
    destruct (decide (survives b 2)); [|done].
    simpl. rewrite active_attempts_insert. simpl.
    apply NoDup_app. split; [done|]. split; [|apply NoDup_singleton].
    intros k Hk Hk'. apply list_elem_of_singleton in Hk'. subst k.
    by apply active_assessment_None in Hact.
  - destruct (request af b s _) as [r s1] eqn:Hr. simpl.
    apply Submitting.submission_store in Hr as [-> | H];
      [done|].
    destruct H as (ua & start & sc & _ & _ & ->).
    eapply sublist_NoDup; [exact IH|]. apply active_attempts_completed.
Qed.

End Served.

End Attempts.

(** ** Previewing an invitation *)

Module Preview.
Import Invite.

Lemma collect_questions_ids aqs s : forall l,
  collect_questions aqs s = Some l -> map fst l = map aq_question_id aqs.
Proof.
  induction aqs as [|aq aqs IH]; intros l; simpl; [by intros [= <-]|].
  destruct (question_by_id (aq_question_id aq) s) as [q|] eqn:Hq; [|done].
  destruct (collect_questions aqs s) as [l'|]; [|done].
  intros [= <-]. simpl. rewrite (IH l' eq_refl).
  unfold question_by_id in Hq. apply find_some in Hq as [_ Hq].
  apply bool_decide_eq_true in Hq. by rewrite Hq.
Qed.

(** X24 -- A token whose preview is served is one the status endpoint
    calls valid; the preview names the assessment of the token and lists
    its questions, one per association row and in their order; and on a
    store that does not fail whoever redeems the token at that moment is
    not refused. *)
Theorem previewed_token_is_redeemable af b s token now p s' :
  request af b s (validate_invite_token token now) = (Return p, s') ->
  s' = s /\ status_of s token now = "valid" /\
  (exists invite a,
     invite_by_token token s = Some invite /\
     assessment_by_id (it_assessment_id invite) s = Some a /\
     assessment_id p = a_id a /\ title p = a_name a /\
     map fst (preview_questions p)
     = map aq_question_id (questions_of (a_id a) s)) /\
  forall af' u, exists r s1,
    request af' None s (accept_invite_token token now u) = (Return r, s1).
Proof.
  rewrite Ledger.validate_request. unfold status_of.
  destruct (invite_by_token token s) as [invite|] eqn:Hi; [|done].
  destruct (it_used invite) eqn:Hu; [done|].
  case_bool_decide as He; [done|].
  destruct (assessment_by_id (it_assessment_id invite) s) as [a|] eqn:Ha;
    [|done].
  destruct (collect_questions _ s) as [qs|] eqn:Hq; [|done].
  intros [= <- <-]. split; [done|]. split; [done|]. split.
  - exists invite, a. repeat split; try done. simpl.
    by apply collect_questions_ids in Hq.
  - intros af' u. rewrite Ledger.accept_request. unfold accept_outcome.
    rewrite Hi, Hu, bool_decide_eq_false_2, Ha by done.
    destruct (linkage _ _ _ s); by eexists _, _.
Qed.

End Preview.

(** ** The student's list on the stores redemption and linking produce *)

Module Listing.
Import UserAssessmentRouter Dashboard.

(** The linkages of [s] carry the owner of their assessment. *)
Local Abbreviation owned s :=
  (Forall (fun ua => exists a, a ∈ assessments s /\
                               a_id a = ua_assessment_id ua /\
                               a_created_by_user_id a = ua_recruiter_id ua)
          (user_assessments s)).







End Listing.

(** ** The further properties at work *)

Module Walkthrough.
Import Fixture Scenarios Cases Terms.
Import Sending Accounts Submitting Figures Attempts Preview.

Ltac computed := apply (bool_decide_unpack _); vm_compute; exact I.

(** Alice, who has no recruiter code, asks to invite Dan and Eve: 400, and
    the store is what it was. *)
Lemma send_refused_without_code_or_ownership_witness :
  request true None store0
    (InviteSend.send_quiz_invite token_of clock stamp to_dan_and_eve alice)
  = (Raise InviteSend.no_recruiter_code, store0).
Proof.
  apply (send_refused_without_code_or_ownership token_of clock stamp
           true None store0 to_dan_and_eve alice).
  left. reflexivity.
Defined.

(** Rachel invites Dan and Eve on a store that fails at its fourth
    statement: Dan is served, Eve is reported, and the two add up. *)
Lemma send_accounts_for_every_recipient_witness :
  exists res ts s',
    request true (Some 3%nat) store0
      (InviteSend.send_quiz_invite token_of clock stamp to_dan_and_eve rachel)
    = (Return (res, ts), s') /\
    InviteSend.successful_count res = length ts /\
    InviteSend.failed_count res = length (InviteSend.failed_invites res) /\
    (InviteSend.successful_count res + InviteSend.failed_count res)%nat = 2%nat /\
    map InviteSend.recipient_email ts
      ++ map fst (InviteSend.failed_invites res)
    ≡ₚ ["dan@x.com"; "eve@x.com"] /\
    (InviteSend.warning res = None <-> InviteSend.failed_count res = 0%nat).
Proof.
  apply (send_accounts_for_every_recipient token_of clock stamp
           true (Some 3%nat) store0 to_dan_and_eve rachel quiz7);
    reflexivity.
Defined.


Lemma both_are_sent :
  request true None store0
    (InviteSend.send_quiz_invite token_of clock stamp to_dan_and_eve rachel)
  = (Return (both_sent, [dan_task; eve_task]), after_send).
Proof. vm_compute. reflexivity. Qed.

(** On a healthy store both invitations are stored, for Dan and for Eve,
    each for assessment 7 and unused. *)
Lemma send_stores_one_invitation_per_email_witness :
  exists news,
    after_send = with_invite_tokens store0 (invite_tokens store0 ++ news) /\
    map it_student_email news
    = map InviteSend.recipient_email [dan_task; eve_task] /\
    map (fun row => InviteSend.link_for (it_token row) "ABC12345") news
    = map InviteSend.invitation_link [dan_task; eve_task] /\
    Forall (issued token_of clock 7 2) news.
Proof.
  apply (send_stores_one_invitation_per_email token_of clock stamp
           true None store0 to_dan_and_eve rachel "ABC12345" both_sent
           [dan_task; eve_task] after_send);
    [reflexivity | exact both_are_sent].
Defined.

(** Nobody failed, so the two tokens were new and different. *)
Lemma send_delivers_all_iff_tokens_fresh_witness :
  NoDup (map token_of (seq 0 (length (InviteSend.emails to_dan_and_eve)))) /\
  (forall j, (j < length (InviteSend.emails to_dan_and_eve))%nat ->
             token_of j ∉ map it_token (invite_tokens store0)).
Proof.
  destruct (send_delivers_all_iff_tokens_fresh token_of clock stamp
              true store0 to_dan_and_eve rachel both_sent
              [dan_task; eve_task] after_send both_are_sent) as [H _].
  apply H. reflexivity.
Defined.

(** Dan's invitation, a second after it was issued: valid, and his. *)
Lemma issued_invitation_is_valid_until_expiry_witness :
  exists resp,
    request false (Some 0%nat) after_send
      (Invite.get_invite_status "tok-0" 6000)
    = (Return resp, after_send) /\
    Invite.valid resp = true /\ Invite.status resp = "valid" /\
    (Invite.valid resp = true ->
     Invite.status_student_email resp = Some "dan@x.com").
Proof.
  apply (issued_invitation_is_valid_until_expiry token_of clock stamp
           true None store0 to_dan_and_eve rachel both_sent
           [dan_task; eve_task] after_send dan_invite false (Some 0%nat) 6000).
  - exact both_are_sent.
  - computed.
  - computed.
Defined.

(** The link mailed to Dan. *)
Lemma emailed_link_repeats_recruiter_code_witness :
  exists code token,
    u_recruiter_code rachel = Some code /\
    InviteSend.invitation_link dan_task = InviteSend.link_for token code /\
    Email.full_invitation_link (InviteSend.recruiter dan_task)
                               (InviteSend.invitation_link dan_task)
    = (InviteSend.link_for token code ++ "&recruiter_code=" ++ code)%string.
Proof.
  apply (emailed_link_repeats_recruiter_code token_of clock stamp
           true None store0 to_dan_and_eve rachel both_sent
           [dan_task; eve_task] after_send dan_task).
  - exact both_are_sent.
  - constructor.
Defined.

(** The first code drawn on the fixture. *)
Lemma generated_code_is_wellformed_and_unused_witness :
  store0 = store0 /\ String.length "AHOV29GN" = 8%nat /\
  Forall (fun c => c ∈ CodeGenerator.alphabet)
         (list_ascii_of_string "AHOV29GN") /\
  (forall u, u ∈ users store0 -> u_recruiter_code u <> Some "AHOV29GN").
Proof.
  apply (generated_code_is_wellformed_and_unused draws 3 true None store0).
  vm_compute. reflexivity.
Defined.

(** Carol holds the first candidate: the second one is returned. *)
Lemma generator_returns_first_unused_candidate_witness :
  request true None first_code_taken
    (CodeGenerator.generate_recruiter_code draws 3)
  = (Return (Some "U18FMT07"), first_code_taken).
Proof.
  apply (generator_returns_first_unused_candidate draws 3 true None
           first_code_taken 1).
  - lia.
  - vm_compute. reflexivity.
  - intros j Hj. assert (j = 0%nat) as -> by lia. vm_compute. discriminate.
Defined.

(** A code nobody holds: invalid for the validation endpoint, and refused
    as invalid when Alice links with it. *)
Lemma validation_agrees_with_linking_witness :
  exists v,
    request true None store0 (RecruiterInfo.validate_recruiter_code "NOPE")
    = (Return v, store0) /\
    (RecruiterInfo.is_valid v = false <->
     request true None store0
       (RecruiterCode.link_student_to_recruiter "NOPE" alice)
     = (Raise RecruiterCode.invalid_code, store0)) /\
    (RecruiterInfo.is_valid v = true <-> is_Some (find_recruiter "NOPE" store0)) /\
    RecruiterInfo.validated_id v = u_id <$> find_recruiter "NOPE" store0.
Proof.
  apply (validation_agrees_with_linking true None store0 "NOPE" alice).
  reflexivity.
Defined.

(** Alice has linked to Rachel: Rachel is her recruiter. *)
Lemma my_recruiter_after_linking_witness :
  exists name email,
    request false None after_link
      (RecruiterInfo.get_student_recruiter_info alice)
    = (Return (RecruiterInfo.RecruiterFound 2 name email), after_link).
Proof.
  apply (my_recruiter_after_linking true None store0 "ABC12345" alice
           alice_linked after_link false None).
  - exact Examples.store0_assessment_ids.
  - vm_compute. reflexivity.
  - reflexivity.
  - vm_compute. discriminate.
Defined.

(** Alice links to Dora as well and is still shown Rachel. *)
Lemma my_recruiter_is_the_first_linked_witness :
  fst (request true None
         (snd (request true None with_dora
                 (RecruiterCode.link_student_to_recruiter "DORA0001" alice)))
         (RecruiterInfo.get_student_recruiter_info alice))
  = Return (RecruiterInfo.RecruiterFound 2 "Rachel" "rachel@corp.com").
Proof.
  apply (my_recruiter_is_the_first_linked true None with_dora "DORA0001"
           alice alice true None).
  - computed.
  - vm_compute. by eexists.
Defined.

Lemma alice_submits :
  request true None after_start
    (Submission.submit_assessment RecruiterCode.is_student forbidden choices7
       no_constraint 1 answers7 1000000 1000001 alice)
  = (Return (inr (alice_result, alice_rows)), after_submit).
Proof. vm_compute. reflexivity. Qed.


(** She cannot submit it again. *)
Lemma resubmission_is_refused_witness :
  request false (Some 0%nat) after_submit
    (Submission.submit_assessment RecruiterCode.is_student forbidden choices7
       no_constraint 1 [] 2000000 2000001 alice)
  = (Raise Submission.already_completed, after_submit).
Proof.
  apply (resubmission_is_refused RecruiterCode.is_student forbidden choices7
           no_constraint true None after_start 1 answers7 1000000 1000001
           alice (alice_result, alice_rows) after_submit).
  exact alice_submits.
Defined.

(** Her score is within the marks of the assessment. *)
Lemma submitted_score_is_bounded_witness :
  0 <= Submission.score alice_result <= Submission.total_marks alice_result.
Proof.
  apply (submitted_score_is_bounded RecruiterCode.is_student forbidden choices7
           no_constraint true None after_start 1 answers7 1000000 1000001
           alice alice_result alice_rows after_submit).
  - computed.
  - computed.
  - exact alice_submits.
Defined.

(** The association rows of the fixture point at questions: an answer
    naming a question that is not there is graded wrong, not a failure. *)
Lemma submission_never_misses_a_question_witness :
  questions_exist after_start /\
  fst (request true None after_start
         (Submission.submit_assessment RecruiterCode.is_student forbidden
            choices7 no_constraint 1 [Submission.mkAnswer 99 (Some 10)]
            1000000 1000001 alice))
  <> Return (inl Python.KeyError).
Proof.
  assert (questions_exist after_start) as H by computed.
  split; [exact H|].
  apply (submission_never_misses_a_question RecruiterCode.is_student forbidden
           choices7 no_constraint true None after_start 1
           [Submission.mkAnswer 99 (Some 10)] 1000000 1000001 alice H).
Defined.

(** Alice started at time 1000; assessment 7 lasts thirty minutes.  Her
    submission is graded within that time and refused after it. *)
Lemma submission_window_after_start_witness :
  request true None after_start
    (Submission.submit_assessment RecruiterCode.is_student forbidden choices7
       no_constraint 1 answers7 1800001001 1800001002 alice)
  = (Raise Submission.time_expired, after_start) /\
  exists res rows,
    request true None after_start
      (Submission.submit_assessment RecruiterCode.is_student forbidden
         choices7 no_constraint 1 answers7 1800001000 1800001001 alice)
    = (Return (inr (res, rows)),
       completed_store 1 (Submission.score res) 1800001001 after_start) /\
    length rows = length answers7 /\
    Submission.completed_at res = 1800001001.
Proof.
  destruct (submission_window_after_start RecruiterCode.is_student forbidden
              choices7 no_constraint true None store0 7 1000 alice
              (set_ua_id 1 (UserAssessmentRouter.started_ua alice 7 1000))
              after_start)
    as (i & a & Hi & Ha & H).
  { vm_compute. reflexivity. }
  injection Hi as <-. vm_compute in Ha. injection Ha as <-.
  split.
  - apply (H true None answers7 1800001001 1800001002). vm_compute. reflexivity.
  - apply (H true None answers7 1800001000 1800001001).
    + vm_compute. discriminate.
    + computed.
    + reflexivity.
    + reflexivity.
Defined.

(** Alice has redeemed her invitation; the row it made cannot be
    submitted. *)
Lemma invited_row_cannot_be_submitted_witness :
  exists row i,
    last (user_assessments after_redeem) = Some row /\ ua_id row = Some i /\
    ua_user_id row = u_id alice /\ ua_recruiter_id row = Some 2 /\
    ua_status row = INVITED /\
    forall af' b' answers now' end_time,
      request af' b' after_redeem
        (Submission.submit_assessment RecruiterCode.is_student forbidden
           choices7 no_constraint i answers now' end_time alice)
      = (Return (inl Python.TypeError), after_redeem).
Proof.
  apply (invited_row_cannot_be_submitted RecruiterCode.is_student forbidden
           choices7 no_constraint true None store0 "tok-alice" 500 alice
           "Algorithms" (Some 2) after_redeem).
  - reflexivity.
  - vm_compute. reflexivity.
Defined.

(** Rachel's figures once Alice has redeemed, started and submitted. *)
Lemma summary_counts_are_consistent_witness :
  exists sm,
    request true None redeemed_and_taken
      (RecruiterStats.get_recruiter_summary is_recruiter forbidden rachel)
    = (Return sm, redeemed_and_taken) /\
    RecruiterStats.attempted sm + RecruiterStats.not_attempted sm
    = RecruiterStats.total_assigned sm /\
    0 <= RecruiterStats.completed sm <= RecruiterStats.attempted sm /\
    RecruiterStats.attempted sm <= RecruiterStats.total_assigned sm /\
    0 <= RecruiterStats.passed sm /\ 0 <= RecruiterStats.failed sm /\
    RecruiterStats.passed sm + RecruiterStats.failed sm
    <= RecruiterStats.completed sm.
Proof.
  apply (summary_counts_are_consistent is_recruiter forbidden true None
           redeemed_and_taken rachel).
  reflexivity.
Defined.

Lemma served_after_start :
  served RecruiterCode.is_student forbidden after_start.
Proof.
  unfold after_start. apply served_start. apply served_fresh.
  - reflexivity.
  - exact Examples.store0_assessment_ids.
Qed.

Lemma served_redeemed_and_taken :
  served RecruiterCode.is_student forbidden redeemed_and_taken.
Proof.
  unfold redeemed_and_taken, after_redeem.
  apply served_submit, served_start, served_accept, served_fresh.
  - reflexivity.
  - exact Examples.store0_assessment_ids.
Qed.

(** Alice has redeemed Rachel's invitation, taken the assessment and
    scored: Rachel's figures still show one assignment, not attempted. *)
Lemma recruiter_never_sees_an_attempt_witness :
  exists sm,
    request true None redeemed_and_taken
      (RecruiterStats.get_recruiter_summary is_recruiter forbidden rachel)
    = (Return sm, redeemed_and_taken) /\
    RecruiterStats.attempted sm = 0 /\ RecruiterStats.completed sm = 0 /\
    RecruiterStats.passed sm = 0 /\ RecruiterStats.failed sm = 0 /\
    RecruiterStats.not_attempted sm = RecruiterStats.total_assigned sm.
Proof.
  apply (recruiter_never_sees_an_attempt RecruiterCode.is_student forbidden
           is_recruiter forbidden true None redeemed_and_taken rachel).
  - exact served_redeemed_and_taken.
  - reflexivity.
Defined.

(** Rachel's students once Alice has linked to her: one entry, with the
    two assessments. *)
Lemma students_are_listed_once_witness :
  exists l,
    request true None after_link
      (RecruiterStats.get_students_for_recruiter is_recruiter forbidden
         (fun st => bool_decide (st = COMPLETED)) rachel)
    = (Return l, after_link) /\
    NoDup (map RecruiterStats.student_id l) /\
    Forall (fun st =>
              RecruiterStats.total_assigned_to st
              = Z.of_nat (length (RecruiterStats.assessments_of st)) /\
              0 <= RecruiterStats.total_completed st
                <= RecruiterStats.total_assigned_to st /\
              1 <= RecruiterStats.total_assigned_to st) l /\
    foldr Z.add 0 (map RecruiterStats.total_assigned_to l) = 2.
Proof.
  apply (students_are_listed_once is_recruiter forbidden
           (fun st => bool_decide (st = COMPLETED)) true None after_link
           rachel).
  reflexivity.
Defined.

(** Alice's attempt in progress is the only one. *)
Lemma at_most_one_attempt_in_progress_witness :
  active_attempts after_start = [(1, 7)] /\ NoDup (active_attempts after_start).
Proof.
  split; [reflexivity|].
  apply (at_most_one_attempt_in_progress RecruiterCode.is_student forbidden
           after_start).
  exact served_after_start.
Defined.

(** Alice's invitation is previewed: it is valid and she can redeem it. *)
Lemma previewed_token_is_redeemable_witness :
  store0 = store0 /\ status_of store0 "tok-alice" 500 = "valid" /\
  (exists invite a,
     invite_by_token "tok-alice" store0 = Some invite /\
     assessment_by_id (it_assessment_id invite) store0 = Some a /\
     Invite.assessment_id alice_preview = a_id a /\
     Invite.title alice_preview = a_name a /\
     map fst (Invite.preview_questions alice_preview)
     = map aq_question_id (questions_of (a_id a) store0)) /\
  forall af' u, exists r s1,
    request af' None store0 (Invite.accept_invite_token "tok-alice" 500 u)
    = (Return r, s1).
Proof.
  apply (previewed_token_is_redeemable true None store0 "tok-alice" 500
           alice_preview store0).
  vm_compute. reflexivity.
Defined.



End Walkthrough.
